(** * x300 streaming control plane: rate propagation, subdevice muxing,
      transport hints and DAC synchronisation

    A shallow embedding of [host/lib/usrp/x300/x300_io_impl.cpp].  The member
    functions of [x300_impl] become state-passing functions over a record
    [x300_impl]; a C++ exception is an [outcome] next to the state the call
    leaves behind, so that what was programmed before a throw stays visible. *)

From Stdlib Require Import ZArith String List Lia.
From Stdlib Require Import Floats.PrimFloat.
From stdpp Require Import base tactics option list gmap strings pretty.

Local Open Scope string_scope.
Local Open Scope list_scope.

(** ** Data *)

(** C++ [double]: the functions below only move such values around. *)
Abbreviation double := float.

(** [uhd::dict<std::string, V>], declared in [uhd/types/dict.hpp]: a list of
    pairs kept in insertion order; [keys()] and [vals()] enumerate it front to
    back and every access by key takes the first pair that matches. *)
Abbreviation dict V := (list (string * V)) (only parsing).

Definition dict_keys {V} (d : dict V) : list string := d.*1.
Definition dict_vals {V} (d : dict V) : list V := d.*2.

Fixpoint dict_get {V} (d : dict V) (k : string) : option V :=
  match d with
  | [] => None
  | (k', v) :: d' => if decide (k' = k) then Some v else dict_get d' k
  end.

Definition dict_has_key {V} (d : dict V) (k : string) : bool :=
  bool_decide (is_Some (dict_get d k)).

(** Non-const [operator[]]: a missing key is appended with a default value. *)
Definition dict_index {V} (dflt : V) (d : dict V) (k : string) : V * dict V :=
  match dict_get d k with
  | Some v => (v, d)
  | None => (dflt, d ++ [(k, dflt)])
  end.

(** [d[k] = v]. *)
Fixpoint dict_set {V} (d : dict V) (k : string) (v : V) : dict V :=
  match d with
  | [] => [(k, v)]
  | (k', v') :: d' =>
      if decide (k' = k) then (k', v) :: d' else (k', v') :: dict_set d' k v
  end.

(** [uhd::device_addr_t] is a [dict<std::string, std::string>]. *)
Abbreviation device_addr_t := (dict string) (only parsing).

(** [rfnoc::block_id_t] of a block found in the graph. *)
Record block_id_t := {
  get_device_no : nat;
  get_block_count : nat
}.

(** The graph node a streamer ends in.  [get_tick_rate] and
    [get_output_samp_rate] are queries on the terminator, separate from the
    values stored in the streamer itself. *)
Record rx_stream_terminator := {
  get_tick_rate : double;
  get_output_samp_rate : double
}.

Record recv_packet_streamer := {
  rx_tick_rate : double;
  rx_samp_rate : double;
  rx_scale_factor : double;
  rx_get_terminator : rx_stream_terminator
}.

(** [find_downstream_node<rfnoc::radio_ctrl>()] is the graph search of the
    terminator; its result is carried here as data. *)
Record tx_stream_terminator := {
  find_downstream_radio_ctrl : list block_id_t
}.

Record send_packet_streamer := {
  tx_tick_rate : double;
  tx_samp_rate : double;
  tx_scale_factor : double;
  tx_get_terminator : tx_stream_terminator
}.

(** What a [weak_ptr<uhd::rx_streamer>] can point to: the
    [dynamic_pointer_cast] to the packet streamer class fails on anything
    else. *)
Inductive rx_streamer :=
| recv_object (s : recv_packet_streamer)
| foreign_rx_streamer.

Inductive tx_streamer :=
| send_object (s : send_packet_streamer)
| foreign_tx_streamer.

(** A [boost::weak_ptr]: empty, or the address of an object that may have
    been destroyed since. *)
Abbreviation weak_ptr := (option nat) (only parsing).

(** One radio slot of a motherboard.  The mux fields hold what was last
    programmed ([None]: never). *)
Record radio_perifs_t := {
  tx_fe_mux : option string;
  ddc_mux : option (string * bool);
  rx_fe_mux : option bool;
  ddc_scaling_adjustment : double;
  duc_scaling_adjustment : double
}.

Record mboard_members_t := {
  recv_args : device_addr_t;
  send_args : device_addr_t;
  xport_path : string;
  radio_perifs : list radio_perifs_t
}.

Record subdev_spec_pair_t := {
  db_name : string;
  sd_name : string
}.

Abbreviation subdev_spec_t := (list subdev_spec_pair_t).

(** [uhd::fs_path]: the components between the slashes; a name joined with
    [/] is one component. *)
Abbreviation fs_path := (list string) (only parsing).

Inductive property :=
| prop_string (s : string)
| prop_size_vector (v : list Z).

(** The exception classes this file throws, catches or lets through. *)
Inductive exception_class :=
| assertion_error
| lookup_error
| value_error
| io_error
| runtime_error.

Global Instance exception_class_eq_dec : EqDecision exception_class.
Proof. solve_decision. Defined.

Record uhd_exception := {
  ex_class : exception_class;
  what : string
}.

(** [radio_perifs_t*]: the slot a pointer into [_mb[m].radio_perifs] names. *)
Abbreviation radio_ptr := (nat * nat)%type (only parsing).

(** Calls that leave this file, in the order they are made. *)
Inductive call :=
| tx_fe_set_mux (mb_i radio_idx : nat) (conn : string)
| ddc_set_mux (mb_i radio_idx : nat) (conn : string) (fe_swapped : bool)
| rx_fe_set_mux (mb_i radio_idx : nat) (fe_swapped : bool)
| tree_set (path : fs_path) (v : list Z)
| synchronize_dacs (radios : list radio_ptr).

(** The object state.  [rx_objects] and [tx_objects] are the streamers owned
    by client code, by address; the registries [_rx_streamers] and
    [_tx_streamers] only hold weak pointers to them.  [calls] records the
    outgoing calls. *)
Record x300_impl := {
  _mb : list mboard_members_t;
  _tree : gmap fs_path property;
  _rx_streamers : dict weak_ptr;
  _tx_streamers : dict weak_ptr;
  rx_objects : gmap nat rx_streamer;
  tx_objects : gmap nat tx_streamer;
  calls : list call
}.

(** ** Outcomes and the state monad *)

Inductive outcome (A : Type) : Type :=
| returns (a : A)
| throws (e : uhd_exception)
| undefined_behaviour.
Arguments returns {A} a.
Arguments throws {A} e.
Arguments undefined_behaviour {A}.

Definition M (A : Type) : Type := x300_impl → outcome A * x300_impl.

Global Instance M_ret : MRet M := λ A a st, (returns a, st).

Global Instance M_bind : MBind M := λ A B k m st,
  match m st with
  | (returns a, st') => k a st'
  | (throws e, st') => (throws e, st')
  | (undefined_behaviour, st') => (undefined_behaviour, st')
  end.

Definition throw {A} (e : uhd_exception) : M A := λ st, (throws e, st).
Definition undefined {A} : M A := λ st, (undefined_behaviour, st).
Definition get : M x300_impl := λ st, (returns st, st).
Definition modify (f : x300_impl → x300_impl) : M unit := λ st, (returns tt, f st).

Fixpoint for_each {A} (l : list A) (body : A → M unit) : M unit :=
  match l with
  | [] => mret tt
  | x :: l' => body x ;; for_each l' body
  end.

(** [UHD_ASSERT_THROW(code)]. *)
Definition UHD_ASSERT_THROW (code : string) (b : bool) : M unit :=
  if b then mret tt else throw {| ex_class := assertion_error; what := code |}.

(** Indexing a [std::vector] or a C array: out of range is undefined. *)
Definition at_index {A} (l : list A) (i : nat) : M A :=
  match l !! i with
  | Some x => mret x
  | None => undefined
  end.

(** ** Field updates *)

Definition set_mb (f : list mboard_members_t → list mboard_members_t)
    (st : x300_impl) : x300_impl :=
  {| _mb := f (_mb st); _tree := _tree st;
     _rx_streamers := _rx_streamers st; _tx_streamers := _tx_streamers st;
     rx_objects := rx_objects st; tx_objects := tx_objects st;
     calls := calls st |}.

Definition set_tree (f : gmap fs_path property → gmap fs_path property)
    (st : x300_impl) : x300_impl :=
  {| _mb := _mb st; _tree := f (_tree st);
     _rx_streamers := _rx_streamers st; _tx_streamers := _tx_streamers st;
     rx_objects := rx_objects st; tx_objects := tx_objects st;
     calls := calls st |}.

Definition set_rx_streamers (d : dict weak_ptr) (st : x300_impl) : x300_impl :=
  {| _mb := _mb st; _tree := _tree st;
     _rx_streamers := d; _tx_streamers := _tx_streamers st;
     rx_objects := rx_objects st; tx_objects := tx_objects st;
     calls := calls st |}.

Definition set_tx_streamers (d : dict weak_ptr) (st : x300_impl) : x300_impl :=
  {| _mb := _mb st; _tree := _tree st;
     _rx_streamers := _rx_streamers st; _tx_streamers := d;
     rx_objects := rx_objects st; tx_objects := tx_objects st;
     calls := calls st |}.

Definition set_rx_objects (f : gmap nat rx_streamer → gmap nat rx_streamer)
    (st : x300_impl) : x300_impl :=
  {| _mb := _mb st; _tree := _tree st;
     _rx_streamers := _rx_streamers st; _tx_streamers := _tx_streamers st;
     rx_objects := f (rx_objects st); tx_objects := tx_objects st;
     calls := calls st |}.

Definition set_tx_objects (f : gmap nat tx_streamer → gmap nat tx_streamer)
    (st : x300_impl) : x300_impl :=
  {| _mb := _mb st; _tree := _tree st;
     _rx_streamers := _rx_streamers st; _tx_streamers := _tx_streamers st;
     rx_objects := rx_objects st; tx_objects := f (tx_objects st);
     calls := calls st |}.

Definition log_call (c : call) (st : x300_impl) : x300_impl :=
  {| _mb := _mb st; _tree := _tree st;
     _rx_streamers := _rx_streamers st; _tx_streamers := _tx_streamers st;
     rx_objects := rx_objects st; tx_objects := tx_objects st;
     calls := calls st ++ [c] |}.

(** ** Streamers behind weak pointers *)

(** [_rx_streamers[block_id]]. *)
Definition rx_streamers_index (block_id : string) : M weak_ptr := λ st,
  let '(p, d) := dict_index None (_rx_streamers st) block_id in
  (returns p, set_rx_streamers d st).

Definition tx_streamers_index (block_id : string) : M weak_ptr := λ st,
  let '(p, d) := dict_index None (_tx_streamers st) block_id in
  (returns p, set_tx_streamers d st).

(** [dynamic_pointer_cast<sph::recv_packet_streamer>(p.lock())]: the address
    when the object is alive and of that class, else a null pointer. *)
Definition lock_recv (p : weak_ptr) : M (option nat) := λ st,
  (returns (h ← p;
            match rx_objects st !! h with
            | Some (recv_object _) => Some h
            | _ => None
            end), st).

Definition lock_send (p : weak_ptr) : M (option nat) := λ st,
  (returns (h ← p;
            match tx_objects st !! h with
            | Some (send_object _) => Some h
            | _ => None
            end), st).

(** Dereferencing a [shared_ptr] from [lock_recv]. *)
Definition deref_recv (h : nat) : M recv_packet_streamer := λ st,
  match rx_objects st !! h with
  | Some (recv_object s) => (returns s, st)
  | _ => (undefined_behaviour, st)
  end.

Definition deref_send (h : nat) : M send_packet_streamer := λ st,
  match tx_objects st !! h with
  | Some (send_object s) => (returns s, st)
  | _ => (undefined_behaviour, st)
  end.

Definition on_recv (f : recv_packet_streamer → recv_packet_streamer)
    (o : rx_streamer) : rx_streamer :=
  match o with
  | recv_object s => recv_object (f s)
  | foreign_rx_streamer => foreign_rx_streamer
  end.

Definition on_send (f : send_packet_streamer → send_packet_streamer)
    (o : tx_streamer) : tx_streamer :=
  match o with
  | send_object s => send_object (f s)
  | foreign_tx_streamer => foreign_tx_streamer
  end.

Definition with_rx_tick_rate (v : double) (s : recv_packet_streamer) :=
  {| rx_tick_rate := v; rx_samp_rate := rx_samp_rate s;
     rx_scale_factor := rx_scale_factor s;
     rx_get_terminator := rx_get_terminator s |}.
Definition with_rx_samp_rate (v : double) (s : recv_packet_streamer) :=
  {| rx_tick_rate := rx_tick_rate s; rx_samp_rate := v;
     rx_scale_factor := rx_scale_factor s;
     rx_get_terminator := rx_get_terminator s |}.
Definition with_rx_scale_factor (v : double) (s : recv_packet_streamer) :=
  {| rx_tick_rate := rx_tick_rate s; rx_samp_rate := rx_samp_rate s;
     rx_scale_factor := v;
     rx_get_terminator := rx_get_terminator s |}.

Definition with_tx_tick_rate (v : double) (s : send_packet_streamer) :=
  {| tx_tick_rate := v; tx_samp_rate := tx_samp_rate s;
     tx_scale_factor := tx_scale_factor s;
     tx_get_terminator := tx_get_terminator s |}.
Definition with_tx_samp_rate (v : double) (s : send_packet_streamer) :=
  {| tx_tick_rate := tx_tick_rate s; tx_samp_rate := v;
     tx_scale_factor := tx_scale_factor s;
     tx_get_terminator := tx_get_terminator s |}.
Definition with_tx_scale_factor (v : double) (s : send_packet_streamer) :=
  {| tx_tick_rate := tx_tick_rate s; tx_samp_rate := tx_samp_rate s;
     tx_scale_factor := v;
     tx_get_terminator := tx_get_terminator s |}.

(** Modelled from the spec: the streamer classes are declared in
    [super_recv_packet_handler.hpp] and [super_send_packet_handler.hpp]; their
    setters store the value in the object the pointer names. *)
Definition recv_set_tick_rate (h : nat) (v : double) : M unit :=
  modify (set_rx_objects (alter (on_recv (with_rx_tick_rate v)) h)).
Definition recv_set_samp_rate (h : nat) (v : double) : M unit :=
  modify (set_rx_objects (alter (on_recv (with_rx_samp_rate v)) h)).
Definition recv_set_scale_factor (h : nat) (v : double) : M unit :=
  modify (set_rx_objects (alter (on_recv (with_rx_scale_factor v)) h)).

Definition send_set_tick_rate (h : nat) (v : double) : M unit :=
  modify (set_tx_objects (alter (on_send (with_tx_tick_rate v)) h)).
Definition send_set_samp_rate (h : nat) (v : double) : M unit :=
  modify (set_tx_objects (alter (on_send (with_tx_samp_rate v)) h)).
Definition send_set_scale_factor (h : nat) (v : double) : M unit :=
  modify (set_tx_objects (alter (on_send (with_tx_scale_factor v)) h)).

(** ** Integer conversions *)

(** Conversion to a 32-bit [int]. *)
Definition to_int (z : Z) : Z := ((z + 2 ^ 31) mod 2 ^ 32 - 2 ^ 31)%Z.

(** Conversion of an [int] to a 64-bit [size_t]. *)
Definition to_size_t (z : Z) : Z := (z mod 2 ^ 64)%Z.

(** ** Property tree *)

(** Modelled from the spec: the property tree is declared in
    [uhd/property_tree.hpp], a store of typed values addressed by path.
    [_tree->access<std::string>(path).get()]: a path that is not in the tree
    throws [uhd::lookup_error]; a node of another type is reached through a
    static cast. *)
Definition tree_get_string (path : fs_path) : M string := λ st,
  match _tree st !! path with
  | Some (prop_string s) => (returns s, st)
  | Some (prop_size_vector _) => (undefined_behaviour, st)
  | None => (throws {| ex_class := lookup_error; what := "Path not found in tree" |}, st)
  end.

(** Modelled from the spec: [_tree->access<std::vector<size_t> >(path).set(v)]
    on the same store. *)
Definition tree_set_size_vector (path : fs_path) (v : list Z) : M unit := λ st,
  match _tree st !! path with
  | Some (prop_size_vector _) =>
      (returns tt, log_call (tree_set path v) (set_tree <[path := prop_size_vector v]> st))
  | Some (prop_string _) => (undefined_behaviour, st)
  | None => (throws {| ex_class := lookup_error; what := "Path not found in tree" |}, st)
  end.

(** ** Radio peripherals *)

Definition with_radio_perifs (l : list radio_perifs_t) (mb : mboard_members_t) :=
  {| recv_args := recv_args mb; send_args := send_args mb;
     xport_path := xport_path mb; radio_perifs := l |}.

Definition with_tx_fe_mux (conn : string) (p : radio_perifs_t) :=
  {| tx_fe_mux := Some conn; ddc_mux := ddc_mux p; rx_fe_mux := rx_fe_mux p;
     ddc_scaling_adjustment := ddc_scaling_adjustment p;
     duc_scaling_adjustment := duc_scaling_adjustment p |}.
Definition with_ddc_mux (conn : string) (fe_swapped : bool) (p : radio_perifs_t) :=
  {| tx_fe_mux := tx_fe_mux p; ddc_mux := Some (conn, fe_swapped);
     rx_fe_mux := rx_fe_mux p;
     ddc_scaling_adjustment := ddc_scaling_adjustment p;
     duc_scaling_adjustment := duc_scaling_adjustment p |}.
Definition with_rx_fe_mux (fe_swapped : bool) (p : radio_perifs_t) :=
  {| tx_fe_mux := tx_fe_mux p; ddc_mux := ddc_mux p; rx_fe_mux := Some fe_swapped;
     ddc_scaling_adjustment := ddc_scaling_adjustment p;
     duc_scaling_adjustment := duc_scaling_adjustment p |}.

(** [try { m } catch (const uhd::io_error &ex) { handler ex }]. *)
Definition try_catch_io_error {A} (m : M A) (handler : uhd_exception → M A) : M A :=
  λ st,
  match m st with
  | (throws ex, st') =>
      if decide (ex_class ex = io_error) then handler ex st' else (throws ex, st')
  | r => r
  end.

(** ** Example objects

    A device with two motherboards of two radio slots each, streamers
    registered for both, and stand-ins for the collaborators declared outside
    this file. *)

(** Block ids name motherboard 0 unless they start with "1/". *)
Definition ex_block_id_device_no (block_id : string) : option nat :=
  if decide (block_id = "") then None
  else if String.prefix "1/" block_id then Some 1%nat
  else Some 0%nat.

(** Slot "A" is radio 0, any other slot radio 1. *)
Definition ex_get_radio_index (mb_i : nat) (slot_name : string) : Z :=
  if decide (slot_name = "A") then 0%Z else 1%Z.

Definition ex_validate_subdev_spec (tree : gmap (list string) property)
    (spec : subdev_spec_t) (tx_rx mb_name : string) : option uhd_exception :=
  None.

(** Every mux write goes through. *)
Definition ex_set_mux_ok (c : call) (st : x300_impl) : option uhd_exception := None.

Definition ex_dacs_in_sync (radios : list (nat * nat)) (st : x300_impl)
    : option uhd_exception :=
  None.

(** The hardware fails to align the group made of radio 0 of motherboard 0. *)
Definition ex_dac_timeout (radios : list (nat * nat)) (st : x300_impl)
    : option uhd_exception :=
  if decide (radios = [(0%nat, 0%nat)])
  then Some {| ex_class := io_error; what := "DAC timeout" |}
  else None.

Definition ex_perif (ddc_adj duc_adj : double) : radio_perifs_t :=
  {| tx_fe_mux := None; ddc_mux := None; rx_fe_mux := None;
     ddc_scaling_adjustment := ddc_adj; duc_scaling_adjustment := duc_adj |}.

Definition ex_mb0 : mboard_members_t :=
  {| recv_args := [("recv_frame_size", "8000")];
     send_args := [("send_frame_size", "8000")];
     xport_path := "eth";
     radio_perifs := [ex_perif 1.5 0.5; ex_perif 1.25 0.25] |}.

Definition ex_mb1 : mboard_members_t :=
  {| recv_args := [("recv_buff_size", "4096")];
     send_args := [];
     xport_path := "nirio";
     radio_perifs := [ex_perif 2 4; ex_perif 3 6] |}.

Definition ex_tree : gmap (list string) property :=
  list_to_map
    [(["mboards"; "0"; "dboards"; "A"; "rx_frontends"; "0"; "connection"], prop_string "IQ");
     (["mboards"; "0"; "dboards"; "B"; "rx_frontends"; "0"; "connection"], prop_string "QI");
     (["mboards"; "0"; "dboards"; "A"; "tx_frontends"; "0"; "connection"], prop_string "IQ");
     (["mboards"; "0"; "dboards"; "B"; "tx_frontends"; "0"; "connection"], prop_string "QI");
     (["mboards"; "0"; "rx_chan_dsp_mapping"], prop_size_vector []);
     (["mboards"; "0"; "tx_chan_dsp_mapping"], prop_size_vector [])].

Definition ex_rx (tick samp : double) : recv_packet_streamer :=
  {| rx_tick_rate := 0; rx_samp_rate := 0; rx_scale_factor := 1;
     rx_get_terminator := {| get_tick_rate := tick; get_output_samp_rate := samp |} |}.

Definition ex_tx (radio_ctrl_blks : list (nat * nat)) : send_packet_streamer :=
  {| tx_tick_rate := 0; tx_samp_rate := 0; tx_scale_factor := 1;
     tx_get_terminator :=
       {| find_downstream_radio_ctrl :=
            map (λ b, {| get_device_no := b.1; get_block_count := b.2 |}) radio_ctrl_blks |} |}.

(** RX address 7 and TX address 9 have been destroyed by their owners. *)
Definition ex_st : x300_impl :=
  {| _mb := [ex_mb0; ex_mb1];
     _tree := ex_tree;
     _rx_streamers := [("0/Radio_0", Some 1%nat); ("1/Radio_0", Some 2%nat);
                       ("0/Radio_1", Some 7%nat); ("Radio_0", Some 3%nat)];
     _tx_streamers := [("0/Radio_0", Some 1%nat); ("0/Radio_1", Some 2%nat);
                       ("1/Radio_0", Some 9%nat); ("Radio_0", Some 3%nat)];
     rx_objects := {[ 1%nat := recv_object (ex_rx 200e6 1e6);
                      2%nat := recv_object (ex_rx 184.32e6 2e6);
                      3%nat := recv_object (ex_rx 120e6 4e6) ]};
     tx_objects := {[ 1%nat := send_object (ex_tx [(0, 0)]%nat);
                      2%nat := send_object (ex_tx [(0, 1)]%nat);
                      3%nat := send_object (ex_tx [(0, 0); (0, 1); (1, 0)]%nat) ]};
     calls := [] |}.

Definition ex_spec_A_B : subdev_spec_t :=
  [{| db_name := "A"; sd_name := "0" |}; {| db_name := "B"; sd_name := "0" |}].


(** The hardware reports a fault that is no [uhd::io_error] for the group
    made of radio 1 of motherboard 0. *)
Definition ex_dac_fault (radios : list (nat * nat)) (st : x300_impl)
    : option uhd_exception :=
  if decide (radios = [(0%nat, 1%nat)])
  then Some {| ex_class := runtime_error; what := "DAC fault" |}
  else None.

(** The example object after client code dropped all its TX streamers. *)
Definition ex_st_tx_dropped : x300_impl := set_tx_objects (λ _, ∅) ex_st.

(** The write of the DDC mux of radio 1 of motherboard 0 fails on the bus. *)
Definition ex_set_mux_fault (c : call) (st : x300_impl) : option uhd_exception :=
  match c with
  | ddc_set_mux 0 1 _ _ => Some {| ex_class := io_error; what := "register write failed" |}
  | _ => None
  end.

(** * Module loading at start-up

    A shallow embedding of [host/lib/utils/load_modules.cpp].  The functions
    of the file become state-passing functions over a record [process] that
    keeps what the file does to the process: the calls of the native loader,
    the modules it loaded and the lines written to [std::cerr]. *)

From Stdlib Require Import Ascii.

(** ** The file system *)

(** What a [fs::path] leads to, as the queries of the file see it:
    [fs::exists], [fs::is_directory], [fs::is_regular_file], the entries a
    [fs::directory_iterator] yields in its order, each with the path
    [dir_itr->path()], and the lines that successive [std::getline] calls
    read from a [std::ifstream] on a regular file (none when the stream
    cannot be opened).  The file system is a finite tree that stays as it is
    during the traversal, and its queries succeed. *)
#[local] Unset Elimination Schemes.
Inductive dir_entry :=
| missing (path : string)
| regular_file (path : string) (lines : list string)
| other_file (path : string)
| directory (path : string) (entries : list dir_entry).
#[local] Set Elimination Schemes.

(** [path.string()]. *)
Definition path_string (path : dir_entry) : string :=
  match path with
  | missing p | regular_file p _ | other_file p | directory p _ => p
  end.

Definition fs_exists (path : dir_entry) : bool :=
  match path with missing _ => false | _ => true end.

Definition fs_is_directory (path : dir_entry) : bool :=
  match path with directory _ _ => true | _ => false end.

Definition fs_is_regular_file (path : dir_entry) : bool :=
  match path with regular_file _ _ => true | _ => false end.

(** ** The build and its surroundings *)

(** The macro that selects the definition of [load_module]; a build that
    compiles defines one of the three. *)
Inductive loader_macro := HAVE_DLOPEN | HAVE_LOAD_LIBRARY | HAVE_LOAD_MODULES_DUMMY.

Global Instance loader_macro_eq_dec : EqDecision loader_macro.
Proof. solve_decision. Defined.

Inductive load_exception_class := os_error | not_implemented_error | filesystem_error.

(** An exception with its class and the message passed to its constructor. *)
Record load_exception := {
  load_ex_class : load_exception_class;
  load_ex_message : string
}.

(** What the file takes from outside: the macro of the build; whether the
    native loader ([dlopen] or [LoadLibrary]) returns a handle for a file
    name, given the modules loaded before; [what()] of an exception, as the
    constructors of [uhd/exception.hpp] build it from the message; and the
    paths of [uhd/utils/paths.hpp]. *)
Class host := {
  load_macro : loader_macro;
  native_load : list string → string → bool;
  exception_what : load_exception → string;
  get_module_paths : list dir_entry;
  get_module_d_paths : list dir_entry
}.

(** ** The process and its monad *)

Record process := {
  native_calls : list string;
  modules : list string;
  cerr : list string
}.

Inductive completion (A : Type) : Type :=
| completes (a : A)
| raises (e : load_exception).
Arguments completes {A} a.
Arguments raises {A} e.

Definition loading (A : Type) : Type := process → completion A * process.

Global Instance loading_ret : MRet loading := λ A a st, (completes a, st).

Global Instance loading_bind : MBind loading := λ A B k m st,
  match m st with
  | (completes a, st') => k a st'
  | (raises e, st') => (raises e, st')
  end.

Definition raise {A} (e : load_exception) : loading A := λ st, (raises e, st).

(** [try { m } catch (const std::exception &err) { handler err }]: every
    exception class of the file derives from [std::exception]. *)
Definition try_catch {A} (m : loading A) (handler : load_exception → loading A)
    : loading A := λ st,
  match m st with
  | (raises err, st') => handler err st'
  | r => r
  end.

(** A range-based or iterator [for] loop. *)
Definition for_all {A} (body : A → loading unit) : list A → loading unit :=
  fix go (l : list A) : loading unit :=
    match l with
    | [] => mret tt
    | x :: l' => body x;; go l'
    end.

(** [std::cerr << line << std::endl]. *)
Definition cerr_line (line : string) : loading unit := λ st,
  (completes tt,
   {| native_calls := native_calls st; modules := modules st;
      cerr := cerr st ++ [line] |}).

(** A file name between double quotes, for [\"%s\"]. *)
Definition quoted (s : string) : string :=
  String "034"%char (s +:+ String "034"%char EmptyString).

Section load_modules_cpp.
Context `{host}.

(** [dlopen(file_name.c_str(), RTLD_LAZY)] or [LoadLibrary(file_name.c_str())]:
    tells whether the handle is not [NULL]. *)
Definition native_call (file_name : string) : loading bool := λ st,
  let loaded := native_load (modules st) file_name in
  (completes loaded,
   {| native_calls := native_calls st ++ [file_name];
      modules := if loaded then modules st ++ [file_name] else modules st;
      cerr := cerr st |}).

(** ** Module Load Function *)

Definition load_module (file_name : string) : loading unit :=
  match load_macro with
  | HAVE_DLOPEN =>
      loaded ← native_call file_name;
      if negb loaded then
        raise {| load_ex_class := os_error;
                 load_ex_message := "dlopen failed to load " +:+ quoted file_name |}
      else mret tt
  | HAVE_LOAD_LIBRARY =>
      loaded ← native_call file_name;
      if negb loaded then
        raise {| load_ex_class := os_error;
                 load_ex_message := "LoadLibrary failed to load " +:+ quoted file_name |}
      else mret tt
  | HAVE_LOAD_MODULES_DUMMY =>
      raise {| load_ex_class := not_implemented_error;
               load_ex_message :=
                 "Module loading not supported: Cannot load " +:+ quoted file_name |}
  end.

(** ** Load Modules *)

Fixpoint load_module_path (path : dir_entry) : loading unit :=
  if negb (fs_exists path) then mret tt else
  match path with
  | directory _ entries =>
      (* try to load the files in this path *)
      for_all load_module_path entries
  | _ =>
      (* its not a directory, try to load it *)
      try_catch (load_module (path_string path))
        (λ err, cerr_line ("Error: " +:+ exception_what err))
  end.

(** [line.empty() or line[0] == '#']. *)
Definition line_skipped (line : string) : bool :=
  match line with
  | EmptyString => true
  | String c _ => bool_decide (c = "#"%char)
  end.

(** The [while (std::getline(file, line))] loop over the lines of a file. *)
Definition load_listed_modules (lines : list string) : loading unit :=
  for_all (λ line, if line_skipped line then mret tt else load_module line) lines.

(** The constructor of [fs::directory_iterator] throws a
    [fs::filesystem_error] for a path that is no directory. *)
Definition load_module_d_path (path : dir_entry) : loading unit :=
  match path with
  | directory _ entries =>
      for_all (λ dir_itr,
                 if fs_is_regular_file dir_itr then
                   match dir_itr with
                   | regular_file _ lines => load_listed_modules lines
                   | _ => mret tt
                   end
                 else mret tt)
              entries
  | _ => raise {| load_ex_class := filesystem_error;
                  load_ex_message := path_string path |}
  end.

(** [UHD_STATIC_BLOCK(load_modules)]. *)
Definition load_modules : loading unit :=
  for_all load_module_path get_module_paths;;
  for_all (λ path, if fs_is_directory path then load_module_d_path path else mret tt)
          get_module_d_paths.

(** ** Notions used in the statements *)

(** The paths [load_module_path] tries to load: every entry below [path]
    that exists and is no directory, in the order of the traversal. *)
Fixpoint files_of (path : dir_entry) : list string :=
  match path with
  | missing _ => []
  | regular_file p _ | other_file p => [p]
  | directory _ entries => flat_map files_of entries
  end.

(** The module names a directory lists: the lines of the regular files
    directly in it that are not empty and do not start with '#', file by
    file and line by line. *)
Definition listed (path : dir_entry) : list string :=
  match path with
  | directory _ entries =>
      flat_map (λ dir_itr, match dir_itr with
                           | regular_file _ lines =>
                               filter (λ line, line_skipped line = false) lines
                           | _ => []
                           end)
               entries
  | _ => []
  end.

(** The exception [load_module] throws for a file name. *)
Definition load_failure (file_name : string) : load_exception :=
  match load_macro with
  | HAVE_DLOPEN =>
      {| load_ex_class := os_error;
         load_ex_message := "dlopen failed to load " +:+ quoted file_name |}
  | HAVE_LOAD_LIBRARY =>
      {| load_ex_class := os_error;
         load_ex_message := "LoadLibrary failed to load " +:+ quoted file_name |}
  | HAVE_LOAD_MODULES_DUMMY =>
      {| load_ex_class := not_implemented_error;
         load_ex_message :=
           "Module loading not supported: Cannot load " +:+ quoted file_name |}
  end.

(** [files] as the native loader sees them: the dummy [load_module] never
    calls it. *)
Definition native_args (files : list string) : list string :=
  match load_macro with
  | HAVE_LOAD_MODULES_DUMMY => []
  | _ => files
  end.

(** From [st] to [st'] each of [files] was tried once and in order: the
    native loader was called with each, and each either became a loaded
    module or left one line starting with "Error: " on [std::cerr]. *)
Definition attempted (files : list string) (st st' : process) : Prop :=
  native_calls st' = native_calls st ++ native_args files ∧
  ∃ loaded errors,
    modules st' = modules st ++ loaded ∧
    cerr st' = cerr st ++ errors ∧
    sublist loaded files ∧
    (length loaded + length errors = length files)%nat ∧
    Forall (λ line, ∃ text, line = "Error: " +:+ text) errors.

(** The process with [line]s appended to [std::cerr]. *)
Definition with_cerr (lines : list string) (st : process) : process :=
  {| native_calls := native_calls st; modules := modules st;
     cerr := cerr st ++ lines |}.

End load_modules_cpp.

(** ** A module directory tree and two hosts *)

Definition ex_modules_dir : dir_entry :=
  directory "/usr/lib/uhd/modules"
    [regular_file "/usr/lib/uhd/modules/libfoo.so" [];
     missing "/usr/lib/uhd/modules/dangling";
     directory "/usr/lib/uhd/modules/extra"
       [regular_file "/usr/lib/uhd/modules/extra/README" ["text"];
        other_file "/usr/lib/uhd/modules/extra/socket"];
     regular_file "/usr/lib/uhd/modules/libbar.so" []].

Definition ex_modules_d : dir_entry :=
  directory "/etc/uhd/modules.d"
    [regular_file "/etc/uhd/modules.d/10-foo.conf"
       ["# modules of foo"; ""; "/opt/foo/libfoo.so"; " # not a comment"];
     directory "/etc/uhd/modules.d/sub"
       [regular_file "/etc/uhd/modules.d/sub/20-hidden.conf" ["/opt/hidden.so"]];
     regular_file "/etc/uhd/modules.d/30-bar.conf" ["/opt/bar/libbar.so"]].

Definition ex_exception_what (e : load_exception) : string :=
  match load_ex_class e with
  | os_error => "OSError: "
  | not_implemented_error => "NotImplementedError: "
  | filesystem_error => "boost::filesystem: "
  end +:+ load_ex_message e.

(** A host whose [dlopen] loads three shared objects, one of them only after
    another one, and nothing else. *)
Definition ex_host : host :=
  {| load_macro := HAVE_DLOPEN;
     native_load := λ loaded file_name,
       bool_decide (file_name ∈ ["/usr/lib/uhd/modules/libfoo.so";
                                 "/opt/foo/libfoo.so"])
       || (bool_decide (file_name = "/opt/bar/libbar.so")
           && bool_decide ("/opt/foo/libfoo.so" ∈ loaded));
     exception_what := ex_exception_what;
     get_module_paths := [ex_modules_dir];
     get_module_d_paths := [missing "/etc/uhd/none.d"; ex_modules_d] |}.

(** A host built without a loader. *)
Definition ex_dummy_host : host :=
  {| load_macro := HAVE_LOAD_MODULES_DUMMY;
     native_load := λ _ _, false;
     exception_what := ex_exception_what;
     get_module_paths := [ex_modules_dir];
     get_module_d_paths := [ex_modules_d] |}.

Definition ex_process : process :=
  {| native_calls := []; modules := []; cerr := [] |}.
(** ** The member functions *)

Section x300_io_impl.

Set Default Proof Using "Type".

(** [rfnoc::block_id_t(block_id).get_device_no()], from [block_id.hpp]:
    the motherboard number a block id string names, [None] when the
    constructor rejects the string. *)
Variable block_id_device_no : string → option nat.

(** [_mb[mb_i].get_radio_index(slot_name)], from [x300_impl.hpp]: the
    radio that serves a daughterboard slot of motherboard [mb_i]. *)
Variable get_radio_index : nat → string → Z.

(** [validate_subdev_spec], from [validate_subdev_spec.hpp]: the exception
    it throws, [None] when it returns. *)
Variable validate_subdev_spec :
  gmap fs_path property → subdev_spec_t → string → string → option uhd_exception.

(** [set_mux] of the front-end and DSP cores, declared outside this file:
    the exception a mux write throws in this state (a register access that
    fails at the transport or bus level), [None] when it returns. *)
Variable set_mux_throws : call → x300_impl → option uhd_exception.

(** [x300_impl::synchronize_dacs], defined in another file: the exception
    the hardware routine throws for this group in this state, [None] when
    it returns. *)
Variable synchronize_dacs_throws : list radio_ptr → x300_impl → option uhd_exception.

(** Which of the platform macros of [uhd/config.hpp] are defined. *)
Variables UHD_PLATFORM_MACOS UHD_PLATFORM_BSD
          UHD_PLATFORM_LINUX UHD_PLATFORM_WIN32 : bool.

(** Buffer size constants of [x300_impl.hpp]. *)
Variables X300_RX_SW_BUFF_SIZE_ETH X300_RX_SW_BUFF_SIZE_ETH_MACOS : N.

Definition block_id_get_device_no (block_id : string) : M nat :=
  match block_id_device_no block_id with
  | Some d => mret d
  | None => throw {| ex_class := value_error;
                     what := "block_id_t: Invalid block ID: " +:+ block_id |}
  end.

(** The body of the loop over [_rx_streamers.keys()]. *)
Definition update_tick_rate_rx (mb_index : nat) (block_id : string) : M unit :=
  d ← block_id_get_device_no block_id;
  if decide (d ≠ mb_index) then mret tt else
  p ← rx_streamers_index block_id;
  my_streamer ← lock_recv p;
  match my_streamer with
  | Some h =>
      s ← deref_recv h;
      let tick_rate := get_tick_rate (rx_get_terminator s) in
      let samp_rate := get_output_samp_rate (rx_get_terminator s) in
      recv_set_tick_rate h tick_rate;;
      recv_set_samp_rate h samp_rate
  | None => mret tt
  end.

(** The body of the loop over [_tx_streamers.keys()]. *)
Definition update_tick_rate_tx (mb_index : nat) (rate : double)
    (block_id : string) : M unit :=
  d ← block_id_get_device_no block_id;
  if decide (d ≠ mb_index) then mret tt else
  p ← tx_streamers_index block_id;
  my_streamer ← lock_send p;
  match my_streamer with
  | Some h =>
      send_set_tick_rate h rate;;
      send_set_samp_rate h rate
  | None => mret tt
  end.

Definition update_tick_rate (mb_index : nat) (rate : double) : M unit :=
  st ← get;
  for_each (dict_keys (_rx_streamers st)) (update_tick_rate_rx mb_index);;
  st ← get;
  for_each (dict_keys (_tx_streamers st)) (update_tick_rate_tx mb_index rate).

(** [str(boost::format("Radio_%d") % dspno)]. *)
Definition radio_block_id (dspno : nat) : string := "Radio_" +:+ pretty dspno.

Definition update_rx_samp_rate (mb : mboard_members_t) (dspno : nat)
    (rate : double) : M unit :=
  st ← get;
  if negb (dict_has_key (_rx_streamers st) (radio_block_id dspno)) then mret tt else
  p ← rx_streamers_index (radio_block_id dspno);
  my_streamer ← lock_recv p;
  match my_streamer with
  | None => mret tt
  | Some h =>
      recv_set_samp_rate h rate;;
      perif ← at_index (radio_perifs mb) dspno;
      let adj := ddc_scaling_adjustment perif in
      recv_set_scale_factor h adj
  end.

Definition update_tx_samp_rate (mb : mboard_members_t) (dspno : nat)
    (rate : double) : M unit :=
  st ← get;
  if negb (dict_has_key (_tx_streamers st) (radio_block_id dspno)) then mret tt else
  p ← tx_streamers_index (radio_block_id dspno);
  my_streamer ← lock_send p;
  match my_streamer with
  | None => mret tt
  | Some h =>
      send_set_samp_rate h rate;;
      perif ← at_index (radio_perifs mb) dspno;
      let adj := duc_scaling_adjustment perif in
      send_set_scale_factor h adj
  end.

(** [conn == "QI" or conn == "Q"]. *)
Definition fe_swapped_of (conn : string) : bool :=
  bool_decide (conn = "QI") || bool_decide (conn = "Q").

(** [mb_root / "dboards" / db / (tx_rx + "_frontends") / sd / "connection"]. *)
Definition connection_path (mb_root : fs_path) (tx_rx : string)
    (p : subdev_spec_pair_t) : fs_path :=
  mb_root ++ ["dboards"; db_name p; tx_rx +:+ "_frontends"; sd_name p; "connection"].

(** Modelled from the spec: the front-end and DSP cores are declared outside
    this file; their [set_mux] programs the mux with the values it is given,
    or fails and lets its error out.
    A call on a member of [_mb[mb_i].radio_perifs[radio_idx]]: both indexings
    must be in range and the call is recorded; when it returns its effect
    [f] is stored, when it throws the exception propagates and the mux is
    taken to hold what it held. *)
Definition program_radio (mb_i : nat) (radio_idx : Z)
    (f : radio_perifs_t → radio_perifs_t) (c : nat → nat → call) : M unit :=
  st ← get;
  mb ← at_index (_mb st) mb_i;
  if decide (0 ≤ radio_idx)%Z then
    let r := Z.to_nat radio_idx in
    perif ← at_index (radio_perifs mb) r;
    match set_mux_throws (c mb_i r) st with
    | None =>
        modify (λ st, log_call (c mb_i r)
          (set_mb <[mb_i := with_radio_perifs (<[r := f perif]> (radio_perifs mb)) mb]> st))
    | Some ex => modify (log_call (c mb_i r));; throw ex
    end
  else undefined.

(** The body of the loop over [i], with the local vector
    [chan_to_dsp_map] passed along. *)
Definition setup_mux_entry (tx_rx : string) (mb_i : nat) (mb_root : fs_path)
    (spec : subdev_spec_t) (i : nat) (chan_to_dsp_map : list Z) : M (list Z) :=
  p ← at_index spec i;
  st ← get;
  _ ← at_index (_mb st) mb_i;
  let radio_idx := to_int (get_radio_index mb_i (db_name p)) in
  let chan_to_dsp_map := <[i := to_size_t radio_idx]> chan_to_dsp_map in
  conn ← tree_get_string (connection_path mb_root tx_rx p);
  (if decide (tx_rx = "tx") then
     program_radio mb_i radio_idx (with_tx_fe_mux conn)
                   (λ m r, tx_fe_set_mux m r conn)
   else
     let fe_swapped := fe_swapped_of conn in
     program_radio mb_i radio_idx (with_ddc_mux conn fe_swapped)
                   (λ m r, ddc_set_mux m r conn fe_swapped);;
     program_radio mb_i radio_idx (with_rx_fe_mux fe_swapped)
                   (λ m r, rx_fe_set_mux m r fe_swapped));;
  mret chan_to_dsp_map.

Fixpoint setup_mux (tx_rx : string) (mb_i : nat) (mb_root : fs_path)
    (spec : subdev_spec_t) (indices : list nat) (chan_to_dsp_map : list Z)
    : M (list Z) :=
  match indices with
  | [] => mret chan_to_dsp_map
  | i :: indices' =>
      chan_to_dsp_map ← setup_mux_entry tx_rx mb_i mb_root spec i chan_to_dsp_map;
      setup_mux tx_rx mb_i mb_root spec indices' chan_to_dsp_map
  end.

Definition call_validate_subdev_spec (spec : subdev_spec_t) (tx_rx mb_name : string)
    : M unit := λ st,
  match validate_subdev_spec (_tree st) spec tx_rx mb_name with
  | None => (returns tt, st)
  | Some ex => (throws ex, st)
  end.

(** The checks on the daughterboard names, by [spec.size()]. *)
Definition check_db_names (spec : subdev_spec_t) : M unit :=
  if decide (length spec = 1)%nat then
    a ← at_index spec 0;
    UHD_ASSERT_THROW "spec[0].db_name == A || spec[0].db_name == B"
      (bool_decide (db_name a = "A") || bool_decide (db_name a = "B"))
  else if decide (length spec = 2)%nat then
    a ← at_index spec 0;
    b ← at_index spec 1;
    UHD_ASSERT_THROW "(A && B) || (B && A)"
      ((bool_decide (db_name a = "A") && bool_decide (db_name b = "B"))
       || (bool_decide (db_name a = "B") && bool_decide (db_name b = "A")))
  else mret tt.

Definition update_subdev_spec (tx_rx : string) (mb_i : nat) (spec : subdev_spec_t)
    : M unit :=
  UHD_ASSERT_THROW "tx_rx == tx or tx_rx == rx"
    (bool_decide (tx_rx = "tx") || bool_decide (tx_rx = "rx"));;
  st ← get;
  UHD_ASSERT_THROW "mb_i < _mb.size()" (bool_decide (mb_i < length (_mb st))%nat);;
  let mb_name := pretty mb_i in
  let mb_root := ["mboards"; mb_name] in
  call_validate_subdev_spec spec tx_rx mb_name;;
  UHD_ASSERT_THROW "spec.size() <= 2" (bool_decide (length spec ≤ 2)%nat);;
  check_db_names spec;;
  chan_to_dsp_map ←
    setup_mux tx_rx mb_i mb_root spec (seq 0 (length spec))
              (replicate (length spec) 0%Z);
  tree_set_size_vector (mb_root ++ [tx_rx +:+ "_chan_dsp_mapping"]) chan_to_dsp_map.

Definition get_rx_hints (mb_index : nat) : M device_addr_t :=
  st ← get;
  mb ← at_index (_mb st) mb_index;
  let rx_hints := recv_args mb in
  if negb (dict_has_key rx_hints "recv_buff_size") then
    if decide (xport_path mb ≠ "nirio") then
      if UHD_PLATFORM_MACOS || UHD_PLATFORM_BSD then
        mret (dict_set rx_hints "recv_buff_size" (pretty X300_RX_SW_BUFF_SIZE_ETH_MACOS))
      else if UHD_PLATFORM_LINUX || UHD_PLATFORM_WIN32 then
        mret (dict_set rx_hints "recv_buff_size" (pretty X300_RX_SW_BUFF_SIZE_ETH))
      else mret rx_hints
    else mret rx_hints
  else mret rx_hints.

Definition get_tx_hints (mb_index : nat) : M device_addr_t :=
  st ← get;
  mb ← at_index (_mb st) mb_index;
  mret (send_args mb).

(** [synchronize_dacs(radios)]. *)
Definition call_synchronize_dacs (radios : list radio_ptr) : M unit := λ st,
  match synchronize_dacs_throws radios st with
  | None => (returns tt, log_call (synchronize_dacs radios) st)
  | Some ex => (throws ex, log_call (synchronize_dacs radios) st)
  end.

(** The loop over [radio_ctrl_blks] that fills [radios]. *)
Fixpoint collect_radios (radio_ctrl_blks : list block_id_t) (radios : list radio_ptr)
    : M (list radio_ptr) :=
  match radio_ctrl_blks with
  | [] => mret radios
  | radio_blk :: blks =>
      st ← get;
      mb ← at_index (_mb st) (get_device_no radio_blk);
      _ ← at_index (radio_perifs mb) (get_block_count radio_blk);
      collect_radios blks
        (radios ++ [(get_device_no radio_blk, get_block_count radio_blk)])
  end.

Definition sync_streamer (streamer_w : weak_ptr) : M unit :=
  streamer ← lock_send streamer_w;
  match streamer with
  | None => mret tt
  | Some h =>
      s ← deref_send h;
      let radio_ctrl_blks := find_downstream_radio_ctrl (tx_get_terminator s) in
      radios ← collect_radios radio_ctrl_blks [];
      try_catch_io_error (call_synchronize_dacs radios)
        (λ ex, throw {| ex_class := io_error;
                        what := "Failed to sync DACs! " +:+ what ex +:+ " " |})
  end.

Definition post_streamer_hooks (is_tx : bool) : M unit :=
  if negb is_tx then mret tt else
  st ← get;
  for_each (dict_vals (_tx_streamers st)) sync_streamer.

(** ** Notions used in the statements *)

(** What the RX loop of [update_tick_rate] stores in a streamer: the two
    values its terminator reports. *)
Definition refresh_rx (s : recv_packet_streamer) : recv_packet_streamer :=
  {| rx_tick_rate := get_tick_rate (rx_get_terminator s);
     rx_samp_rate := get_output_samp_rate (rx_get_terminator s);
     rx_scale_factor := rx_scale_factor s;
     rx_get_terminator := rx_get_terminator s |}.

(** What the TX loop stores. *)
Definition apply_rate (rate : double) (s : send_packet_streamer) : send_packet_streamer :=
  {| tx_tick_rate := rate; tx_samp_rate := rate;
     tx_scale_factor := tx_scale_factor s;
     tx_get_terminator := tx_get_terminator s |}.

(** The address a registry key leads to when the key belongs to
    motherboard [mb_index]. *)
Definition tick_rate_target (reg : dict weak_ptr) (mb_index : nat)
    (block_id : string) : option nat :=
  d ← block_id_device_no block_id;
  if decide (d = mb_index) then p ← dict_get reg block_id; p else None.

(** One pass of in-place updates [F] over the addresses [tgt] selects. *)
Definition alter_targets {V} (F : V → V) (tgt : string → option nat)
    (m : gmap nat V) (keys : list string) : gmap nat V :=
  foldl (λ m k, match tgt k with Some h => alter F h m | None => m end) m keys.

(** The packet streamer a registry key resolves to: the key is present,
    its weak pointer locks and the cast succeeds. *)
Definition resolve_recv (st : x300_impl) (block_id : string) : option nat :=
  p ← dict_get (_rx_streamers st) block_id;
  h ← p;
  match rx_objects st !! h with
  | Some (recv_object _) => Some h
  | _ => None
  end.

Definition resolve_send (st : x300_impl) (block_id : string) : option nat :=
  p ← dict_get (_tx_streamers st) block_id;
  h ← p;
  match tx_objects st !! h with
  | Some (send_object _) => Some h
  | _ => None
  end.

(** The number of radio slots of motherboard [mb_i]. *)
Definition radio_count (st : x300_impl) (mb_i : nat) : option nat :=
  mb ← _mb st !! mb_i; Some (length (radio_perifs mb)).

(** [radio_idx] of a spec entry. *)
Definition radio_idx_of (mb_i : nat) (p : subdev_spec_pair_t) : Z :=
  to_int (get_radio_index mb_i (db_name p)).

(** The mux calls of one loop iteration. *)
Definition mux_calls (tx_rx : string) (mb_i : nat) (radio_idx : Z) (conn : string)
    : list call :=
  if decide (tx_rx = "tx") then [tx_fe_set_mux mb_i (Z.to_nat radio_idx) conn]
  else [ddc_set_mux mb_i (Z.to_nat radio_idx) conn (fe_swapped_of conn);
        rx_fe_set_mux mb_i (Z.to_nat radio_idx) (fe_swapped_of conn)].

(** The connection string the tree holds for a spec entry. *)
Definition connection_of (tree : gmap fs_path property) (mb_root : fs_path)
    (tx_rx : string) (p : subdev_spec_pair_t) : option string :=
  match tree !! connection_path mb_root tx_rx p with
  | Some (prop_string conn) => Some conn
  | _ => None
  end.

(** What iteration [i] needs to go through: the entry, its connection in
    the tree and a radio index inside the [cnt] slots of the motherboard. *)
Definition entry_route (tree : gmap fs_path property) (cnt : option nat)
    (tx_rx : string) (mb_i : nat) (mb_root : fs_path) (spec : subdev_spec_t)
    (i : nat) : option (Z * string) :=
  p ← spec !! i;
  n ← cnt;
  conn ← connection_of tree mb_root tx_rx p;
  if decide (0 ≤ radio_idx_of mb_i p < Z.of_nat n)%Z
  then Some (radio_idx_of mb_i p, conn) else None.

(** The iterations that go through before the first one that does not. *)
Fixpoint served (route : nat → option (Z * string)) (indices : list nat)
    : list (nat * (Z * string)) :=
  match indices with
  | [] => []
  | i :: indices' =>
      match route i with
      | Some r => (i, r) :: served route indices'
      | None => []
      end
  end.

(** The first check of [update_subdev_spec] that fails, with the exception
    it throws. *)
Definition precheck (tx_rx : string) (mb_i : nat) (spec : subdev_spec_t)
    (st : x300_impl) : option uhd_exception :=
  if negb (bool_decide (tx_rx = "tx") || bool_decide (tx_rx = "rx")) then
    Some {| ex_class := assertion_error; what := "tx_rx == tx or tx_rx == rx" |}
  else if negb (bool_decide (mb_i < length (_mb st))%nat) then
    Some {| ex_class := assertion_error; what := "mb_i < _mb.size()" |}
  else match validate_subdev_spec (_tree st) spec tx_rx (pretty mb_i) with
  | Some ex => Some ex
  | None =>
      match spec with
      | [] => None
      | [a] =>
          if bool_decide (db_name a = "A") || bool_decide (db_name a = "B") then None
          else Some {| ex_class := assertion_error;
                       what := "spec[0].db_name == A || spec[0].db_name == B" |}
      | [a; b] =>
          if (bool_decide (db_name a = "A") && bool_decide (db_name b = "B"))
             || (bool_decide (db_name a = "B") && bool_decide (db_name b = "A"))
          then None
          else Some {| ex_class := assertion_error; what := "(A && B) || (B && A)" |}
      | _ => Some {| ex_class := assertion_error; what := "spec.size() <= 2" |}
      end
  end.

(** [mb_root / (tx_rx + "_chan_dsp_mapping")]. *)
Definition mapping_path (tx_rx : string) (mb_i : nat) : list string :=
  ["mboards"; pretty mb_i; tx_rx +:+ "_chan_dsp_mapping"].

(** The iterations of the loop of [update_subdev_spec] that go through, each
    with its radio index and connection. *)
Definition spec_served (st : x300_impl) (tx_rx : string) (mb_i : nat)
    (spec : subdev_spec_t) : list (nat * (Z * string)) :=
  served (entry_route (_tree st) (radio_count st mb_i) tx_rx mb_i
            ["mboards"; pretty mb_i] spec)
         (seq 0 (length spec)).

(** The radios downstream of a TX streamer, as [sync_streamer] collects
    them. *)
Definition group_of (s : send_packet_streamer) : list (nat * nat) :=
  map (λ radio_blk, (get_device_no radio_blk, get_block_count radio_blk))
      (find_downstream_radio_ctrl (tx_get_terminator s)).

(** [_mb[r.1].radio_perifs[r.2]] exists. *)
Definition radio_exists (st : x300_impl) (r : nat * nat) : bool :=
  match _mb st !! r.1 with
  | Some mb => bool_decide (r.2 < length (radio_perifs mb))%nat
  | None => false
  end.

(** The live TX streamer behind a weak pointer. *)
Definition live_send (st : x300_impl) (streamer_w : weak_ptr)
    : option send_packet_streamer :=
  h ← streamer_w;
  match tx_objects st !! h with
  | Some (send_object s) => Some s
  | _ => None
  end.

(** The groups of the live TX endpoints, in registry order. *)
Definition sync_groups (st : x300_impl) : list (list (nat * nat)) :=
  omap (λ streamer_w, group_of <$> live_send st streamer_w)
       (dict_vals (_tx_streamers st)).

(** The object with [l] appended to the recorded calls. *)
Definition log_calls (l : list call) (st : x300_impl) : x300_impl :=
  {| _mb := _mb st; _tree := _tree st;
     _rx_streamers := _rx_streamers st; _tx_streamers := _tx_streamers st;
     rx_objects := rx_objects st; tx_objects := tx_objects st;
     calls := calls st ++ l |}.

(** The exception [sync_streamer] lets out when [synchronize_dacs] throws
    [ex]. *)
Definition sync_failure (ex : uhd_exception) : uhd_exception :=
  if decide (ex_class ex = io_error)
  then {| ex_class := io_error; what := "Failed to sync DACs! " +:+ what ex +:+ " " |}
  else ex.

(** Drops from a proof context the collaborators its goal does not mention. *)
Ltac only_mentioned :=
  try clear block_id_device_no; try clear get_radio_index;
  try clear validate_subdev_spec; try clear set_mux_throws;
  try clear synchronize_dacs_throws;
  try clear UHD_PLATFORM_MACOS; try clear UHD_PLATFORM_BSD;
  try clear UHD_PLATFORM_LINUX; try clear UHD_PLATFORM_WIN32;
  try clear X300_RX_SW_BUFF_SIZE_ETH; try clear X300_RX_SW_BUFF_SIZE_ETH_MACOS.

(** ** Notions used in the further statements *)

(** [p'] is [p] except for the mux fields a call in direction [tx_rx] may
    program. *)
Definition mux_only (tx_rx : string) (p p' : radio_perifs_t) : Prop :=
  ddc_scaling_adjustment p' = ddc_scaling_adjustment p ∧
  duc_scaling_adjustment p' = duc_scaling_adjustment p ∧
  if decide (tx_rx = "tx")
  then ddc_mux p' = ddc_mux p ∧ rx_fe_mux p' = rx_fe_mux p
  else tx_fe_mux p' = tx_fe_mux p.

Definition mboard_mux_only (tx_rx : string) (mb mb' : mboard_members_t) : Prop :=
  recv_args mb' = recv_args mb ∧ send_args mb' = send_args mb ∧
  xport_path mb' = xport_path mb ∧
  Forall2 (mux_only tx_rx) (radio_perifs mb) (radio_perifs mb').

(** [st'] is [st] except for the tree, the recorded calls and the mux fields
    of motherboard [mb_i]. *)
Definition mux_frame (tx_rx : string) (mb_i : nat) (st st' : x300_impl) : Prop :=
  _rx_streamers st' = _rx_streamers st ∧ _tx_streamers st' = _tx_streamers st ∧
  rx_objects st' = rx_objects st ∧ tx_objects st' = tx_objects st ∧
  length (_mb st') = length (_mb st) ∧
  (∀ j, j ≠ mb_i → _mb st' !! j = _mb st !! j) ∧
  (∀ mb, _mb st !! mb_i = Some mb →
         ∃ mb', _mb st' !! mb_i = Some mb' ∧ mboard_mux_only tx_rx mb mb').


(** The first mux call of a loop iteration. *)
Definition first_mux_call (tx_rx : string) (mb_i : nat) (radio_idx : Z)
    (conn : string) : call :=
  if decide (tx_rx = "tx") then tx_fe_set_mux mb_i (Z.to_nat radio_idx) conn
  else ddc_set_mux mb_i (Z.to_nat radio_idx) conn (fe_swapped_of conn).

(** ** Reasoning about the monad *)

Lemma set_rx_streamers_id st : set_rx_streamers (_rx_streamers st) st = st.
Proof. by destruct st. Qed.

Lemma set_tx_streamers_id st : set_tx_streamers (_tx_streamers st) st = st.
Proof. by destruct st. Qed.

Lemma set_rx_objects_ext f g st :
  f (rx_objects st) = g (rx_objects st) → set_rx_objects f st = set_rx_objects g st.
Proof. unfold set_rx_objects. by intros ->. Qed.

Lemma set_tx_objects_ext f g st :
  f (tx_objects st) = g (tx_objects st) → set_tx_objects f st = set_tx_objects g st.
Proof. unfold set_tx_objects. by intros ->. Qed.

Lemma set_rx_objects_id st : set_rx_objects id st = st.
Proof. by destruct st. Qed.

Lemma set_tx_objects_id st : set_tx_objects id st = st.
Proof. by destruct st. Qed.

Lemma bind_returns {A B} (m : M A) (k : A → M B) st a st' :
  m st = (returns a, st') → (m ≫= k) st = k a st'.
Proof. unfold mbind, M_bind. by intros ->. Qed.

Lemma bind_mret {A B} (a : A) (k : A → M B) st : (mret a ≫= k) st = k a st.
Proof. done. Qed.

Lemma bind_get {B} (k : x300_impl → M B) st : (get ≫= k) st = k st st.
Proof. done. Qed.

Lemma bind_undefined_l {A B} (k : A → M B) st :
  (undefined ≫= k) st = (undefined_behaviour, st).
Proof. done. Qed.

Lemma bind_not_returns {A B} (m : M A) (k : A → M B) st o st' :
  m st = (o, st') → (∀ a, o ≠ returns a) →
  ∃ o', (m ≫= k) st = (o', st') ∧ ∀ b, o' ≠ returns b.
Proof.
  intros Hm Ho. unfold mbind, M_bind. rewrite Hm.
  destruct o as [a|e|]; [by destruct (Ho a)|by eexists..].
Qed.

Lemma outcome_returns_dec (o : outcome unit) : {o = returns tt} + {o ≠ returns tt}.
Proof. destruct o as [[]|e|]; [by left|by right..]. Qed.

Lemma at_index_Some {A} (l : list A) i x : l !! i = Some x → at_index l i = mret x.
Proof. unfold at_index. by intros ->. Qed.

Lemma at_index_None {A} (l : list A) i : l !! i = None → at_index l i = undefined.
Proof. unfold at_index. by intros ->. Qed.

Lemma for_each_app {A} (l1 l2 : list A) body st :
  for_each (l1 ++ l2) body st =
  match for_each l1 body st with
  | (returns _, st') => for_each l2 body st'
  | (throws e, st') => (throws e, st')
  | (undefined_behaviour, st') => (undefined_behaviour, st')
  end.
Proof.
  revert st. induction l1 as [|x l1 IH]; intros st; simpl; [done|].
  unfold mbind, M_bind. destruct (body x st) as [[[]|e|] st1]; [apply IH|done..].
Qed.

(** ** The dictionary *)

Lemma dict_get_is_Some {V} (d : dict V) k : k ∈ dict_keys d ↔ is_Some (dict_get d k).
Proof.
  unfold dict_keys. induction d as [|[k' v] d IH]; simpl.
  - split; [by intros ?%elem_of_nil | by intros [? ?]].
  - rewrite elem_of_cons. case_decide; subst; [split; eauto|].
    rewrite <-IH. split; [|by right]. intros [?|?]; [congruence|done].
Qed.

Lemma dict_index_present {V} (dflt : V) d k v :
  dict_get d k = Some v → dict_index dflt d k = (v, d).
Proof. unfold dict_index. by intros ->. Qed.

Lemma dict_has_key_true {V} (d : dict V) k :
  dict_has_key d k = true ↔ is_Some (dict_get d k).
Proof. unfold dict_has_key. by rewrite bool_decide_eq_true. Qed.

Lemma dict_has_key_false {V} (d : dict V) k :
  dict_has_key d k = false ↔ dict_get d k = None.
Proof.
  unfold dict_has_key. by rewrite bool_decide_eq_false, eq_None_not_Some.
Qed.

Lemma dict_set_absent {V} (d : dict V) k v :
  dict_get d k = None → dict_set d k v = d ++ [(k, v)].
Proof.
  induction d as [|[k' v'] d IH]; simpl; [done|].
  case_decide; [done|]. intros Hd. by rewrite IH.
Qed.

Lemma dict_get_app {V} (d1 d2 : dict V) k :
  dict_get (d1 ++ d2) k
  = match dict_get d1 k with Some v => Some v | None => dict_get d2 k end.
Proof.
  only_mentioned.
  induction d1 as [|[k' v'] d1 IH]; simpl; [done|]. by case_decide.
Qed.

(** ** [update_tick_rate] *)

Lemma alter_targets_lookup {V} (F : V → V) tgt (m : gmap nat V) keys h :
  (∀ x, F (F x) = F x) →
  alter_targets F tgt m keys !! h =
  if bool_decide (Exists (λ k, tgt k = Some h) keys) then F <$> m !! h else m !! h.
Proof.
  only_mentioned.
  intros Hidem. unfold alter_targets. revert m.
  induction keys as [|k keys IH]; intros m; simpl.
  - done.
  - rewrite IH. destruct (tgt k) as [h'|] eqn:Hk.
    + destruct (decide (h' = h)) as [->|Hne].
      * rewrite lookup_alter_eq.
        rewrite (bool_decide_eq_true_2 (Exists _ (k :: keys))); [|by left].
        case_bool_decide; [|done].
        destruct (m !! h); simpl; [by rewrite Hidem|done].
      * rewrite lookup_alter_ne by done.
        rewrite (bool_decide_ext (Exists _ (k :: keys))
                   (Exists (λ k, tgt k = Some h) keys)); [done|].
        rewrite Exists_cons. split; [|tauto]. intros [?|?]; [congruence|done].
    + rewrite (bool_decide_ext (Exists _ (k :: keys))
                 (Exists (λ k, tgt k = Some h) keys)); [done|].
      rewrite Exists_cons. split; [|tauto]. intros [?|?]; [congruence|done].
Qed.

Lemma update_tick_rate_rx_step mb_index block_id st :
  is_Some (block_id_device_no block_id) →
  is_Some (dict_get (_rx_streamers st) block_id) →
  update_tick_rate_rx mb_index block_id st =
  (returns tt,
   match tick_rate_target (_rx_streamers st) mb_index block_id with
   | Some h => set_rx_objects (alter (on_recv refresh_rx) h) st
   | None => st
   end).
Proof.
  intros [d Hd] [p Hp].
  unfold update_tick_rate_rx, tick_rate_target, block_id_get_device_no.
  rewrite Hd, Hp. simpl.
  destruct (decide (d = mb_index)) as [->|Hne].
  - unfold mbind, M_bind, mret, M_ret. cbn beta iota.
    rewrite decide_False by (intros ?; congruence).
    unfold rx_streamers_index.
    rewrite (dict_index_present _ _ _ _ Hp), set_rx_streamers_id.
    unfold lock_recv. cbn beta iota.
    destruct p as [h|]; simpl; [|done].
    unfold deref_recv.
    destruct (rx_objects st !! h) as [[s|]|] eqn:Hh; cbn beta iota.
    + unfold recv_set_tick_rate, recv_set_samp_rate, modify. cbn beta iota.
      rewrite Hh. f_equal. unfold set_rx_objects; simpl. f_equal.
      apply map_eq; intros h'. destruct (decide (h = h')) as [<-|?].
      * by rewrite !lookup_alter_eq, Hh.
      * by rewrite !lookup_alter_ne.
    + f_equal. rewrite <-(set_rx_objects_id st) at 1.
      apply set_rx_objects_ext, map_eq; intros h'.
      destruct (decide (h = h')) as [<-|?].
      * by rewrite lookup_alter_eq, Hh.
      * by rewrite lookup_alter_ne.
    + f_equal. rewrite <-(set_rx_objects_id st) at 1.
      apply set_rx_objects_ext, map_eq; intros h'.
      destruct (decide (h = h')) as [<-|?].
      * by rewrite lookup_alter_eq, Hh.
      * by rewrite lookup_alter_ne.
  - unfold mbind, M_bind, mret, M_ret. cbn beta iota.
    by rewrite decide_True.
Qed.

Lemma update_tick_rate_tx_step mb_index rate block_id st :
  is_Some (block_id_device_no block_id) →
  is_Some (dict_get (_tx_streamers st) block_id) →
  update_tick_rate_tx mb_index rate block_id st =
  (returns tt,
   match tick_rate_target (_tx_streamers st) mb_index block_id with
   | Some h => set_tx_objects (alter (on_send (apply_rate rate)) h) st
   | None => st
   end).
Proof.
  intros [d Hd] [p Hp].
  unfold update_tick_rate_tx, tick_rate_target, block_id_get_device_no.
  rewrite Hd, Hp. simpl.
  destruct (decide (d = mb_index)) as [->|Hne].
  - unfold mbind, M_bind, mret, M_ret. cbn beta iota.
    rewrite decide_False by (intros ?; congruence).
    unfold tx_streamers_index.
    rewrite (dict_index_present _ _ _ _ Hp), set_tx_streamers_id.
    unfold lock_send. cbn beta iota.
    destruct p as [h|]; simpl; [|done].
    destruct (tx_objects st !! h) as [[s|]|] eqn:Hh; cbn beta iota.
    + unfold send_set_tick_rate, send_set_samp_rate, modify. cbn beta iota.
      f_equal. unfold set_tx_objects; simpl. f_equal.
      apply map_eq; intros h'. destruct (decide (h = h')) as [<-|?].
      * by rewrite !lookup_alter_eq, Hh.
      * by rewrite !lookup_alter_ne.
    + f_equal. rewrite <-(set_tx_objects_id st) at 1.
      apply set_tx_objects_ext, map_eq; intros h'.
      destruct (decide (h = h')) as [<-|?].
      * by rewrite lookup_alter_eq, Hh.
      * by rewrite lookup_alter_ne.
    + f_equal. rewrite <-(set_tx_objects_id st) at 1.
      apply set_tx_objects_ext, map_eq; intros h'.
      destruct (decide (h = h')) as [<-|?].
      * by rewrite lookup_alter_eq, Hh.
      * by rewrite lookup_alter_ne.
  - unfold mbind, M_bind, mret, M_ret. cbn beta iota.
    by rewrite decide_True.
Qed.

Lemma update_tick_rate_rx_loop mb_index keys reg st :
  _rx_streamers st = reg →
  Forall (λ k, is_Some (block_id_device_no k)) keys →
  Forall (λ k, is_Some (dict_get reg k)) keys →
  for_each keys (update_tick_rate_rx mb_index) st =
  (returns tt,
   set_rx_objects (λ m, alter_targets (on_recv refresh_rx)
                          (tick_rate_target reg mb_index) m keys) st).
Proof.
  intros Hreg Hdev Hkeys. revert st Hreg.
  induction keys as [|k keys IH]; intros st Hreg; simpl.
  - by rewrite <-(set_rx_objects_id st) at 1.
  - apply Forall_cons in Hdev as [Hk Hdev].
    apply Forall_cons in Hkeys as [Hk' Hkeys].
    erewrite bind_returns;
      [|apply update_tick_rate_rx_step; [done|by rewrite Hreg]].
    rewrite Hreg.
    destruct (tick_rate_target reg mb_index k) as [h|]; [|by apply IH].
    rewrite IH by done. done.
Qed.

Lemma update_tick_rate_tx_loop mb_index rate keys reg st :
  _tx_streamers st = reg →
  Forall (λ k, is_Some (block_id_device_no k)) keys →
  Forall (λ k, is_Some (dict_get reg k)) keys →
  for_each keys (update_tick_rate_tx mb_index rate) st =
  (returns tt,
   set_tx_objects (λ m, alter_targets (on_send (apply_rate rate))
                          (tick_rate_target reg mb_index) m keys) st).
Proof.
  intros Hreg Hdev Hkeys. revert st Hreg.
  induction keys as [|k keys IH]; intros st Hreg; simpl.
  - by rewrite <-(set_tx_objects_id st) at 1.
  - apply Forall_cons in Hdev as [Hk Hdev].
    apply Forall_cons in Hkeys as [Hk' Hkeys].
    erewrite bind_returns;
      [|apply update_tick_rate_tx_step; [done|by rewrite Hreg]].
    rewrite Hreg.
    destruct (tick_rate_target reg mb_index k) as [h|]; [|by apply IH].
    rewrite IH by done. done.
Qed.

Lemma dict_keys_present {V} (d : dict V) :
  Forall (λ k, is_Some (dict_get d k)) (dict_keys d).
Proof. apply Forall_forall. intros k. apply dict_get_is_Some. Qed.

(** The whole call, when every registry key is a block id. *)
Lemma update_tick_rate_run mb_index rate st :
  Forall (λ k, is_Some (block_id_device_no k)) (dict_keys (_rx_streamers st)) →
  Forall (λ k, is_Some (block_id_device_no k)) (dict_keys (_tx_streamers st)) →
  update_tick_rate mb_index rate st =
  (returns tt,
   set_tx_objects
     (λ m, alter_targets (on_send (apply_rate rate))
             (tick_rate_target (_tx_streamers st) mb_index) m
             (dict_keys (_tx_streamers st)))
     (set_rx_objects
        (λ m, alter_targets (on_recv refresh_rx)
                (tick_rate_target (_rx_streamers st) mb_index) m
                (dict_keys (_rx_streamers st)))
        st)).
Proof.
  intros Hrx Htx. unfold update_tick_rate.
  unfold mbind at 1 2, M_bind, get. cbn beta iota.
  rewrite (update_tick_rate_rx_loop _ _ (_rx_streamers st));
    [|done|done|apply dict_keys_present].
  unfold mbind, M_bind. cbn beta iota.
  apply update_tick_rate_tx_loop; [done|done|apply dict_keys_present].
Qed.

Lemma on_recv_refresh_idem o :
  on_recv refresh_rx (on_recv refresh_rx o) = on_recv refresh_rx o.
Proof. by destruct o. Qed.

Lemma on_send_apply_rate_idem rate o :
  on_send (apply_rate rate) (on_send (apply_rate rate) o) = on_send (apply_rate rate) o.
Proof. by destruct o. Qed.

Lemma tick_rate_target_Some reg mb_index block_id h :
  tick_rate_target reg mb_index block_id = Some h ↔
  block_id_device_no block_id = Some mb_index ∧ dict_get reg block_id = Some (Some h).
Proof.
  unfold tick_rate_target.
  destruct (block_id_device_no block_id) as [d|]; simpl;
    [|split; [done|by intros [? _]]].
  case_decide; subst; [|split; [done|intros [? _]; congruence]].
  destruct (dict_get reg block_id) as [[h'|]|]; simpl;
    (split; [intros ?|intros [_ ?]]; by simplify_eq).
Qed.

(** C2: after [update_tick_rate mb_index rate], every RX streamer that a
    registry key of motherboard [mb_index] resolves to holds, as tick rate
    and sample rate, the values the endpoint itself reported before the call
    (through its terminator), not [rate]; every TX streamer so resolved
    holds [rate] in both fields.  The call returns when the registry keys
    are block ids. *)
Theorem update_tick_rate_refreshes_rx_and_sets_tx mb_index rate st :
  Forall (λ k, is_Some (block_id_device_no k)) (dict_keys (_rx_streamers st)) →
  Forall (λ k, is_Some (block_id_device_no k)) (dict_keys (_tx_streamers st)) →
  (update_tick_rate mb_index rate st).1 = returns tt ∧
  (∀ block_id h s,
     dict_get (_rx_streamers st) block_id = Some (Some h) →
     block_id_device_no block_id = Some mb_index →
     rx_objects st !! h = Some (recv_object s) →
     rx_objects (update_tick_rate mb_index rate st).2 !! h =
     Some (recv_object
             {| rx_tick_rate := get_tick_rate (rx_get_terminator s);
                rx_samp_rate := get_output_samp_rate (rx_get_terminator s);
                rx_scale_factor := rx_scale_factor s;
                rx_get_terminator := rx_get_terminator s |})) ∧
  (∀ block_id h s,
     dict_get (_tx_streamers st) block_id = Some (Some h) →
     block_id_device_no block_id = Some mb_index →
     tx_objects st !! h = Some (send_object s) →
     tx_objects (update_tick_rate mb_index rate st).2 !! h =
     Some (send_object
             {| tx_tick_rate := rate;
                tx_samp_rate := rate;
                tx_scale_factor := tx_scale_factor s;
                tx_get_terminator := tx_get_terminator s |})).
Proof.
  intros Hrx Htx. rewrite update_tick_rate_run by done. simpl.
  split; [done|]. split; intros block_id h s Hreg Hdev Hobj.
  - rewrite alter_targets_lookup by apply on_recv_refresh_idem.
    rewrite bool_decide_eq_true_2, Hobj; [done|].
    apply Exists_exists. exists block_id. split.
    + apply dict_get_is_Some. by rewrite Hreg.
    + by apply tick_rate_target_Some.
  - rewrite alter_targets_lookup by apply on_send_apply_rate_idem.
    rewrite bool_decide_eq_true_2, Hobj; [done|].
    apply Exists_exists. exists block_id. split.
    + apply dict_get_is_Some. by rewrite Hreg.
    + by apply tick_rate_target_Some.
Qed.

(** C8: [update_tick_rate] returns without an error, and a streamer address
    is left exactly as it was when no packet streamer is alive behind it
    (the weak pointer does not resolve) or when every registry key that
    leads to it belongs to another motherboard than [mb_index]; the
    registries and everything else in the object are untouched. *)
Theorem update_tick_rate_skips_unresolved_and_other_mboards mb_index rate st :
  Forall (λ k, is_Some (block_id_device_no k)) (dict_keys (_rx_streamers st)) →
  Forall (λ k, is_Some (block_id_device_no k)) (dict_keys (_tx_streamers st)) →
  let st' := (update_tick_rate mb_index rate st).2 in
  (update_tick_rate mb_index rate st).1 = returns tt ∧
  (∀ h, (∀ s, rx_objects st !! h ≠ Some (recv_object s)) →
        rx_objects st' !! h = rx_objects st !! h) ∧
  (∀ h, (∀ s, tx_objects st !! h ≠ Some (send_object s)) →
        tx_objects st' !! h = tx_objects st !! h) ∧
  (∀ h, (∀ block_id, dict_get (_rx_streamers st) block_id = Some (Some h) →
                     block_id_device_no block_id ≠ Some mb_index) →
        rx_objects st' !! h = rx_objects st !! h) ∧
  (∀ h, (∀ block_id, dict_get (_tx_streamers st) block_id = Some (Some h) →
                     block_id_device_no block_id ≠ Some mb_index) →
        tx_objects st' !! h = tx_objects st !! h) ∧
  _rx_streamers st' = _rx_streamers st ∧ _tx_streamers st' = _tx_streamers st ∧
  _mb st' = _mb st ∧ _tree st' = _tree st ∧ calls st' = calls st.
Proof.
  intros Hrx Htx. rewrite update_tick_rate_run by done. simpl.
  split; [done|].
  split; [|split; [|split; [|split; [|done]]]].
  - intros h Hdead.
    rewrite alter_targets_lookup by apply on_recv_refresh_idem.
    case_bool_decide; [|done].
    destruct (rx_objects st !! h) as [[s|]|]; [by destruct (Hdead s)|done..].
  - intros h Hdead.
    rewrite alter_targets_lookup by apply on_send_apply_rate_idem.
    case_bool_decide; [|done].
    destruct (tx_objects st !! h) as [[s|]|]; [by destruct (Hdead s)|done..].
  - intros h Hother.
    rewrite alter_targets_lookup by apply on_recv_refresh_idem.
    rewrite bool_decide_eq_false_2; [done|].
    intros (k & _ & [Hdev Hreg]%tick_rate_target_Some)%Exists_exists.
    by destruct (Hother k Hreg).
  - intros h Hother.
    rewrite alter_targets_lookup by apply on_send_apply_rate_idem.
    rewrite bool_decide_eq_false_2; [done|].
    intros (k & _ & [Hdev Hreg]%tick_rate_target_Some)%Exists_exists.
    by destruct (Hother k Hreg).
Qed.

(** ** [update_rx_samp_rate] and [update_tx_samp_rate] *)

Lemma update_rx_samp_rate_run mb dspno rate st :
  update_rx_samp_rate mb dspno rate st =
  match resolve_recv st (radio_block_id dspno) with
  | None => (returns tt, st)
  | Some h =>
      let st1 := set_rx_objects (alter (on_recv (with_rx_samp_rate rate)) h) st in
      match radio_perifs mb !! dspno with
      | Some perif =>
          (returns tt,
           set_rx_objects
             (alter (on_recv (with_rx_scale_factor (ddc_scaling_adjustment perif))) h)
             st1)
      | None => (undefined_behaviour, st1)
      end
  end.
Proof.
  unfold update_rx_samp_rate, resolve_recv.
  unfold mbind at 1, M_bind, get. cbn beta iota.
  destruct (dict_get (_rx_streamers st) (radio_block_id dspno)) as [p|] eqn:Hp.
  - rewrite (proj2 (dict_has_key_true _ _)) by (by rewrite Hp). simpl.
    unfold mbind at 1, M_bind, rx_streamers_index. cbn beta iota.
    rewrite (dict_index_present _ _ _ _ Hp), set_rx_streamers_id.
    unfold mbind at 1, M_bind, lock_recv. cbn beta iota.
    destruct p as [h|]; simpl; [|done].
    destruct (rx_objects st !! h) as [[s|]|]; [|done..].
    unfold mbind, M_bind, recv_set_samp_rate, recv_set_scale_factor, modify, at_index.
    cbn beta iota.
    by destruct (radio_perifs mb !! dspno).
  - by rewrite (proj2 (dict_has_key_false _ _)).
Qed.

Lemma update_tx_samp_rate_run mb dspno rate st :
  update_tx_samp_rate mb dspno rate st =
  match resolve_send st (radio_block_id dspno) with
  | None => (returns tt, st)
  | Some h =>
      let st1 := set_tx_objects (alter (on_send (with_tx_samp_rate rate)) h) st in
      match radio_perifs mb !! dspno with
      | Some perif =>
          (returns tt,
           set_tx_objects
             (alter (on_send (with_tx_scale_factor (duc_scaling_adjustment perif))) h)
             st1)
      | None => (undefined_behaviour, st1)
      end
  end.
Proof.
  unfold update_tx_samp_rate, resolve_send.
  unfold mbind at 1, M_bind, get. cbn beta iota.
  destruct (dict_get (_tx_streamers st) (radio_block_id dspno)) as [p|] eqn:Hp.
  - rewrite (proj2 (dict_has_key_true _ _)) by (by rewrite Hp). simpl.
    unfold mbind at 1, M_bind, tx_streamers_index. cbn beta iota.
    rewrite (dict_index_present _ _ _ _ Hp), set_tx_streamers_id.
    unfold mbind at 1, M_bind, lock_send. cbn beta iota.
    destruct p as [h|]; simpl; [|done].
    destruct (tx_objects st !! h) as [[s|]|]; [|done..].
    unfold mbind, M_bind, send_set_samp_rate, send_set_scale_factor, modify, at_index.
    cbn beta iota.
    by destruct (radio_perifs mb !! dspno).
  - by rewrite (proj2 (dict_has_key_false _ _)).
Qed.

Lemma alter_alter_insert {V} (f g : V → V) (m : gmap nat V) h x :
  m !! h = Some x → alter g h (alter f h m) = <[h := g (f x)]> m.
Proof.
  intros Hx. apply map_eq; intros h'. destruct (decide (h = h')) as [<-|?].
  - by rewrite !lookup_alter_eq, lookup_insert_eq, Hx.
  - by rewrite !lookup_alter_ne, lookup_insert_ne.
Qed.

Lemma alter_insert {V} (f : V → V) (m : gmap nat V) h x :
  m !! h = Some x → alter f h m = <[h := f x]> m.
Proof.
  intros Hx. apply map_eq; intros h'. destruct (decide (h = h')) as [<-|?].
  - by rewrite lookup_alter_eq, lookup_insert_eq, Hx.
  - by rewrite lookup_alter_ne, lookup_insert_ne.
Qed.

Lemma set_rx_objects_alter f h st x :
  rx_objects st !! h = Some x →
  set_rx_objects (alter f h) st = set_rx_objects <[h := f x]> st.
Proof. intros Hx. unfold set_rx_objects. by rewrite (alter_insert _ _ _ _ Hx). Qed.

Lemma set_rx_objects_alter2 f g h st x :
  rx_objects st !! h = Some x →
  set_rx_objects (alter g h) (set_rx_objects (alter f h) st) =
  set_rx_objects <[h := g (f x)]> st.
Proof.
  intros Hx. unfold set_rx_objects; simpl.
  by rewrite (alter_alter_insert _ _ _ _ _ Hx).
Qed.

Lemma set_tx_objects_alter f h st x :
  tx_objects st !! h = Some x →
  set_tx_objects (alter f h) st = set_tx_objects <[h := f x]> st.
Proof. intros Hx. unfold set_tx_objects. by rewrite (alter_insert _ _ _ _ Hx). Qed.

Lemma set_tx_objects_alter2 f g h st x :
  tx_objects st !! h = Some x →
  set_tx_objects (alter g h) (set_tx_objects (alter f h) st) =
  set_tx_objects <[h := g (f x)]> st.
Proof.
  intros Hx. unfold set_tx_objects; simpl.
  by rewrite (alter_alter_insert _ _ _ _ _ Hx).
Qed.

Lemma resolve_recv_Some st block_id h :
  resolve_recv st block_id = Some h ↔
  dict_get (_rx_streamers st) block_id = Some (Some h) ∧
  ∃ s, rx_objects st !! h = Some (recv_object s).
Proof.
  unfold resolve_recv.
  destruct (dict_get (_rx_streamers st) block_id) as [[h'|]|]; simpl;
    [|split; [done|by intros [? _]]..].
  destruct (rx_objects st !! h') as [[s|]|] eqn:Hh'.
  - split; [intros ?; simplify_eq; eauto|by intros [? _]; simplify_eq].
  - split; [done|]. intros [? [s ?]]; simplify_eq.
  - split; [done|]. intros [? [s ?]]; simplify_eq.
Qed.

Lemma resolve_send_Some st block_id h :
  resolve_send st block_id = Some h ↔
  dict_get (_tx_streamers st) block_id = Some (Some h) ∧
  ∃ s, tx_objects st !! h = Some (send_object s).
Proof.
  unfold resolve_send.
  destruct (dict_get (_tx_streamers st) block_id) as [[h'|]|]; simpl;
    [|split; [done|by intros [? _]]..].
  destruct (tx_objects st !! h') as [[s|]|] eqn:Hh'.
  - split; [intros ?; simplify_eq; eauto|by intros [? _]; simplify_eq].
  - split; [done|]. intros [? [s ?]]; simplify_eq.
  - split; [done|]. intros [? [s ?]]; simplify_eq.
Qed.

(** C7: [update_rx_samp_rate mb dspno rate] looks up the RX registry under
    the radio name of [dspno].  Without an entry, or with an entry whose
    weak pointer does not resolve, it returns and changes nothing.  With a
    live streamer it stores [rate] as sample rate and then the DDC scaling
    adjustment that [mb.radio_perifs[dspno]] holds at that moment as scale
    factor (the sample rate is already stored when the peripherals are
    indexed).  [update_tx_samp_rate] does the same on the TX registry with
    the DUC scaling adjustment. *)
Theorem update_samp_rate_sets_rate_then_scaling mb dspno rate st :
  (dict_get (_rx_streamers st) (radio_block_id dspno) = None →
   update_rx_samp_rate mb dspno rate st = (returns tt, st)) ∧
  (∀ p, dict_get (_rx_streamers st) (radio_block_id dspno) = Some p →
        (∀ h s, p = Some h → rx_objects st !! h ≠ Some (recv_object s)) →
        update_rx_samp_rate mb dspno rate st = (returns tt, st)) ∧
  (∀ h s, dict_get (_rx_streamers st) (radio_block_id dspno) = Some (Some h) →
          rx_objects st !! h = Some (recv_object s) →
          match radio_perifs mb !! dspno with
          | Some perif =>
              update_rx_samp_rate mb dspno rate st =
              (returns tt,
               set_rx_objects
                 <[h := recv_object
                          {| rx_tick_rate := rx_tick_rate s;
                             rx_samp_rate := rate;
                             rx_scale_factor := ddc_scaling_adjustment perif;
                             rx_get_terminator := rx_get_terminator s |}]> st)
          | None =>
              update_rx_samp_rate mb dspno rate st =
              (undefined_behaviour,
               set_rx_objects
                 <[h := recv_object
                          {| rx_tick_rate := rx_tick_rate s;
                             rx_samp_rate := rate;
                             rx_scale_factor := rx_scale_factor s;
                             rx_get_terminator := rx_get_terminator s |}]> st)
          end) ∧
  (dict_get (_tx_streamers st) (radio_block_id dspno) = None →
   update_tx_samp_rate mb dspno rate st = (returns tt, st)) ∧
  (∀ p, dict_get (_tx_streamers st) (radio_block_id dspno) = Some p →
        (∀ h s, p = Some h → tx_objects st !! h ≠ Some (send_object s)) →
        update_tx_samp_rate mb dspno rate st = (returns tt, st)) ∧
  (∀ h s, dict_get (_tx_streamers st) (radio_block_id dspno) = Some (Some h) →
          tx_objects st !! h = Some (send_object s) →
          match radio_perifs mb !! dspno with
          | Some perif =>
              update_tx_samp_rate mb dspno rate st =
              (returns tt,
               set_tx_objects
                 <[h := send_object
                          {| tx_tick_rate := tx_tick_rate s;
                             tx_samp_rate := rate;
                             tx_scale_factor := duc_scaling_adjustment perif;
                             tx_get_terminator := tx_get_terminator s |}]> st)
          | None =>
              update_tx_samp_rate mb dspno rate st =
              (undefined_behaviour,
               set_tx_objects
                 <[h := send_object
                          {| tx_tick_rate := tx_tick_rate s;
                             tx_samp_rate := rate;
                             tx_scale_factor := tx_scale_factor s;
                             tx_get_terminator := tx_get_terminator s |}]> st)
          end).
Proof.
  rewrite update_rx_samp_rate_run, update_tx_samp_rate_run.
  split; [|split; [|split; [|split; [|split]]]].
  - intros Hreg. unfold resolve_recv. by rewrite Hreg.
  - intros p Hreg Hdead.
    destruct (resolve_recv st (radio_block_id dspno)) as [h|] eqn:Hres; [|done].
    apply resolve_recv_Some in Hres as [Hreg' [s Hs]].
    rewrite Hreg in Hreg'. simplify_eq. by destruct (Hdead h s).
  - intros h s Hreg Hs.
    rewrite (proj2 (resolve_recv_Some st _ h)) by eauto. cbn zeta.
    destruct (radio_perifs mb !! dspno) as [perif|].
    + by rewrite (set_rx_objects_alter2 _ _ _ _ _ Hs).
    + by rewrite (set_rx_objects_alter _ _ _ _ Hs).
  - intros Hreg. unfold resolve_send. by rewrite Hreg.
  - intros p Hreg Hdead.
    destruct (resolve_send st (radio_block_id dspno)) as [h|] eqn:Hres; [|done].
    apply resolve_send_Some in Hres as [Hreg' [s Hs]].
    rewrite Hreg in Hreg'. simplify_eq. by destruct (Hdead h s).
  - intros h s Hreg Hs.
    rewrite (proj2 (resolve_send_Some st _ h)) by eauto. cbn zeta.
    destruct (radio_perifs mb !! dspno) as [perif|].
    + by rewrite (set_tx_objects_alter2 _ _ _ _ _ Hs).
    + by rewrite (set_tx_objects_alter _ _ _ _ Hs).
Qed.

Lemma set_rx_objects_on_recv2 f g h st :
  set_rx_objects (alter (on_recv g) h) (set_rx_objects (alter (on_recv f) h) st) =
  set_rx_objects (alter (on_recv (λ s, g (f s))) h) st.
Proof.
  unfold set_rx_objects; simpl. f_equal. apply map_eq; intros i.
  destruct (decide (h = i)) as [<-|?].
  - rewrite !lookup_alter_eq. by destruct (rx_objects st !! h) as [[?|]|].
  - by rewrite !lookup_alter_ne.
Qed.

Lemma set_tx_objects_on_send2 f g h st :
  set_tx_objects (alter (on_send g) h) (set_tx_objects (alter (on_send f) h) st) =
  set_tx_objects (alter (on_send (λ s, g (f s))) h) st.
Proof.
  unfold set_tx_objects; simpl. f_equal. apply map_eq; intros i.
  destruct (decide (h = i)) as [<-|?].
  - rewrite !lookup_alter_eq. by destruct (tx_objects st !! h) as [[?|]|].
  - by rewrite !lookup_alter_ne.
Qed.

(** C10: the streamer [update_rx_samp_rate] and [update_tx_samp_rate] act on
    is the one the registry resolves under the name "Radio_<dspno>", whatever
    motherboard state is passed: called with two motherboards and the same
    [dspno] on the same object state, both calls update the same streamer
    (or both do nothing), with the same sample rate, and differ only in the
    scale factor, which comes from the radio peripherals of the motherboard
    passed. *)
Theorem samp_rate_endpoint_named_by_dspno_only mb1 mb2 perif1 perif2 dspno rate st :
  radio_perifs mb1 !! dspno = Some perif1 →
  radio_perifs mb2 !! dspno = Some perif2 →
  let store_rx adj st :=
    match resolve_recv st ("Radio_" +:+ pretty dspno) with
    | Some h =>
        set_rx_objects
          (alter (on_recv (λ s, with_rx_scale_factor adj (with_rx_samp_rate rate s))) h) st
    | None => st
    end in
  let store_tx adj st :=
    match resolve_send st ("Radio_" +:+ pretty dspno) with
    | Some h =>
        set_tx_objects
          (alter (on_send (λ s, with_tx_scale_factor adj (with_tx_samp_rate rate s))) h) st
    | None => st
    end in
  update_rx_samp_rate mb1 dspno rate st =
    (returns tt, store_rx (ddc_scaling_adjustment perif1) st) ∧
  update_rx_samp_rate mb2 dspno rate st =
    (returns tt, store_rx (ddc_scaling_adjustment perif2) st) ∧
  update_tx_samp_rate mb1 dspno rate st =
    (returns tt, store_tx (duc_scaling_adjustment perif1) st) ∧
  update_tx_samp_rate mb2 dspno rate st =
    (returns tt, store_tx (duc_scaling_adjustment perif2) st).
Proof.
  intros H1 H2 store_rx store_tx. subst store_rx store_tx. cbn beta.
  rewrite !update_rx_samp_rate_run, !update_tx_samp_rate_run, H1, H2.
  change (radio_block_id dspno) with ("Radio_" +:+ pretty dspno).
  destruct (resolve_recv st _) as [h|], (resolve_send st _) as [h'|]; cbn zeta;
    by rewrite ?set_rx_objects_on_recv2, ?set_tx_objects_on_send2.
Qed.

(** ** [update_subdev_spec] *)

Lemma radio_count_Some st mb_i n :
  radio_count st mb_i = Some n ↔
  ∃ mb, _mb st !! mb_i = Some mb ∧ length (radio_perifs mb) = n.
Proof.
  unfold radio_count. destruct (_mb st !! mb_i) as [mb|]; simpl.
  - split; [intros ?; simplify_eq; eauto|intros (? & ? & ?); by simplify_eq].
  - split; [done|by intros (? & ? & ?)].
Qed.

Lemma program_radio_run mb_i idx f c st mb perif :
  _mb st !! mb_i = Some mb → (0 ≤ idx)%Z →
  radio_perifs mb !! Z.to_nat idx = Some perif →
  program_radio mb_i idx f c st
  = match set_mux_throws (c mb_i (Z.to_nat idx)) st with
    | None =>
        (returns tt,
         log_call (c mb_i (Z.to_nat idx))
           (set_mb <[mb_i := with_radio_perifs
                               (<[Z.to_nat idx := f perif]> (radio_perifs mb)) mb]> st))
    | Some ex => (throws ex, log_call (c mb_i (Z.to_nat idx)) st)
    end.
Proof.
  intros Hmb Hidx Hperif.
  unfold program_radio. rewrite bind_get, (at_index_Some _ _ _ Hmb), bind_mret.
  rewrite decide_True by done. cbn zeta.
  rewrite (at_index_Some _ _ _ Hperif), bind_mret.
  by destruct (set_mux_throws _ _).
Qed.

Lemma program_radio_ok mb_i idx f c st n :
  radio_count st mb_i = Some n → (0 ≤ idx < Z.of_nat n)%Z →
  ∃ st', program_radio mb_i idx f c st
         = (match set_mux_throws (c mb_i (Z.to_nat idx)) st with
            | None => returns tt
            | Some ex => throws ex
            end, st') ∧
         calls st' = calls st ++ [c mb_i (Z.to_nat idx)] ∧
         _tree st' = _tree st ∧ radio_count st' mb_i = Some n.
Proof.
  intros (mb & Hmb & Hn)%radio_count_Some Hidx.
  destruct (lookup_lt_is_Some_2 (radio_perifs mb) (Z.to_nat idx)) as [perif Hperif];
    [lia|].
  rewrite (program_radio_run _ _ _ _ _ _ _ Hmb (proj1 Hidx) Hperif).
  destruct (set_mux_throws _ _) as [ex|]; eexists; (split; [done|]);
    (split; [done|]); (split; [done|]); apply radio_count_Some; simpl.
  - by exists mb.
  - eexists. split.
    + apply list_lookup_insert_eq. by eapply lookup_lt_Some.
    + simpl. by rewrite length_insert.
Qed.

Lemma program_radio_out_of_range mb_i idx f c st :
  (∀ n, radio_count st mb_i = Some n → ¬ (0 ≤ idx < Z.of_nat n)%Z) →
  program_radio mb_i idx f c st = (undefined_behaviour, st).
Proof.
  intros Hout. unfold program_radio, mbind, M_bind, get, at_index. cbn beta iota.
  destruct (_mb st !! mb_i) as [mb|] eqn:Hmb; [|done].
  unfold mret, M_ret. cbn beta iota.
  case_decide; [|done]. cbn zeta.
  destruct (radio_perifs mb !! Z.to_nat idx) as [perif|] eqn:Hperif; [|done].
  apply lookup_lt_Some in Hperif.
  destruct (Hout (length (radio_perifs mb))); [|lia].
  apply radio_count_Some. eauto.
Qed.

(** One iteration.  When the entry, its connection and its radio slot are
    there, the mux calls are made in order up to the first that throws. *)
Lemma setup_mux_entry_run tx_rx mb_i mb_root spec i m st :
  match entry_route (_tree st) (radio_count st mb_i) tx_rx mb_i mb_root spec i with
  | Some (idx, conn) =>
      ∃ o st' made,
        setup_mux_entry tx_rx mb_i mb_root spec i m st = (o, st') ∧
        _tree st' = _tree st ∧
        radio_count st' mb_i = radio_count st mb_i ∧
        calls st' = calls st ++ made ∧
        made `prefix_of` mux_calls tx_rx mb_i idx conn ∧
        (∀ m', o = returns m' →
               m' = <[i := to_size_t idx]> m ∧ made = mux_calls tx_rx mb_i idx conn) ∧
        ((∀ c st'', c ∈ mux_calls tx_rx mb_i idx conn → set_mux_throws c st'' = None) →
         o = returns (<[i := to_size_t idx]> m))
  | None =>
      ∃ o, setup_mux_entry tx_rx mb_i mb_root spec i m st = (o, st) ∧
           ∀ m', o ≠ returns m'
  end.
Proof.
  destruct (entry_route _ _ _ _ _ _ _) as [[idx conn]|] eqn:Hroute.
  - unfold entry_route in Hroute.
    destruct (spec !! i) as [p|] eqn:Hp; [|done].
    destruct (radio_count st mb_i) as [n|] eqn:Hn; [|done].
    simpl in Hroute.
    destruct (connection_of (_tree st) mb_root tx_rx p) as [conn'|] eqn:Hconn; [|done].
    simpl in Hroute. case_decide as Hidx; [|done]. simplify_eq.
    pose proof Hn as (mb & Hmb & Hlen)%radio_count_Some.
    unfold connection_of in Hconn.
    destruct (_tree st !! connection_path mb_root tx_rx p) as [[c|v]|] eqn:Htree;
      simplify_eq.
    unfold setup_mux_entry.
    rewrite (at_index_Some _ _ _ Hp), bind_mret, bind_get.
    rewrite (at_index_Some _ _ _ Hmb), bind_mret.
    unfold tree_get_string at 1. unfold mbind at 1, M_bind at 1. rewrite Htree.
    fold (radio_idx_of mb_i p). unfold mux_calls.
    destruct (decide (tx_rx = "tx")) as [Htx|Htx].
    + destruct (program_radio_ok mb_i (radio_idx_of mb_i p)
                  (with_tx_fe_mux conn) (λ m r, tx_fe_set_mux m r conn) st (length (radio_perifs mb)))
        as (st' & Hrun & Hcalls & Htree' & Hcnt); [done..|].
      cbn beta in Hrun. unfold mbind, M_bind. rewrite Hrun.
      destruct (set_mux_throws _ st) as [ex|] eqn:Hthrows;
        eexists _, st', _; (split; [done|]); (split; [done|]);
        (split; [by rewrite Hcnt|]); (split; [exact Hcalls|]); (split; [done|]).
      * split; [done|]. intros Hnone. rewrite Hnone in Hthrows; [done|by left].
      * split; [|done]. intros m' [= <-]. done.
    + destruct (program_radio_ok mb_i (radio_idx_of mb_i p)
                  (with_ddc_mux conn (fe_swapped_of conn))
                  (λ m r, ddc_set_mux m r conn (fe_swapped_of conn)) st (length (radio_perifs mb)))
        as (st1 & Hrun1 & Hcalls1 & Htree1 & Hcnt1); [done..|].
      destruct (program_radio_ok mb_i (radio_idx_of mb_i p)
                  (with_rx_fe_mux (fe_swapped_of conn))
                  (λ m r, rx_fe_set_mux m r (fe_swapped_of conn)) st1 (length (radio_perifs mb)))
        as (st2 & Hrun2 & Hcalls2 & Htree2 & Hcnt2); [done..|].
      cbn beta in Hrun1, Hrun2. unfold mbind, M_bind. cbn zeta. rewrite Hrun1.
      destruct (set_mux_throws _ st) as [ex|] eqn:Hthrows1.
      { eexists _, st1, _. split; [done|]. split; [done|]. split; [by rewrite Hcnt1|].
        split; [exact Hcalls1|]. split; [by eexists [_]|]. split; [done|].
        intros Hnone. rewrite Hnone in Hthrows1; [done|by left]. }
      rewrite Hrun2.
      destruct (set_mux_throws _ st1) as [ex|] eqn:Hthrows2;
        eexists _, st2, _; (split; [done|]); (split; [congruence|]);
        (split; [by rewrite Hcnt2|]);
        (split; [by rewrite Hcalls2, Hcalls1, <-app_assoc|]); (split; [done|]).
      * split; [done|]. intros Hnone.
        rewrite Hnone in Hthrows2; [done|by right; left].
      * split; [|done]. intros m' [= <-]. done.
  - unfold entry_route in Hroute. unfold setup_mux_entry.
    destruct (spec !! i) as [p|] eqn:Hp;
      [|rewrite (at_index_None _ _ Hp), bind_undefined_l; by eexists].
    rewrite (at_index_Some _ _ _ Hp), bind_mret, bind_get.
    destruct (_mb st !! mb_i) as [mb|] eqn:Hmb;
      [|rewrite (at_index_None _ _ Hmb), bind_undefined_l; by eexists].
    rewrite (at_index_Some _ _ _ Hmb), bind_mret.
    assert (radio_count st mb_i = Some (length (radio_perifs mb))) as Hn.
    { apply radio_count_Some; eauto. }
    rewrite Hn in Hroute. simpl in Hroute. unfold connection_of in Hroute.
    unfold tree_get_string at 1. unfold mbind at 1, M_bind at 1.
    destruct (_tree st !! connection_path mb_root tx_rx p) as [[conn|v]|] eqn:Htree;
      [|by eexists..].
    simpl in Hroute. case_decide as Hidx; [done|].
    fold (radio_idx_of mb_i p).
    assert (∀ f c, program_radio mb_i (radio_idx_of mb_i p) f c st
                   = (undefined_behaviour, st)) as Hout.
    { intros f c. apply program_radio_out_of_range.
      intros n' Hn'. rewrite Hn in Hn'. by simplify_eq. }
    exists undefined_behaviour. split; [|done].
    unfold mbind, M_bind. cbn zeta.
    destruct (decide (tx_rx = "tx")); by rewrite Hout.
Qed.

(** The loop: the mux calls made are those of the iterations that go
    through, in order, up to the first call that throws. *)
Lemma setup_mux_run tx_rx mb_i mb_root spec indices m st :
  let route := entry_route (_tree st) (radio_count st mb_i) tx_rx mb_i mb_root spec in
  let mux := flat_map (λ r, mux_calls tx_rx mb_i r.2.1 r.2.2) (served route indices) in
  ∃ o st' made,
    setup_mux tx_rx mb_i mb_root spec indices m st = (o, st') ∧
    _tree st' = _tree st ∧
    radio_count st' mb_i = radio_count st mb_i ∧
    calls st' = calls st ++ made ∧
    made `prefix_of` mux ∧
    (∀ m', o = returns m' →
           length (served route indices) = length indices ∧ made = mux ∧
           m' = foldl (λ m r, <[r.1 := to_size_t r.2.1]> m) m (served route indices)) ∧
    (length (served route indices) = length indices →
     (∀ c st'', c ∈ mux → set_mux_throws c st'' = None) →
     o = returns (foldl (λ m r, <[r.1 := to_size_t r.2.1]> m) m
                    (served route indices))).
Proof.
  cbn zeta. revert m st. induction indices as [|i indices IH]; intros m st.
  - exists (returns m), st, []. simpl. rewrite app_nil_r.
    do 5 (split; [done|]). split; [by intros m' [= <-]|done].
  - pose proof (setup_mux_entry_run tx_rx mb_i mb_root spec i m st) as Hentry.
    simpl. destruct (entry_route _ _ _ _ _ _ i) as [[idx conn]|] eqn:Hroute.
    + destruct Hentry as (o1 & st1 & made1 & Hrun & Htree & Hcnt & Hcalls & Hpre
                          & Hret & Hok).
      destruct o1 as [m1|e|].
      * destruct (Hret m1 eq_refl) as [-> ->].
        destruct (IH (<[i := to_size_t idx]> m) st1)
          as (o & st' & made & Hloop & Htree' & Hcnt' & Hcalls' & Hpre' & Hret' & Hok').
        rewrite Htree, Hcnt in Hpre', Hret', Hok'.
        exists o, st', (mux_calls tx_rx mb_i idx conn ++ made).
        rewrite (bind_returns _ _ _ _ _ Hrun). simpl.
        split; [done|]. split; [congruence|]. split; [congruence|].
        split; [by rewrite Hcalls', Hcalls, <-app_assoc|].
        split; [by apply prefix_app|]. split.
        -- intros m' Hm'. destruct (Hret' m' Hm') as (Hlen & -> & ->).
           by rewrite Hlen.
        -- intros Hlen Hnone. apply Hok'; [lia|].
           intros c st'' Hc. apply Hnone, elem_of_app. by right.
      * exists (throws e), st1, made1. unfold mbind, M_bind. rewrite Hrun. simpl.
        split; [done|]. split; [done|]. split; [done|]. split; [done|].
        split; [by apply prefix_app_r|]. split; [done|].
        intros _ Hnone.
        by discriminate Hok; intros c st'' Hc; apply Hnone, elem_of_app; left.
      * exists undefined_behaviour, st1, made1. unfold mbind, M_bind.
        rewrite Hrun. simpl.
        split; [done|]. split; [done|]. split; [done|]. split; [done|].
        split; [by apply prefix_app_r|]. split; [done|].
        intros _ Hnone.
        by discriminate Hok; intros c st'' Hc; apply Hnone, elem_of_app; left.
    + destruct Hentry as (o & Hrun & Ho).
      destruct (bind_not_returns _
                  (setup_mux tx_rx mb_i mb_root spec indices) _ _ _ Hrun Ho)
        as (o' & Hrun' & Ho').
      exists o', st, []. split; [done|]. split; [done|]. split; [done|].
      split; [by rewrite app_nil_r|]. split; [done|]. split.
      * intros m' ->. by destruct (Ho' m').
      * simpl. lia.
Qed.

Lemma update_subdev_spec_precheck tx_rx mb_i spec st :
  update_subdev_spec tx_rx mb_i spec st =
  match precheck tx_rx mb_i spec st with
  | Some e => (throws e, st)
  | None =>
      (chan_to_dsp_map ←
         setup_mux tx_rx mb_i ["mboards"; pretty mb_i] spec (seq 0 (length spec))
                   (replicate (length spec) 0%Z);
       tree_set_size_vector
         (["mboards"; pretty mb_i] ++ [tx_rx +:+ "_chan_dsp_mapping"])
         chan_to_dsp_map) st
  end.
Proof.
  unfold update_subdev_spec, precheck, UHD_ASSERT_THROW.
  destruct (bool_decide (tx_rx = "tx") || bool_decide (tx_rx = "rx")); [|done].
  rewrite bind_mret, bind_get.
  destruct (bool_decide (mb_i < length (_mb st))%nat); [|done].
  rewrite bind_mret. simpl negb. cbn iota.
  unfold call_validate_subdev_spec at 1. unfold mbind at 1, M_bind at 1.
  destruct (validate_subdev_spec (_tree st) spec tx_rx (pretty mb_i)); [done|].
  destruct spec as [|a [|b [|c spec]]].
  - done.
  - unfold check_db_names, at_index. simpl. rewrite bind_mret.
    unfold mbind at 1, M_bind at 1. rewrite bind_mret.
    destruct (bool_decide (db_name a = "A") || bool_decide (db_name a = "B")); done.
  - unfold check_db_names, at_index. simpl. rewrite bind_mret.
    unfold mbind at 1, M_bind at 1. rewrite !bind_mret.
    destruct (_ || _); done.
  - done.
Qed.

Lemma served_fst route indices :
  (served route indices).*1 = take (length (served route indices)) indices.
Proof.
  induction indices as [|i indices IH]; simpl; [done|].
  destruct (route i); simpl; [by f_equal|done].
Qed.

Lemma served_length route indices :
  (length (served route indices) ≤ length indices)%nat.
Proof.
  induction indices as [|i indices IH]; simpl; [done|].
  destruct (route i); simpl; lia.
Qed.

Lemma served_lookup route indices j i r :
  served route indices !! j = Some (i, r) → indices !! j = Some i ∧ route i = Some r.
Proof.
  revert j. induction indices as [|i' indices IH]; intros j; simpl; [done|].
  destruct (route i') as [r'|] eqn:Hr; [|done].
  destruct j as [|j]; simpl; [intros ?; by simplify_eq|apply IH].
Qed.

Lemma served_all route indices :
  Forall (λ i, is_Some (route i)) indices →
  length (served route indices) = length indices.
Proof.
  induction 1 as [|i indices [r Hr] _ IH]; simpl; [done|].
  rewrite Hr. simpl. by rewrite IH.
Qed.

(** The writes [chan_to_dsp_map[i] = ...] for [i = a, a+1, ...] fill the
    vector from position [a] on. *)
Lemma foldl_insert_seq {R} (g : R → Z) (srv : list (nat * R)) a (m : list Z) :
  srv.*1 = seq a (length srv) →
  length m = (a + length srv)%nat →
  foldl (λ m r, <[r.1 := g r.2]> m) m srv = take a m ++ map (λ r, g r.2) srv.
Proof.
  revert a m. induction srv as [|[i r] srv IH]; intros a m Hfst Hlen; simpl in *.
  - rewrite app_nil_r, take_ge; [done|lia].
  - injection Hfst as -> Hfst.
    rewrite (IH (S a)); [|done|rewrite length_insert; lia].
    rewrite (take_S_r _ _ (g r)); [|apply list_lookup_insert_eq; lia].
    rewrite take_insert_ge by done. by rewrite <-app_assoc.
Qed.

Lemma update_subdev_spec_run tx_rx mb_i spec st :
  precheck tx_rx mb_i spec st = None →
  let srv := spec_served st tx_rx mb_i spec in
  let mux := flat_map (λ r, mux_calls tx_rx mb_i r.2.1 r.2.2) srv in
  let v := map (λ r, to_size_t r.2.1) srv in
  ∃ o st' made,
    update_subdev_spec tx_rx mb_i spec st = (o, st') ∧
    made `prefix_of` mux ∧
    (o = returns tt →
     length srv = length spec ∧
     _tree st' = <[mapping_path tx_rx mb_i := prop_size_vector v]> (_tree st) ∧
     calls st' = calls st ++ mux ++ [tree_set (mapping_path tx_rx mb_i) v]) ∧
    (o ≠ returns tt → _tree st' = _tree st ∧ calls st' = calls st ++ made) ∧
    (length srv = length spec →
     (∀ c st'', c ∈ mux → set_mux_throws c st'' = None) →
     (calls st' = calls st ++ mux ∨
      calls st' = calls st ++ mux ++ [tree_set (mapping_path tx_rx mb_i) v]) ∧
     ((∃ v0, _tree st !! mapping_path tx_rx mb_i = Some (prop_size_vector v0)) →
      o = returns tt)).
Proof.
  intros Hpre. cbn zeta. rewrite update_subdev_spec_precheck, Hpre.
  destruct (setup_mux_run tx_rx mb_i ["mboards"; pretty mb_i] spec
              (seq 0 (length spec)) (replicate (length spec) 0%Z) st)
    as (o & st1 & made & Hloop & Htree & Hcnt & Hcalls & Hprefix & Hret & Hok).
  fold (spec_served st tx_rx mb_i spec) in Hprefix, Hret, Hok.
  rewrite length_seq in Hret, Hok.
  unfold mbind, M_bind. rewrite Hloop.
  destruct o as [m'|e|].
  - destruct (Hret m' eq_refl) as (Hlen & -> & ->).
    assert ((spec_served st tx_rx mb_i spec).*1
            = seq 0 (length (spec_served st tx_rx mb_i spec))) as Hfst.
    { unfold spec_served in *. rewrite served_fst, Hlen.
      apply take_ge. by rewrite length_seq. }
    rewrite (foldl_insert_seq (λ r, to_size_t r.1) _ 0);
      [|done|by rewrite length_replicate].
    rewrite take_0. simpl app.
    unfold tree_set_size_vector. rewrite Htree.
    unfold mapping_path.
    destruct (_tree st !! _) as [[s|v]|]; eexists _, _, _;
      (split; [done|]); (split; [done|]); simpl.
    + split; [done|]. split; [done|]. intros _ _. split; [by left|].
      by intros [? ?].
    + split; [by rewrite Htree, Hcalls, <-app_assoc|]. split; [done|].
      intros _ _. split; [|done]. right. by rewrite Hcalls, <-app_assoc.
    + split; [done|]. split; [done|]. intros _ _. split; [by left|].
      by intros [? ?].
  - exists (throws e), st1, made. split; [done|]. split; [done|]. split; [done|].
    split; [done|]. intros Hlen Hnone. by discriminate (Hok Hlen Hnone).
  - exists undefined_behaviour, st1, made. split; [done|]. split; [done|].
    split; [done|]. split; [done|]. intros Hlen Hnone. by discriminate (Hok Hlen Hnone).
Qed.

Lemma to_int_range z : (- 2 ^ 31 ≤ to_int z < 2 ^ 31)%Z.
Proof. unfold to_int. pose proof (Z.mod_pos_bound (z + 2 ^ 31) (2 ^ 32)). lia. Qed.

Lemma to_size_t_of_index z : (0 ≤ to_int z)%Z → to_size_t (to_int z) = to_int z.
Proof.
  intros Hz. unfold to_size_t. pose proof (to_int_range z).
  apply Z.mod_small. lia.
Qed.

Lemma connection_of_Some tree mb_root tx_rx p conn :
  connection_of tree mb_root tx_rx p = Some conn ↔
  tree !! connection_path mb_root tx_rx p = Some (prop_string conn).
Proof.
  unfold connection_of.
  destruct (tree !! connection_path mb_root tx_rx p) as [[c|v]|];
    split; intros ?; by simplify_eq.
Qed.

Lemma entry_route_Some tree cnt tx_rx mb_i mb_root spec i idx conn :
  entry_route tree cnt tx_rx mb_i mb_root spec i = Some (idx, conn) ↔
  ∃ p n, spec !! i = Some p ∧ cnt = Some n ∧
         tree !! connection_path mb_root tx_rx p = Some (prop_string conn) ∧
         idx = radio_idx_of mb_i p ∧ (0 ≤ idx < Z.of_nat n)%Z.
Proof.
  unfold entry_route. split.
  - destruct (spec !! i) as [p|]; [|done]. destruct cnt as [n|]; [|done].
    cbn [mbind option_bind].
    destruct (connection_of tree mb_root tx_rx p) as [c|] eqn:Hc; [|done].
    apply connection_of_Some in Hc.
    cbn [mbind option_bind]. case_decide; [|done]. intros ?; simplify_eq. by exists p, n.
  - intros (p & n & -> & -> & Hc%connection_of_Some & -> & Hidx).
    cbn [mbind option_bind]. rewrite Hc. cbn [mbind option_bind].
    by rewrite decide_True.
Qed.

Lemma spec_served_lookup st tx_rx mb_i spec j i idx conn :
  spec_served st tx_rx mb_i spec !! j = Some (i, (idx, conn)) →
  i = j ∧
  ∃ p n, spec !! j = Some p ∧ radio_count st mb_i = Some n ∧
         _tree st !! connection_path ["mboards"; pretty mb_i] tx_rx p
           = Some (prop_string conn) ∧
         idx = radio_idx_of mb_i p ∧ (0 ≤ idx < Z.of_nat n)%Z.
Proof.
  unfold spec_served. intros [Hseq Hroute]%served_lookup.
  apply lookup_seq in Hseq as [-> _]. split; [done|].
  by apply entry_route_Some in Hroute.
Qed.

Lemma spec_served_prefix st tx_rx mb_i spec :
  Forall2 (λ p r,
             _tree st !! connection_path ["mboards"; pretty mb_i] tx_rx p
               = Some (prop_string r.2.2) ∧
             r.2.1 = radio_idx_of mb_i p ∧ (0 ≤ r.2.1)%Z)
          (take (length (spec_served st tx_rx mb_i spec)) spec)
          (spec_served st tx_rx mb_i spec).
Proof.
  pose proof (served_length
                (entry_route (_tree st) (radio_count st mb_i) tx_rx mb_i
                   ["mboards"; pretty mb_i] spec) (seq 0 (length spec))) as Hle.
  rewrite length_seq in Hle. fold (spec_served st tx_rx mb_i spec) in Hle.
  apply Forall2_same_length_lookup_2; [rewrite length_take; lia|].
  intros j p [i [idx conn]] Hp Hr.
  apply lookup_take_Some in Hp as [Hp _].
  apply spec_served_lookup in Hr as (-> & p' & n & Hp' & _ & Htree & -> & Hidx).
  rewrite Hp in Hp'. simplify_eq. simpl. split; [done|]. split; [done|lia].
Qed.

Lemma spec_served_all st tx_rx mb_i spec n :
  radio_count st mb_i = Some n →
  (∀ p, p ∈ spec →
     (∃ conn, _tree st !! connection_path ["mboards"; pretty mb_i] tx_rx p
              = Some (prop_string conn)) ∧
     (0 ≤ radio_idx_of mb_i p < Z.of_nat n)%Z) →
  length (spec_served st tx_rx mb_i spec) = length spec.
Proof.
  intros Hn Hspec. unfold spec_served.
  rewrite served_all; [by rewrite length_seq|].
  apply Forall_forall. intros i [_ Hi]%elem_of_seq.
  destruct (lookup_lt_is_Some_2 spec i) as [p Hp]; [lia|].
  destruct (Hspec p) as [[conn Hconn] Hidx]; [by eapply list_elem_of_lookup_2|].
  exists (radio_idx_of mb_i p, conn). apply entry_route_Some. by exists p, n.
Qed.

Lemma precheck_Some tx_rx mb_i spec st e :
  precheck tx_rx mb_i spec st = Some e →
  ex_class e = assertion_error ∨
  validate_subdev_spec (_tree st) spec tx_rx (pretty mb_i) = Some e.
Proof.
  unfold precheck.
  destruct (negb _); [intros ?; simplify_eq; by left|].
  destruct (negb _); [intros ?; simplify_eq; by left|].
  destruct (validate_subdev_spec _ _ _ _) as [ex|]; [intros ?; simplify_eq; by right|].
  destruct spec as [|a [|b [|c spec]]]; [done|..].
  - destruct (_ || _); [done|]. intros ?; simplify_eq; by left.
  - destruct (_ || _); [done|]. intros ?; simplify_eq; by left.
  - intros ?; simplify_eq; by left.
Qed.

Lemma precheck_pair_None tx_rx mb_i a b st :
  precheck tx_rx mb_i [a; b] st = None ↔
  (tx_rx = "tx" ∨ tx_rx = "rx") ∧ (mb_i < length (_mb st))%nat ∧
  validate_subdev_spec (_tree st) [a; b] tx_rx (pretty mb_i) = None ∧
  ((db_name a = "A" ∧ db_name b = "B") ∨ (db_name a = "B" ∧ db_name b = "A")).
Proof.
  only_mentioned.
  unfold precheck.
  destruct (decide (tx_rx = "tx" ∨ tx_rx = "rx")) as [Hdir|Hdir].
  2:{ rewrite (proj2 (orb_false_iff _ _)).
      - simpl. split; [done|]. by intros [? _].
      - rewrite !bool_decide_eq_false. tauto. }
  rewrite (proj2 (orb_true_iff _ _)) by (rewrite !bool_decide_eq_true; tauto).
  simpl negb. cbn iota.
  destruct (decide (mb_i < length (_mb st))%nat) as [Hmb|Hmb].
  2:{ rewrite bool_decide_eq_false_2 by done. simpl. split; [done|]. by intros (_ & ? & _). }
  rewrite bool_decide_eq_true_2 by done. simpl negb. cbn iota.
  destruct (validate_subdev_spec _ _ _ _) as [ex|].
  { split; [done|]. by intros (_ & _ & ? & _). }
  repeat case_bool_decide; simpl; (split; [intros ?|intros (_ & _ & _ & Hn)]);
    try done; try tauto; destruct Hn as [[? ?]|[? ?]]; congruence.
Qed.

Lemma update_subdev_spec_succeeds tx_rx mb_i spec st n :
  precheck tx_rx mb_i spec st = None →
  radio_count st mb_i = Some n →
  (∀ p, p ∈ spec →
     (∃ conn, _tree st !! connection_path ["mboards"; pretty mb_i] tx_rx p
              = Some (prop_string conn)) ∧
     (0 ≤ radio_idx_of mb_i p < Z.of_nat n)%Z) →
  (∃ v, _tree st !! mapping_path tx_rx mb_i = Some (prop_size_vector v)) →
  (∀ c st', set_mux_throws c st' = None) →
  (update_subdev_spec tx_rx mb_i spec st).1 = returns tt.
Proof.
  intros Hpre Hn Hspec Hv Hnone.
  destruct (update_subdev_spec_run tx_rx mb_i spec st Hpre)
    as (o & st' & made & -> & _ & _ & _ & Hok).
  apply Hok; [by eapply spec_served_all|by intros c st'' _|done].
Qed.

(** What a returning call leaves behind. *)
Lemma update_subdev_spec_returns tx_rx mb_i spec st :
  (update_subdev_spec tx_rx mb_i spec st).1 = returns tt →
  precheck tx_rx mb_i spec st = None ∧
  length (spec_served st tx_rx mb_i spec) = length spec ∧
  let v := map (λ r, to_size_t r.2.1) (spec_served st tx_rx mb_i spec) in
  _tree (update_subdev_spec tx_rx mb_i spec st).2
    = <[mapping_path tx_rx mb_i := prop_size_vector v]> (_tree st) ∧
  calls (update_subdev_spec tx_rx mb_i spec st).2
    = calls st
      ++ flat_map (λ r, mux_calls tx_rx mb_i r.2.1 r.2.2) (spec_served st tx_rx mb_i spec)
      ++ [tree_set (mapping_path tx_rx mb_i) v].
Proof.
  intros Hret.
  destruct (precheck tx_rx mb_i spec st) as [e|] eqn:Hpre.
  { rewrite update_subdev_spec_precheck, Hpre in Hret. done. }
  split; [done|].
  destruct (update_subdev_spec_run tx_rx mb_i spec st Hpre)
    as (o & st' & made & Heq & _ & Hrun & _).
  rewrite Heq in Hret |- *. simpl in Hret. subst o. cbn zeta. simpl.
  by apply Hrun.
Qed.

(** The calls of any run: mux calls of the iterations that went through, in
    order, up to the first that throws, followed by the write of the mapping
    when the call returns. *)
Lemma update_subdev_spec_calls tx_rx mb_i spec st :
  ∃ srv : list (nat * (Z * string)),
    (length srv ≤ length spec)%nat ∧
    Forall2 (λ p r,
               _tree st !! connection_path ["mboards"; pretty mb_i] tx_rx p
                 = Some (prop_string r.2.2) ∧
               r.2.1 = radio_idx_of mb_i p ∧ (0 ≤ r.2.1)%Z)
            (take (length srv) spec) srv ∧
    let mux := flat_map (λ r, mux_calls tx_rx mb_i r.2.1 r.2.2) srv in
    let v := map (λ r, to_size_t r.2.1) srv in
    ((update_subdev_spec tx_rx mb_i spec st).1 = returns tt →
     length srv = length spec ∧
     _tree (update_subdev_spec tx_rx mb_i spec st).2
       = <[mapping_path tx_rx mb_i := prop_size_vector v]> (_tree st) ∧
     calls (update_subdev_spec tx_rx mb_i spec st).2
       = calls st ++ mux ++ [tree_set (mapping_path tx_rx mb_i) v]) ∧
    ((update_subdev_spec tx_rx mb_i spec st).1 ≠ returns tt →
     _tree (update_subdev_spec tx_rx mb_i spec st).2 = _tree st ∧
     ∃ made, made `prefix_of` mux ∧
             calls (update_subdev_spec tx_rx mb_i spec st).2 = calls st ++ made).
Proof.
  destruct (precheck tx_rx mb_i spec st) as [e|] eqn:Hpre.
  - exists []. split; [simpl; lia|]. split; [by rewrite take_0|].
    rewrite update_subdev_spec_precheck, Hpre. simpl.
    split; [done|]. intros _. split; [done|]. exists []. by rewrite app_nil_r.
  - exists (spec_served st tx_rx mb_i spec). split.
    { pose proof (served_length
                    (entry_route (_tree st) (radio_count st mb_i) tx_rx mb_i
                       ["mboards"; pretty mb_i] spec) (seq 0 (length spec))) as Hle.
      by rewrite length_seq in Hle. }
    split; [apply spec_served_prefix|]. cbn zeta. split.
    + intros Hret. apply update_subdev_spec_returns in Hret as (_ & ? & ? & ?). done.
    + intros Hret.
      destruct (update_subdev_spec_run tx_rx mb_i spec st Hpre)
        as (o & st' & made & Heq & Hprefix & _ & Hfail & _).
      rewrite Heq in Hret |- *. simpl in Hret |- *.
      destruct (Hfail Hret) as [? ?]. split; [done|]. by exists made.
Qed.

Lemma flat_map_served_zip {C} (f : Z → string → list C) mb_i
    (ps : list subdev_spec_pair_t) (srv : list (nat * (Z * string))) (P : _ → _ → Prop) :
  Forall2 (λ p r, P p r ∧ r.2.1 = radio_idx_of mb_i p ∧ (0 ≤ r.2.1)%Z) ps srv →
  flat_map (λ r, f r.2.1 r.2.2) srv
  = flat_map (λ pc, f (radio_idx_of mb_i pc.1) pc.2) (zip ps (map (λ r, r.2.2) srv)) ∧
  map (λ r, to_size_t r.2.1) srv = map (radio_idx_of mb_i) ps.
Proof.
  induction 1 as [|p r ps srv (_ & Hidx & Hpos) _ [IH1 IH2]]; simpl; [done|].
  rewrite IH1, IH2, Hidx. split; [done|]. f_equal.
  rewrite Hidx in Hpos. by apply to_size_t_of_index.
Qed.

Lemma fe_swapped_of_true conn : fe_swapped_of conn = true ↔ conn = "QI" ∨ conn = "Q".
Proof. unfold fe_swapped_of. by rewrite orb_true_iff, !bool_decide_eq_true. Qed.

(** The calls of a run, along the spec entries that were reached. *)
Lemma update_subdev_spec_calls_along_spec tx_rx mb_i spec st :
  ∃ conns : list string,
    (length conns ≤ length spec)%nat ∧
    Forall2 (λ p conn,
               _tree st !! connection_path ["mboards"; pretty mb_i] tx_rx p
                 = Some (prop_string conn))
            (take (length conns) spec) conns ∧
    let mux := flat_map (λ pc, mux_calls tx_rx mb_i (radio_idx_of mb_i pc.1) pc.2)
                        (zip (take (length conns) spec) conns) in
    let v := map (radio_idx_of mb_i) (take (length conns) spec) in
    ((update_subdev_spec tx_rx mb_i spec st).1 = returns tt →
     length conns = length spec ∧
     _tree (update_subdev_spec tx_rx mb_i spec st).2
       = <[mapping_path tx_rx mb_i := prop_size_vector v]> (_tree st) ∧
     calls (update_subdev_spec tx_rx mb_i spec st).2
       = calls st ++ mux ++ [tree_set (mapping_path tx_rx mb_i) v]) ∧
    ((update_subdev_spec tx_rx mb_i spec st).1 ≠ returns tt →
     _tree (update_subdev_spec tx_rx mb_i spec st).2 = _tree st ∧
     ∃ made, made `prefix_of` mux ∧
             calls (update_subdev_spec tx_rx mb_i spec st).2 = calls st ++ made).
Proof.
  destruct (update_subdev_spec_calls tx_rx mb_i spec st)
    as (srv & Hlen & Hsrv & Hret & Hfail).
  destruct (flat_map_served_zip (mux_calls tx_rx mb_i) mb_i _ _ _ Hsrv) as [Hmux Hv].
  exists (map (λ r, r.2.2) srv). rewrite length_map. split; [done|]. split.
  { apply Forall2_fmap_r. eapply Forall2_impl; [done|]. by intros p r [? _]. }
  cbn zeta. rewrite <-Hmux, <-Hv. by split.
Qed.

(** The connection strings the tree holds for a list of entries are
    determined by the entries. *)
Lemma connections_unique (tree : gmap fs_path property) mb_root tx_rx
    (ps : list subdev_spec_pair_t) (conns1 conns2 : list string) :
  Forall2 (λ p conn, tree !! connection_path mb_root tx_rx p = Some (prop_string conn))
          ps conns1 →
  Forall2 (λ p conn, tree !! connection_path mb_root tx_rx p = Some (prop_string conn))
          ps conns2 →
  conns1 = conns2.
Proof.
  only_mentioned.
  intros H1. revert conns2. induction H1 as [|p c1 ps conns1 Hc1 _ IH];
    intros conns2 H2; inversion H2 as [|? c2 ? conns2' Hc2 H2']; subst; [done|].
  rewrite Hc1 in Hc2. injection Hc2 as <-. f_equal. by apply IH.
Qed.

(** When the checks pass, every entry has its connection and its radio slot
    and no mux write throws, the loop reaches every entry: the mux calls of
    all entries are made, in the order of the spec. *)
Lemma update_subdev_spec_reaches tx_rx mb_i spec st conns n :
  precheck tx_rx mb_i spec st = None →
  radio_count st mb_i = Some n →
  Forall2 (λ p conn,
             _tree st !! connection_path ["mboards"; pretty mb_i] tx_rx p
               = Some (prop_string conn))
          spec conns →
  (∀ p, p ∈ spec → (0 ≤ radio_idx_of mb_i p < Z.of_nat n)%Z) →
  let mux := flat_map (λ pc, mux_calls tx_rx mb_i (radio_idx_of mb_i pc.1) pc.2)
                      (zip spec conns) in
  (∀ c st', c ∈ mux → set_mux_throws c st' = None) →
  ∃ tail,
    calls (update_subdev_spec tx_rx mb_i spec st).2 = calls st ++ mux ++ tail ∧
    (∀ c, c ∈ tail → ∃ path v, c = tree_set path v) ∧
    ((∃ v0, _tree st !! mapping_path tx_rx mb_i = Some (prop_size_vector v0)) →
     (update_subdev_spec tx_rx mb_i spec st).1 = returns tt).
Proof.
  intros Hpre Hn Hconns Hidx. cbn zeta. intros Hnone.
  assert (length (spec_served st tx_rx mb_i spec) = length spec) as Hlen.
  { apply (spec_served_all _ _ _ _ n); [done|]. intros p Hp. split; [|by apply Hidx].
    apply list_elem_of_lookup in Hp as [i Hp].
    destruct (Forall2_lookup_l _ _ _ _ _ Hconns Hp) as (conn & _ & ?). by exists conn. }
  pose proof (spec_served_prefix st tx_rx mb_i spec) as Hsrv.
  rewrite Hlen, firstn_all in Hsrv.
  destruct (flat_map_served_zip (mux_calls tx_rx mb_i) mb_i _ _ _ Hsrv) as [Hmux _].
  assert (map (λ r, r.2.2) (spec_served st tx_rx mb_i spec) = conns) as Hsame.
  { eapply connections_unique; [|done].
    apply Forall2_fmap_r. eapply Forall2_impl; [done|]. by intros p r [? _]. }
  rewrite Hsame in Hmux.
  destruct (update_subdev_spec_run tx_rx mb_i spec st Hpre)
    as (o & st' & made & -> & _ & _ & _ & Hok).
  rewrite Hmux in Hok. destruct (Hok Hlen Hnone) as [Hcalls Hret]. simpl.
  destruct Hcalls as [Hcalls|Hcalls].
  - exists []. rewrite app_nil_r. split; [done|]. split; [|done].
    by intros c ?%elem_of_nil.
  - eexists [_]. split; [done|]. split; [|done].
    intros c ->%list_elem_of_singleton. eauto.
Qed.

(** C3: [fe_swapped] is true exactly for the connection strings "QI" and
    "Q".  In every call the mux calls made are, in the order of the spec and
    up to the first call that fails, those of the spec entries the loop
    reaches (all of them when the call returns): for an entry of an RX call
    the DDC mux with the connection string and [fe_swapped], then the RX
    front-end mux with [fe_swapped] alone; for an entry of a TX call the TX
    front-end mux with the connection string.  And the loop does reach every
    entry: when the checks of the call pass, the tree holds the connection of
    every entry, every radio index is a slot of the motherboard and no mux
    write throws, the mux calls of all the entries are made. *)
Theorem update_subdev_spec_programs_muxes tx_rx mb_i spec st :
  let entry_calls (pc : subdev_spec_pair_t * string) :=
    let radio_idx := Z.to_nat (to_int (get_radio_index mb_i (db_name pc.1))) in
    if decide (tx_rx = "tx") then [tx_fe_set_mux mb_i radio_idx pc.2]
    else
      let fe_swapped := fe_swapped_of pc.2 in
      [ddc_set_mux mb_i radio_idx pc.2 fe_swapped;
       rx_fe_set_mux mb_i radio_idx fe_swapped] in
  (∀ conn, fe_swapped_of conn = true ↔ conn = "QI" ∨ conn = "Q") ∧
  fe_swapped_of "IQ" = false ∧ fe_swapped_of "I" = false ∧
  (∃ (conns : list string) (made tail : list call),
     (length conns ≤ length spec)%nat ∧
     Forall2 (λ p conn,
                _tree st !! connection_path ["mboards"; pretty mb_i] tx_rx p
                  = Some (prop_string conn))
             (take (length conns) spec) conns ∧
     made `prefix_of` flat_map entry_calls (zip (take (length conns) spec) conns) ∧
     calls (update_subdev_spec tx_rx mb_i spec st).2 = calls st ++ made ++ tail ∧
     (∀ c, c ∈ tail → ∃ path v, c = tree_set path v) ∧
     ((update_subdev_spec tx_rx mb_i spec st).1 = returns tt →
      length conns = length spec ∧ made = flat_map entry_calls (zip spec conns))) ∧
  (∀ (conns : list string) (mb : mboard_members_t),
     precheck tx_rx mb_i spec st = None →
     _mb st !! mb_i = Some mb →
     Forall2 (λ p conn,
                _tree st !! connection_path ["mboards"; pretty mb_i] tx_rx p
                  = Some (prop_string conn))
             spec conns →
     (∀ p, p ∈ spec →
        (0 ≤ to_int (get_radio_index mb_i (db_name p))
           < Z.of_nat (length (radio_perifs mb)))%Z) →
     (∀ c st', c ∈ flat_map entry_calls (zip spec conns) → set_mux_throws c st' = None) →
     ∃ tail : list call,
       calls (update_subdev_spec tx_rx mb_i spec st).2
       = calls st ++ flat_map entry_calls (zip spec conns) ++ tail ∧
       (∀ c, c ∈ tail → ∃ path v, c = tree_set path v)).
Proof.
  cbn zeta.
  change (λ pc : subdev_spec_pair_t * string,
            if decide (tx_rx = "tx")
            then [tx_fe_set_mux mb_i
                    (Z.to_nat (to_int (get_radio_index mb_i (db_name pc.1)))) pc.2]
            else [ddc_set_mux mb_i
                    (Z.to_nat (to_int (get_radio_index mb_i (db_name pc.1))))
                    pc.2 (fe_swapped_of pc.2);
                  rx_fe_set_mux mb_i
                    (Z.to_nat (to_int (get_radio_index mb_i (db_name pc.1))))
                    (fe_swapped_of pc.2)])
    with (λ pc : subdev_spec_pair_t * string,
            mux_calls tx_rx mb_i (radio_idx_of mb_i pc.1) pc.2).
  split; [apply fe_swapped_of_true|]. split; [done|]. split; [done|].
  split.
  - destruct (update_subdev_spec_calls_along_spec tx_rx mb_i spec st)
      as (conns & Hlen & Hconns & Hret & Hfail).
    destruct (outcome_returns_dec (update_subdev_spec tx_rx mb_i spec st).1)
      as [Hr|Hr].
    + destruct (Hret Hr) as (Hfull & _ & Hcalls).
      eexists conns, _, [_]. split; [done|]. split; [done|].
      split; [done|]. split; [exact Hcalls|].
      split; [intros c ->%list_elem_of_singleton; eauto|].
      intros _. split; [done|]. by rewrite Hfull, firstn_all.
    + destruct (Hfail Hr) as (_ & made & Hprefix & Hcalls).
      exists conns, made, []. split; [done|]. split; [done|].
      split; [done|]. split; [by rewrite app_nil_r|].
      split; [by intros c ?%elem_of_nil|done].
  - intros conns mb Hpre Hmb Hconns Hidx Hnone.
    destruct (update_subdev_spec_reaches tx_rx mb_i spec st conns
                (length (radio_perifs mb)))
      as (tail & Hcalls & Htail & _); [done| |done..|by exists tail].
    apply radio_count_Some. eauto.
Qed.

(** C4: when [update_subdev_spec] returns, the tree holds under
    [<tx_rx>_chan_dsp_mapping] of the motherboard a vector with one entry
    per spec entry, entry [i] being the radio index [get_radio_index] gives
    for the daughterboard name of [spec[i]]; the write of the mapping is the
    last call, made after the mux calls of every spec entry.  A call that
    does not return leaves the tree as it was. *)
Theorem update_subdev_spec_persists_mapping tx_rx mb_i spec st :
  let st' := (update_subdev_spec tx_rx mb_i spec st).2 in
  let path := ["mboards"; pretty mb_i; tx_rx +:+ "_chan_dsp_mapping"] in
  let chan_to_dsp_map :=
    map (λ p, to_int (get_radio_index mb_i (db_name p))) spec in
  ((update_subdev_spec tx_rx mb_i spec st).1 = returns tt →
   _tree st' = <[path := prop_size_vector chan_to_dsp_map]> (_tree st) ∧
   _tree st' !! path = Some (prop_size_vector chan_to_dsp_map) ∧
   length chan_to_dsp_map = length spec ∧
   (∀ i p, spec !! i = Some p →
           chan_to_dsp_map !! i = Some (to_int (get_radio_index mb_i (db_name p)))) ∧
   ∃ conns : list string,
     length conns = length spec ∧
     calls st' =
     calls st
     ++ flat_map (λ pc,
          let radio_idx := Z.to_nat (to_int (get_radio_index mb_i (db_name pc.1))) in
          if decide (tx_rx = "tx") then [tx_fe_set_mux mb_i radio_idx pc.2]
          else [ddc_set_mux mb_i radio_idx pc.2 (fe_swapped_of pc.2);
                rx_fe_set_mux mb_i radio_idx (fe_swapped_of pc.2)])
        (zip spec conns)
     ++ [tree_set path chan_to_dsp_map]) ∧
  ((update_subdev_spec tx_rx mb_i spec st).1 ≠ returns tt → _tree st' = _tree st).
Proof.
  cbn zeta.
  destruct (update_subdev_spec_calls_along_spec tx_rx mb_i spec st)
    as (conns & Hlen & Hconns & Hret & Hfail).
  split; [|by intros [? _]%Hfail].
  intros (Hfull & Htree & Hcalls)%Hret.
  rewrite Hfull, firstn_all in Htree, Hcalls.
  split; [exact Htree|]. split.
  { rewrite Htree. apply lookup_insert_eq. }
  split; [by rewrite length_map|]. split.
  { intros i p Hp. by rewrite list_lookup_fmap, Hp. }
  exists conns. split; [done|]. exact Hcalls.
Qed.

(** C1: for a spec of two entries, a call that returns has the
    daughterboard names "A" and "B" in some order; with any other pair of
    names the call throws (the assertion error of one of the checks here, or
    the exception of [validate_subdev_spec]) before any mux call and leaves
    the whole object as it was.  When the other steps of the call go through
    (the direction is "tx" or "rx", the motherboard index is in range,
    [validate_subdev_spec] accepts the spec, the tree holds a connection
    string for both frontends and the mapping node, both radio indices are
    slots of the motherboard and no mux write throws), the call returns if
    and only if the names are "A" and "B" in some order. *)
Theorem update_subdev_spec_pair_names tx_rx mb_i a b st :
  let names_A_B :=
    (db_name a = "A" ∧ db_name b = "B") ∨ (db_name a = "B" ∧ db_name b = "A") in
  ((update_subdev_spec tx_rx mb_i [a; b] st).1 = returns tt → names_A_B) ∧
  (¬ names_A_B →
   ∃ e, update_subdev_spec tx_rx mb_i [a; b] st = (throws e, st) ∧
        (ex_class e = assertion_error ∨
         validate_subdev_spec (_tree st) [a; b] tx_rx (pretty mb_i) = Some e)) ∧
  (tx_rx = "tx" ∨ tx_rx = "rx" →
   (mb_i < length (_mb st))%nat →
   validate_subdev_spec (_tree st) [a; b] tx_rx (pretty mb_i) = None →
   (∀ p, p ∈ [a; b] →
      ∃ conn, _tree st !! connection_path ["mboards"; pretty mb_i] tx_rx p
              = Some (prop_string conn)) →
   (∀ p mb, p ∈ [a; b] → _mb st !! mb_i = Some mb →
      (0 ≤ to_int (get_radio_index mb_i (db_name p))
         < Z.of_nat (length (radio_perifs mb)))%Z) →
   (∃ v, _tree st !! ["mboards"; pretty mb_i; tx_rx +:+ "_chan_dsp_mapping"]
         = Some (prop_size_vector v)) →
   (∀ c st', set_mux_throws c st' = None) →
   ((update_subdev_spec tx_rx mb_i [a; b] st).1 = returns tt ↔ names_A_B)).
Proof.
  cbn zeta.
  assert ((update_subdev_spec tx_rx mb_i [a; b] st).1 = returns tt →
          (db_name a = "A" ∧ db_name b = "B") ∨ (db_name a = "B" ∧ db_name b = "A"))
    as Honly_if.
  { intros Hret. apply update_subdev_spec_returns in Hret as [Hpre _].
    by apply precheck_pair_None in Hpre as (_ & _ & _ & ?). }
  split; [exact Honly_if|split].
  - intros Hnames. rewrite update_subdev_spec_precheck.
    destruct (precheck tx_rx mb_i [a; b] st) as [e|] eqn:Hpre.
    + exists e. split; [done|]. by eapply precheck_Some.
    + by apply precheck_pair_None in Hpre as (_ & _ & _ & ?).
  - intros Hdir Hmb Hval Hconn Hidx Hmap Hnone. split; [exact Honly_if|].
    intros Hnames.
    destruct (lookup_lt_is_Some_2 (_mb st) mb_i Hmb) as [mb Hmb'].
    apply (update_subdev_spec_succeeds _ _ _ _ (length (radio_perifs mb))).
    + by apply precheck_pair_None.
    + apply radio_count_Some. eauto.
    + intros p Hp. split; [by apply Hconn|by apply Hidx].
    + done.
    + done.
Qed.

(** ** [get_rx_hints] and [get_tx_hints] *)

Lemma get_rx_hints_run mb_index mb st :
  _mb st !! mb_index = Some mb →
  get_rx_hints mb_index st =
  (returns
     (if dict_has_key (recv_args mb) "recv_buff_size" then recv_args mb
      else if decide (xport_path mb = "nirio") then recv_args mb
      else if UHD_PLATFORM_MACOS || UHD_PLATFORM_BSD then
        recv_args mb ++ [("recv_buff_size", pretty X300_RX_SW_BUFF_SIZE_ETH_MACOS)]
      else if UHD_PLATFORM_LINUX || UHD_PLATFORM_WIN32 then
        recv_args mb ++ [("recv_buff_size", pretty X300_RX_SW_BUFF_SIZE_ETH)]
      else recv_args mb),
   st).
Proof.
  intros Hmb. unfold get_rx_hints.
  rewrite bind_get, (at_index_Some _ _ _ Hmb), bind_mret.
  destruct (dict_has_key (recv_args mb) "recv_buff_size") eqn:Hkey; [done|].
  apply dict_has_key_false in Hkey. simpl negb. cbn iota.
  destruct (decide (xport_path mb = "nirio")) as [Hx|Hx].
  - by rewrite decide_False by (by intros ?).
  - rewrite decide_True by done.
    rewrite !(dict_set_absent _ _ _ Hkey).
    by destruct (UHD_PLATFORM_MACOS || UHD_PLATFORM_BSD),
                (UHD_PLATFORM_LINUX || UHD_PLATFORM_WIN32).
Qed.

(** C9: on a build for one of the platforms the file knows (one of the four
    platform macros is defined), for a valid motherboard index neither
    function throws or changes the object.  [get_tx_hints] returns the
    stored send configuration.  [get_rx_hints] returns the stored receive
    configuration when that has a "recv_buff_size" entry or the transport
    path is "nirio"; otherwise it returns the stored configuration with a
    "recv_buff_size" entry added, whose value is the default of the
    platform: the macOS constant under [UHD_PLATFORM_MACOS] or
    [UHD_PLATFORM_BSD], else the ethernet constant. *)
Theorem get_hints_by_platform mb_index mb st :
  UHD_PLATFORM_MACOS || UHD_PLATFORM_BSD
    || UHD_PLATFORM_LINUX || UHD_PLATFORM_WIN32 = true →
  _mb st !! mb_index = Some mb →
  let default :=
    pretty (if UHD_PLATFORM_MACOS || UHD_PLATFORM_BSD
            then X300_RX_SW_BUFF_SIZE_ETH_MACOS else X300_RX_SW_BUFF_SIZE_ETH) in
  get_tx_hints mb_index st = (returns (send_args mb), st) ∧
  ∃ rx_hints,
    get_rx_hints mb_index st = (returns rx_hints, st) ∧
    (dict_has_key (recv_args mb) "recv_buff_size" = true ∨ xport_path mb = "nirio" →
     rx_hints = recv_args mb) ∧
    (dict_has_key (recv_args mb) "recv_buff_size" = false →
     xport_path mb ≠ "nirio" →
     rx_hints = recv_args mb ++ [("recv_buff_size", default)] ∧
     dict_get rx_hints "recv_buff_size" = Some default).
Proof.
  intros Hplatform Hmb. cbn zeta. split.
  { unfold get_tx_hints. by rewrite bind_get, (at_index_Some _ _ _ Hmb), bind_mret. }
  eexists. split; [by apply get_rx_hints_run|]. split.
  - intros [->|Hx]; [done|].
    destruct (dict_has_key _ _); [done|]. by rewrite decide_True.
  - intros Hkey Hx. rewrite Hkey. cbn iota. rewrite decide_False by done.
    assert (∀ v, dict_get (recv_args mb ++ [("recv_buff_size", v)]) "recv_buff_size"
                 = Some v) as Hget.
    { intros v. rewrite dict_get_app, (proj1 (dict_has_key_false _ _) Hkey).
      done. }
    destruct (UHD_PLATFORM_MACOS || UHD_PLATFORM_BSD) eqn:Hmac; [by split|].
    simpl in Hplatform. rewrite Hplatform. by split.
Qed.

(** ** [post_streamer_hooks] *)

Lemma log_calls_nil st : log_calls [] st = st.
Proof. destruct st. unfold log_calls; simpl. by rewrite app_nil_r. Qed.

Lemma log_calls_app l1 l2 st : log_calls l2 (log_calls l1 st) = log_calls (l1 ++ l2) st.
Proof. unfold log_calls; simpl. by rewrite app_assoc. Qed.

Lemma collect_radios_run radio_ctrl_blks radios st :
  let found := map (λ radio_blk, (get_device_no radio_blk, get_block_count radio_blk))
                   radio_ctrl_blks in
  collect_radios radio_ctrl_blks radios st =
  if forallb (radio_exists st) found then (returns (radios ++ found), st)
  else (undefined_behaviour, st).
Proof.
  cbn zeta. revert radios.
  induction radio_ctrl_blks as [|blk blks IH]; intros radios; simpl.
  - by rewrite app_nil_r.
  - rewrite bind_get. unfold radio_exists at 1. simpl.
    destruct (_mb st !! get_device_no blk) as [mb|] eqn:Hmb.
    + rewrite (at_index_Some _ _ _ Hmb), bind_mret.
      case_bool_decide as Hlt.
      * destruct (lookup_lt_is_Some_2 _ _ Hlt) as [perif Hperif].
        rewrite (at_index_Some _ _ _ Hperif), bind_mret, IH. simpl.
        by rewrite <-app_assoc.
      * rewrite at_index_None; [done|]. apply lookup_ge_None. lia.
    + by rewrite (at_index_None _ _ Hmb).
Qed.

Lemma sync_streamer_run streamer_w st :
  sync_streamer streamer_w st =
  match live_send st streamer_w with
  | None => (returns tt, st)
  | Some s =>
      if forallb (radio_exists st) (group_of s) then
        (match synchronize_dacs_throws (group_of s) st with
         | None => returns tt
         | Some ex => throws (sync_failure ex)
         end,
         log_calls [synchronize_dacs (group_of s)] st)
      else (undefined_behaviour, st)
  end.
Proof.
  unfold sync_streamer, live_send, lock_send.
  unfold mbind at 1, M_bind at 1. cbn beta iota.
  destruct streamer_w as [h|]; simpl; [|done].
  destruct (tx_objects st !! h) as [[s|]|] eqn:Hh; [|done..].
  unfold mbind at 1, M_bind at 1, deref_send. rewrite Hh.
  unfold mbind at 1, M_bind at 1.
  rewrite collect_radios_run. fold (group_of s).
  destruct (forallb (radio_exists st) (group_of s)); [|done].
  unfold try_catch_io_error, call_synchronize_dacs, sync_failure. simpl.
  destruct (synchronize_dacs_throws (group_of s) st) as [ex|]; [|done].
  by case_decide.
Qed.

Lemma sync_loop_run ws st :
  let groups := omap (λ streamer_w, group_of <$> live_send st streamer_w) ws in
  ∃ k,
    (for_each ws sync_streamer st).2
      = log_calls (map synchronize_dacs (take k groups)) st ∧
    ((for_each ws sync_streamer st).1 = returns tt → k = length groups) ∧
    ((∀ g, g ∈ groups → forallb (radio_exists st) g = true) →
     (∀ g l, g ∈ groups → synchronize_dacs_throws g (log_calls l st) = None) →
     (for_each ws sync_streamer st).1 = returns tt).
Proof.
  cbn zeta. revert st. induction ws as [|w ws IH]; intros st; simpl.
  - exists 0%nat. by rewrite log_calls_nil.
  - unfold mbind at 1 2 3, M_bind at 1 2 3. rewrite sync_streamer_run.
    destruct (live_send st w) as [s|] eqn:Hlive; simpl; [|apply IH].
    destruct (forallb (radio_exists st) (group_of s)) eqn:Hexists.
    2:{ exists 0%nat. simpl. rewrite log_calls_nil. split; [done|]. split; [done|].
        intros Hall _. rewrite Hall in Hexists; [done|left]. }
    destruct (synchronize_dacs_throws (group_of s) st) as [ex|] eqn:Hsync.
    { exists 1%nat. simpl. split; [by rewrite ?take_0|]. split; [done|].
      intros _ Hnone. specialize (Hnone (group_of s) []).
      rewrite log_calls_nil, Hsync in Hnone. by discriminate Hnone; left. }
    destruct (IH (log_calls [synchronize_dacs (group_of s)] st))
      as (k & Hst & Hret & Hok).
    change (omap (λ streamer_w, group_of <$> live_send
              (log_calls [synchronize_dacs (group_of s)] st) streamer_w) ws)
      with (omap (λ streamer_w, group_of <$> live_send st streamer_w) ws)
      in Hst, Hret, Hok.
    exists (S k). simpl. split; [by rewrite Hst, log_calls_app|].
    split; [by intros ->%Hret|].
    intros Hall Hnone. apply Hok.
    + intros g Hg. apply (Hall g). by right.
    + intros g l Hg. rewrite log_calls_app. apply Hnone. by right.
Qed.

(** C5: [post_streamer_hooks] does nothing for RX.  For TX it leaves the
    object as it was except for the recorded calls, to which it adds one
    [synchronize_dacs] call per live TX endpoint it reaches, in registry
    order, each with the whole group of radios found downstream of that
    endpoint; when the call returns, every live TX endpoint got its one
    call.  It returns when the radios found exist and the primitive does not
    throw. *)
Theorem post_streamer_hooks_one_sync_per_endpoint st :
  post_streamer_hooks false st = (returns tt, st) ∧
  (∃ k,
     (post_streamer_hooks true st).2
       = log_calls (map synchronize_dacs (take k (sync_groups st))) st ∧
     ((post_streamer_hooks true st).1 = returns tt → k = length (sync_groups st))) ∧
  ((∀ g, g ∈ sync_groups st → forallb (radio_exists st) g = true) →
   (∀ g l, g ∈ sync_groups st → synchronize_dacs_throws g (log_calls l st) = None) →
   (post_streamer_hooks true st).1 = returns tt ∧
   calls (post_streamer_hooks true st).2
     = calls st ++ map synchronize_dacs (sync_groups st)).
Proof.
  split; [done|].
  change (post_streamer_hooks true st)
    with (for_each (dict_vals (_tx_streamers st)) sync_streamer st).
  destruct (sync_loop_run (dict_vals (_tx_streamers st)) st) as (k & Hst & Hret & Hok).
  fold (sync_groups st) in Hst, Hret, Hok.
  split; [by exists k|].
  intros Hall Hnone. specialize (Hok Hall Hnone). split; [done|].
  rewrite Hst, (Hret Hok). simpl. by rewrite firstn_all.
Qed.

(** C6 (as amended): when [synchronize_dacs] throws an [io_error] for the
    group of a live TX endpoint that the loop reaches, [post_streamer_hooks]
    ends there: it throws one [io_error] whose message is the text
    "Failed to sync DACs! " followed by the message of the underlying error
    (the group size is not part of it).  The calls made are the ones for the
    live endpoints earlier in the registry and the failed one; no call is
    made for the endpoints after it. *)
Theorem post_streamer_hooks_stops_at_sync_failure st ws1 h s ws2 st1 ex :
  dict_vals (_tx_streamers st) = ws1 ++ Some h :: ws2 →
  for_each ws1 sync_streamer st = (returns tt, st1) →
  tx_objects st !! h = Some (send_object s) →
  forallb (radio_exists st) (group_of s) = true →
  synchronize_dacs_throws (group_of s) st1 = Some ex →
  ex_class ex = io_error →
  post_streamer_hooks true st =
    (throws {| ex_class := io_error;
               what := "Failed to sync DACs! " +:+ what ex +:+ " " |},
     log_calls
       (map synchronize_dacs
            (omap (λ streamer_w, group_of <$> live_send st streamer_w) ws1)
        ++ [synchronize_dacs (group_of s)])
       st).
Proof.
  intros Hvals Hpre Hlive Hexists Hsync Hio.
  change (post_streamer_hooks true st)
    with (for_each (dict_vals (_tx_streamers st)) sync_streamer st).
  rewrite Hvals, for_each_app, Hpre.
  destruct (sync_loop_run ws1 st) as (k & Hst & Hret & _).
  rewrite Hpre in Hst, Hret. simpl in Hst, Hret.
  rewrite (Hret eq_refl), firstn_all in Hst. subst st1.
  simpl. unfold mbind, M_bind. rewrite sync_streamer_run.
  unfold live_send at 1. simpl. rewrite Hlive.
  change (forallb (radio_exists (log_calls _ st)) (group_of s))
    with (forallb (radio_exists st) (group_of s)).
  rewrite Hexists, Hsync, log_calls_app.
  unfold sync_failure. by rewrite decide_True.
Qed.

(** * Further properties of the member functions *)


(** ** [update_tick_rate] called again *)

Lemma on_send_apply_rate_twice rate1 rate2 o :
  on_send (apply_rate rate2) (on_send (apply_rate rate1) o) = on_send (apply_rate rate2) o.
Proof. by destruct o. Qed.

Lemma alter_targets_twice {V} (F1 F2 : V → V) tgt (m : gmap nat V) keys :
  (∀ x, F1 (F1 x) = F1 x) → (∀ x, F2 (F2 x) = F2 x) → (∀ x, F2 (F1 x) = F2 x) →
  alter_targets F2 tgt (alter_targets F1 tgt m keys) keys = alter_targets F2 tgt m keys.
Proof.
  only_mentioned.
  intros H1 H2 H21. apply map_eq; intros h.
  rewrite !alter_targets_lookup by done.
  case_bool_decide; [|done].
  destruct (m !! h); simpl; [by rewrite H21|done].
Qed.

(** X1: a second [update_tick_rate] for the same motherboard replaces the
    first: the object ends as if only the second call had been made, so the
    call is idempotent; and the RX streamers end the same whatever rate is
    passed. *)
Theorem update_tick_rate_last_call_wins mb_index rate1 rate2 st :
  Forall (λ k, is_Some (block_id_device_no k)) (dict_keys (_rx_streamers st)) →
  Forall (λ k, is_Some (block_id_device_no k)) (dict_keys (_tx_streamers st)) →
  update_tick_rate mb_index rate2 (update_tick_rate mb_index rate1 st).2
  = update_tick_rate mb_index rate2 st ∧
  rx_objects (update_tick_rate mb_index rate1 st).2
  = rx_objects (update_tick_rate mb_index rate2 st).2.
Proof.
  intros Hrx Htx. rewrite !(update_tick_rate_run _ _ st) by done. simpl.
  split; [|done].
  rewrite update_tick_rate_run by done. simpl. f_equal.
  unfold set_tx_objects, set_rx_objects. simpl. f_equal.
  - apply alter_targets_twice; intros o; apply on_recv_refresh_idem.
  - apply alter_targets_twice; intros o;
      apply on_send_apply_rate_idem || apply on_send_apply_rate_twice.
Qed.

(** ** [update_rx_samp_rate] and [update_tx_samp_rate] side by side *)

(** X2: an RX and a TX sample rate update do not interfere: made in either
    order, for any motherboards, DSP numbers and rates whose radio slots
    exist, they return and leave the same object. *)
Theorem update_rx_tx_samp_rate_commute mb_rx mb_tx perif_rx perif_tx
    dsp_rx dsp_tx rate_rx rate_tx st :
  radio_perifs mb_rx !! dsp_rx = Some perif_rx →
  radio_perifs mb_tx !! dsp_tx = Some perif_tx →
  update_tx_samp_rate mb_tx dsp_tx rate_tx (update_rx_samp_rate mb_rx dsp_rx rate_rx st).2
  = (returns tt,
     (update_rx_samp_rate mb_rx dsp_rx rate_rx
        (update_tx_samp_rate mb_tx dsp_tx rate_tx st).2).2) ∧
  update_rx_samp_rate mb_rx dsp_rx rate_rx (update_tx_samp_rate mb_tx dsp_tx rate_tx st).2
  = (returns tt,
     (update_tx_samp_rate mb_tx dsp_tx rate_tx
        (update_rx_samp_rate mb_rx dsp_rx rate_rx st).2).2).
Proof.
  intros Hrx Htx.
  rewrite (update_rx_samp_rate_run _ _ _ st), (update_tx_samp_rate_run _ _ _ st).
  rewrite Hrx, Htx.
  destruct (resolve_recv st (radio_block_id dsp_rx)) as [h|] eqn:Hh,
           (resolve_send st (radio_block_id dsp_tx)) as [h'|] eqn:Hh'; cbn zeta; simpl;
    rewrite update_rx_samp_rate_run, update_tx_samp_rate_run, Hrx, Htx;
    unfold resolve_recv, resolve_send in *; simpl; rewrite ?Hh, ?Hh'; done.
Qed.

(** ** What [update_subdev_spec] leaves alone *)

Lemma mux_only_refl tx_rx p : mux_only tx_rx p p.
Proof. only_mentioned. unfold mux_only. by case_decide. Qed.

Lemma mux_only_trans tx_rx p1 p2 p3 :
  mux_only tx_rx p1 p2 → mux_only tx_rx p2 p3 → mux_only tx_rx p1 p3.
Proof.
  only_mentioned. unfold mux_only. intros (? & ? & H12) (? & ? & H23).
  split; [congruence|]. split; [congruence|].
  case_decide; [destruct H12, H23; split; congruence|congruence].
Qed.

Lemma mboard_mux_only_refl tx_rx mb : mboard_mux_only tx_rx mb mb.
Proof.
  only_mentioned. repeat split. apply Forall2_same_length_lookup_2; [done|].
  intros i p p' Hp Hp'. rewrite Hp in Hp'. injection Hp' as <-. apply mux_only_refl.
Qed.

Lemma mboard_mux_only_trans tx_rx mb1 mb2 mb3 :
  mboard_mux_only tx_rx mb1 mb2 → mboard_mux_only tx_rx mb2 mb3 →
  mboard_mux_only tx_rx mb1 mb3.
Proof.
  only_mentioned. intros (? & ? & ? & H12) (? & ? & ? & H23).
  split; [congruence|]. split; [congruence|]. split; [congruence|].
  eapply Forall2_trans; [|done..]. apply mux_only_trans.
Qed.

Lemma mux_frame_refl tx_rx mb_i st : mux_frame tx_rx mb_i st st.
Proof.
  only_mentioned. repeat split; try done.
  intros mb Hmb. exists mb. split; [done|]. apply mboard_mux_only_refl.
Qed.

Lemma mux_frame_trans tx_rx mb_i st1 st2 st3 :
  mux_frame tx_rx mb_i st1 st2 → mux_frame tx_rx mb_i st2 st3 →
  mux_frame tx_rx mb_i st1 st3.
Proof.
  only_mentioned.
  intros (? & ? & ? & ? & ? & Ho12 & Hi12) (? & ? & ? & ? & ? & Ho23 & Hi23).
  repeat split; try congruence.
  - intros j Hj. by rewrite Ho23, Ho12.
  - intros mb Hmb. destruct (Hi12 mb Hmb) as (mb2 & Hmb2 & H12).
    destruct (Hi23 mb2 Hmb2) as (mb3 & Hmb3 & H23).
    exists mb3. split; [done|]. by eapply mboard_mux_only_trans.
Qed.

Lemma bind_mux_frame {A B} tx_rx mb_i (m : M A) (k : A → M B) st :
  mux_frame tx_rx mb_i st (m st).2 →
  (∀ a st1, mux_frame tx_rx mb_i st1 (k a st1).2) →
  mux_frame tx_rx mb_i st ((m ≫= k) st).2.
Proof.
  only_mentioned. intros Hm Hk. unfold mbind, M_bind.
  destruct (m st) as [[a|e|] st1]; simpl in *; [|done..].
  eapply mux_frame_trans; [done|apply Hk].
Qed.

Lemma program_radio_mux_frame tx_rx mb_i idx f c st :
  (∀ p, mux_only tx_rx p (f p)) →
  mux_frame tx_rx mb_i st (program_radio mb_i idx f c st).2.
Proof.
  intros Hf.
  unfold program_radio. rewrite bind_get. unfold at_index.
  destruct (_mb st !! mb_i) as [mb|] eqn:Hmb; [|apply mux_frame_refl].
  rewrite bind_mret. case_decide; [|apply mux_frame_refl]. cbn zeta.
  destruct (radio_perifs mb !! Z.to_nat idx) as [perif|] eqn:Hperif;
    [|apply mux_frame_refl].
  rewrite bind_mret.
  destruct (set_mux_throws _ _) as [ex|]; [apply (mux_frame_refl tx_rx mb_i st)|].
  simpl.
  repeat split; simpl; try done.
  - by rewrite length_insert.
  - intros j Hj. by rewrite list_lookup_insert_ne.
  - intros mb0 Hmb0. rewrite Hmb in Hmb0. injection Hmb0 as <-.
    eexists. split; [apply list_lookup_insert_eq; by eapply lookup_lt_Some|].
    repeat split. simpl. apply Forall2_same_length_lookup_2; [by rewrite length_insert|].
    intros i p p' Hp Hp'. destruct (decide (i = Z.to_nat idx)) as [->|Hne].
    + rewrite list_lookup_insert_eq in Hp' by (by eapply lookup_lt_Some).
      rewrite Hperif in Hp. simplify_eq. apply Hf.
    + rewrite list_lookup_insert_ne in Hp' by done.
      rewrite Hp in Hp'. simplify_eq. apply mux_only_refl.
Qed.

Lemma setup_mux_entry_mux_frame tx_rx mb_i mb_root spec i m st :
  mux_frame tx_rx mb_i st (setup_mux_entry tx_rx mb_i mb_root spec i m st).2.
Proof.
  unfold setup_mux_entry.
  apply bind_mux_frame; [unfold at_index; destruct (spec !! i); apply mux_frame_refl|].
  intros p st1. rewrite bind_get.
  apply bind_mux_frame;
    [unfold at_index; destruct (_mb st1 !! mb_i); apply mux_frame_refl|].
  intros _ st2.
  apply bind_mux_frame.
  { unfold tree_get_string. destruct (_tree st2 !! _) as [[?|?]|]; apply mux_frame_refl. }
  intros conn st3.
  apply bind_mux_frame; [|intros; apply mux_frame_refl].
  case_decide as Htx.
  - apply program_radio_mux_frame. intros q. unfold mux_only.
    by rewrite decide_True.
  - apply bind_mux_frame; [|intros _ st4];
      apply program_radio_mux_frame; intros q; unfold mux_only;
      by rewrite decide_False.
Qed.

Lemma setup_mux_mux_frame tx_rx mb_i mb_root spec indices m st :
  mux_frame tx_rx mb_i st (setup_mux tx_rx mb_i mb_root spec indices m st).2.
Proof.
  revert m st. induction indices as [|i indices IH]; intros m st; simpl.
  - apply mux_frame_refl.
  - apply bind_mux_frame; [apply setup_mux_entry_mux_frame|]. intros m' st1. apply IH.
Qed.

(** X3: whatever its outcome, [update_subdev_spec] leaves the streamer
    registries and the streamers untouched, keeps the number of motherboards,
    leaves every motherboard other than [mb_i] as it was, and on motherboard
    [mb_i] keeps the stored configurations, the transport path, the number of
    radio slots and every scaling adjustment; a TX call leaves the DDC and RX
    front-end muxes as they were, any other call the TX front-end mux. *)
Theorem update_subdev_spec_frame tx_rx mb_i spec st :
  let st' := (update_subdev_spec tx_rx mb_i spec st).2 in
  _rx_streamers st' = _rx_streamers st ∧ _tx_streamers st' = _tx_streamers st ∧
  rx_objects st' = rx_objects st ∧ tx_objects st' = tx_objects st ∧
  length (_mb st') = length (_mb st) ∧
  (∀ j, j ≠ mb_i → _mb st' !! j = _mb st !! j) ∧
  (∀ mb, _mb st !! mb_i = Some mb →
     ∃ mb', _mb st' !! mb_i = Some mb' ∧
       recv_args mb' = recv_args mb ∧ send_args mb' = send_args mb ∧
       xport_path mb' = xport_path mb ∧
       Forall2 (λ p p',
                  ddc_scaling_adjustment p' = ddc_scaling_adjustment p ∧
                  duc_scaling_adjustment p' = duc_scaling_adjustment p ∧
                  if decide (tx_rx = "tx")
                  then ddc_mux p' = ddc_mux p ∧ rx_fe_mux p' = rx_fe_mux p
                  else tx_fe_mux p' = tx_fe_mux p)
               (radio_perifs mb) (radio_perifs mb')).
Proof.
  cbn zeta. rewrite update_subdev_spec_precheck.
  destruct (precheck tx_rx mb_i spec st) as [e|]; [apply mux_frame_refl|].
  apply (bind_mux_frame tx_rx mb_i); [apply setup_mux_mux_frame|].
  intros v st1. unfold tree_set_size_vector.
  destruct (_tree st1 !! _) as [[?|?]|]; [apply mux_frame_refl| |apply mux_frame_refl].
  repeat split; simpl; try done.
  intros mb Hmb. exists mb. split; [done|]. apply mboard_mux_only_refl.
Qed.

(** ** Argument checks and short specs of [update_subdev_spec] *)

(** X4: a direction other than "tx" and "rx", a motherboard index that is
    not below the number of motherboards, and a spec of more than two entries
    each make [update_subdev_spec] throw with the object unchanged: the
    first two an assertion error before [validate_subdev_spec] is asked, the
    third an assertion error or the exception of [validate_subdev_spec]. *)
Theorem update_subdev_spec_rejects_arguments tx_rx mb_i spec st :
  (tx_rx ≠ "tx" → tx_rx ≠ "rx" →
   ∃ e, update_subdev_spec tx_rx mb_i spec st = (throws e, st) ∧
        ex_class e = assertion_error) ∧
  (¬ (mb_i < length (_mb st))%nat →
   ∃ e, update_subdev_spec tx_rx mb_i spec st = (throws e, st) ∧
        ex_class e = assertion_error) ∧
  ((2 < length spec)%nat →
   ∃ e, update_subdev_spec tx_rx mb_i spec st = (throws e, st) ∧
        (ex_class e = assertion_error ∨
         validate_subdev_spec (_tree st) spec tx_rx (pretty mb_i) = Some e)).
Proof.
  only_mentioned.
  rewrite update_subdev_spec_precheck. unfold precheck. split; [|split].
  - intros Htx Hrx. rewrite !bool_decide_eq_false_2 by done. simpl. by eexists.
  - intros Hmb. destruct (_ || _); simpl; [|by eexists].
    rewrite bool_decide_eq_false_2 by done. simpl. by eexists.
  - intros Hlen. destruct (negb _); [by eexists; split; [|left]|].
    destruct (negb _); [by eexists; split; [|left]|].
    destruct (validate_subdev_spec _ _ _ _) as [e|]; [by eexists; split; [|right]|].
    destruct spec as [|a [|b [|c spec]]]; simpl in Hlen; try lia.
    by eexists; split; [|left].
Qed.

(** X5: with an empty spec no daughterboard name is checked and no mux is
    programmed: when the direction is "tx" or "rx", the motherboard index is
    in range, [validate_subdev_spec] accepts and the mapping node is in the
    tree, the call returns after writing the empty mapping, its only call. *)
Theorem update_subdev_spec_empty tx_rx mb_i st v :
  tx_rx = "tx" ∨ tx_rx = "rx" →
  (mb_i < length (_mb st))%nat →
  validate_subdev_spec (_tree st) [] tx_rx (pretty mb_i) = None →
  _tree st !! ["mboards"; pretty mb_i; tx_rx +:+ "_chan_dsp_mapping"]
    = Some (prop_size_vector v) →
  update_subdev_spec tx_rx mb_i [] st
  = (returns tt,
     log_call (tree_set ["mboards"; pretty mb_i; tx_rx +:+ "_chan_dsp_mapping"] [])
       (set_tree <[["mboards"; pretty mb_i; tx_rx +:+ "_chan_dsp_mapping"]
                   := prop_size_vector []]> st)).
Proof.
  only_mentioned.
  intros Hdir Hmb Hval Hnode. rewrite update_subdev_spec_precheck. unfold precheck.
  rewrite (proj2 (orb_true_iff _ _)) by (rewrite !bool_decide_eq_true; tauto).
  rewrite bool_decide_eq_true_2 by done. simpl negb. cbn iota. rewrite Hval.
  simpl. rewrite bind_mret. unfold tree_set_size_vector. by rewrite Hnode.
Qed.

(** X6: for a spec of one entry, a call that returns has the daughterboard
    name "A" or "B"; with any other name the call throws before any mux call
    and leaves the object unchanged.  With the name "A" or "B" it returns
    under the conditions on direction, motherboard index, validation, tree
    and radio index that hold for two entries, when no mux write throws. *)
Theorem update_subdev_spec_single_name tx_rx mb_i a st :
  ((update_subdev_spec tx_rx mb_i [a] st).1 = returns tt →
   db_name a = "A" ∨ db_name a = "B") ∧
  (db_name a ≠ "A" → db_name a ≠ "B" →
   ∃ e, update_subdev_spec tx_rx mb_i [a] st = (throws e, st) ∧
        (ex_class e = assertion_error ∨
         validate_subdev_spec (_tree st) [a] tx_rx (pretty mb_i) = Some e)) ∧
  (db_name a = "A" ∨ db_name a = "B" →
   tx_rx = "tx" ∨ tx_rx = "rx" →
   (mb_i < length (_mb st))%nat →
   validate_subdev_spec (_tree st) [a] tx_rx (pretty mb_i) = None →
   (∃ conn, _tree st !! connection_path ["mboards"; pretty mb_i] tx_rx a
            = Some (prop_string conn)) →
   (∀ mb, _mb st !! mb_i = Some mb →
      (0 ≤ to_int (get_radio_index mb_i (db_name a))
         < Z.of_nat (length (radio_perifs mb)))%Z) →
   (∃ v, _tree st !! ["mboards"; pretty mb_i; tx_rx +:+ "_chan_dsp_mapping"]
         = Some (prop_size_vector v)) →
   (∀ c st', set_mux_throws c st' = None) →
   (update_subdev_spec tx_rx mb_i [a] st).1 = returns tt).
Proof.
  only_mentioned.
  assert (Hpre : precheck tx_rx mb_i [a] st = None ↔
            (tx_rx = "tx" ∨ tx_rx = "rx") ∧ (mb_i < length (_mb st))%nat ∧
            validate_subdev_spec (_tree st) [a] tx_rx (pretty mb_i) = None ∧
            (db_name a = "A" ∨ db_name a = "B")).
  { unfold precheck.
    destruct (validate_subdev_spec _ _ _ _) as [ex|];
      repeat case_bool_decide; simpl; (split; [intros ?|intros (Hd & Hm & Hv & Hn)]);
      try done; try tauto; try (destruct Hd; congruence);
      try (destruct Hn; congruence). }
  split; [|split].
  - intros Hret. apply update_subdev_spec_returns in Hret as [Hnone _].
    by apply Hpre in Hnone as (_ & _ & _ & ?).
  - intros HA HB. rewrite update_subdev_spec_precheck.
    destruct (precheck tx_rx mb_i [a] st) as [e|] eqn:He.
    + exists e. split; [done|]. by eapply precheck_Some.
    + destruct (proj1 Hpre eq_refl) as (_ & _ & _ & [?|?]); done.
  - intros Hname Hdir Hmb Hval Hconn Hidx Hmap Hnone.
    destruct (lookup_lt_is_Some_2 (_mb st) mb_i Hmb) as [mb Hmb'].
    apply (update_subdev_spec_succeeds _ _ _ _ (length (radio_perifs mb))).
    + by apply Hpre.
    + apply radio_count_Some. eauto.
    + intros p ->%list_elem_of_singleton. split; [done|by apply Hidx].
    + done.
    + done.
Qed.

(** ** No rollback in [update_subdev_spec] *)

(** One iteration whose mux writes go through, with the mux fields it
    leaves. *)
Lemma setup_mux_entry_programs tx_rx mb_i mb_root spec i m st p mb perif conn :
  spec !! i = Some p →
  _mb st !! mb_i = Some mb →
  _tree st !! connection_path mb_root tx_rx p = Some (prop_string conn) →
  (0 ≤ radio_idx_of mb_i p)%Z →
  radio_perifs mb !! Z.to_nat (radio_idx_of mb_i p) = Some perif →
  (∀ c st', c ∈ mux_calls tx_rx mb_i (radio_idx_of mb_i p) conn →
            set_mux_throws c st' = None) →
  ∃ st' mb' perif',
    setup_mux_entry tx_rx mb_i mb_root spec i m st
    = (returns (<[i := to_size_t (radio_idx_of mb_i p)]> m), st') ∧
    _tree st' = _tree st ∧
    calls st' = calls st ++ mux_calls tx_rx mb_i (radio_idx_of mb_i p) conn ∧
    _mb st' !! mb_i = Some mb' ∧
    length (radio_perifs mb') = length (radio_perifs mb) ∧
    radio_perifs mb' !! Z.to_nat (radio_idx_of mb_i p) = Some perif' ∧
    (if decide (tx_rx = "tx") then tx_fe_mux perif' = Some conn
     else ddc_mux perif' = Some (conn, fe_swapped_of conn) ∧
          rx_fe_mux perif' = Some (fe_swapped_of conn)).
Proof.
  intros Hp Hmb Htree Hidx Hperif Hnone.
  pose proof (lookup_lt_Some _ _ _ Hmb) as Hlt_mb.
  pose proof (lookup_lt_Some _ _ _ Hperif) as Hlt_perif.
  unfold setup_mux_entry.
  rewrite (at_index_Some _ _ _ Hp), bind_mret, bind_get.
  rewrite (at_index_Some _ _ _ Hmb), bind_mret.
  unfold tree_get_string at 1. unfold mbind at 1, M_bind at 1. rewrite Htree.
  fold (radio_idx_of mb_i p). unfold mux_calls in *.
  destruct (decide (tx_rx = "tx")) as [Htx|Htx].
  - unfold mbind, M_bind.
    rewrite (program_radio_run _ _ _ _ _ _ _ Hmb Hidx Hperif), Hnone by left.
    eexists _, _, _. split; [done|]. simpl. split; [done|]. split; [done|].
    split; [by apply list_lookup_insert_eq|]. simpl.
    split; [by rewrite length_insert|].
    split; [by apply list_lookup_insert_eq|]. done.
  - unfold mbind, M_bind. cbn zeta.
    rewrite (program_radio_run _ _ _ _ _ _ _ Hmb Hidx Hperif), Hnone by left.
    erewrite program_radio_run; [|simpl; by apply list_lookup_insert_eq|done
                                 |simpl; by apply list_lookup_insert_eq].
    rewrite Hnone by (right; left).
    eexists _, _, _. split; [done|]. simpl. split; [done|].
    split; [by rewrite <-app_assoc|].
    split; [apply list_lookup_insert_eq; by rewrite length_insert|]. simpl.
    split; [by rewrite !length_insert|].
    split; [apply list_lookup_insert_eq; by rewrite length_insert|]. done.
Qed.

(** One iteration whose connection is not in the tree. *)
Lemma setup_mux_entry_missing_connection tx_rx mb_i mb_root spec i m st p mb :
  spec !! i = Some p →
  _mb st !! mb_i = Some mb →
  _tree st !! connection_path mb_root tx_rx p = None →
  setup_mux_entry tx_rx mb_i mb_root spec i m st
  = (throws {| ex_class := lookup_error; what := "Path not found in tree" |}, st).
Proof.
  intros Hp Hmb Htree. unfold setup_mux_entry.
  rewrite (at_index_Some _ _ _ Hp), bind_mret, bind_get.
  rewrite (at_index_Some _ _ _ Hmb), bind_mret.
  unfold tree_get_string at 1. unfold mbind at 1, M_bind at 1. by rewrite Htree.
Qed.

(** One iteration whose first mux write throws. *)
Lemma setup_mux_entry_write_fails tx_rx mb_i mb_root spec i m st p mb perif conn e :
  spec !! i = Some p →
  _mb st !! mb_i = Some mb →
  _tree st !! connection_path mb_root tx_rx p = Some (prop_string conn) →
  (0 ≤ radio_idx_of mb_i p)%Z →
  radio_perifs mb !! Z.to_nat (radio_idx_of mb_i p) = Some perif →
  set_mux_throws (first_mux_call tx_rx mb_i (radio_idx_of mb_i p) conn) st = Some e →
  setup_mux_entry tx_rx mb_i mb_root spec i m st
  = (throws e, log_call (first_mux_call tx_rx mb_i (radio_idx_of mb_i p) conn) st).
Proof.
  intros Hp Hmb Htree Hidx Hperif Hthrows.
  unfold setup_mux_entry.
  rewrite (at_index_Some _ _ _ Hp), bind_mret, bind_get.
  rewrite (at_index_Some _ _ _ Hmb), bind_mret.
  unfold tree_get_string at 1. unfold mbind at 1, M_bind at 1. rewrite Htree.
  fold (radio_idx_of mb_i p). unfold first_mux_call in *.
  destruct (decide (tx_rx = "tx")) as [Htx|Htx]; unfold mbind, M_bind; cbn zeta;
    by rewrite (program_radio_run _ _ _ _ _ _ _ Hmb Hidx Hperif), Hthrows.
Qed.

(** X7: there is no rollback.  Take a spec of two entries that passes the
    checks and whose first entry is programmed (its connection is in the
    tree, its radio index is a slot and its mux writes go through).  When
    the second entry then fails, because its connection is not in the tree
    or because its first mux write throws, the call throws (the lookup error
    of the tree, or the exception of the mux write as it is), the mapping is
    not written, and the mux of the first entry stays programmed: its calls
    are recorded and its radio holds the new mux values. *)
Theorem update_subdev_spec_no_rollback tx_rx mb_i a b st mb perif conn :
  (db_name a = "A" ∧ db_name b = "B") ∨ (db_name a = "B" ∧ db_name b = "A") →
  tx_rx = "tx" ∨ tx_rx = "rx" →
  validate_subdev_spec (_tree st) [a; b] tx_rx (pretty mb_i) = None →
  _mb st !! mb_i = Some mb →
  _tree st !! connection_path ["mboards"; pretty mb_i] tx_rx a = Some (prop_string conn) →
  (0 ≤ to_int (get_radio_index mb_i (db_name a)))%Z →
  radio_perifs mb !! Z.to_nat (to_int (get_radio_index mb_i (db_name a))) = Some perif →
  let radio_a := Z.to_nat (to_int (get_radio_index mb_i (db_name a))) in
  let calls_a :=
    if decide (tx_rx = "tx") then [tx_fe_set_mux mb_i radio_a conn]
    else [ddc_set_mux mb_i radio_a conn (fe_swapped_of conn);
          rx_fe_set_mux mb_i radio_a (fe_swapped_of conn)] in
  (∀ c st', c ∈ calls_a → set_mux_throws c st' = None) →
  let st' := (update_subdev_spec tx_rx mb_i [a; b] st).2 in
  let first_stays :=
    ∃ mb' perif',
      _mb st' !! mb_i = Some mb' ∧ radio_perifs mb' !! radio_a = Some perif' ∧
      (if decide (tx_rx = "tx") then tx_fe_mux perif' = Some conn
       else ddc_mux perif' = Some (conn, fe_swapped_of conn) ∧
            rx_fe_mux perif' = Some (fe_swapped_of conn)) in
  (_tree st !! connection_path ["mboards"; pretty mb_i] tx_rx b = None →
   (update_subdev_spec tx_rx mb_i [a; b] st).1
   = throws {| ex_class := lookup_error; what := "Path not found in tree" |} ∧
   _tree st' = _tree st ∧
   calls st' = calls st ++ calls_a ∧
   first_stays) ∧
  (∀ conn_b e,
     _tree st !! connection_path ["mboards"; pretty mb_i] tx_rx b
       = Some (prop_string conn_b) →
     (0 ≤ to_int (get_radio_index mb_i (db_name b))
        < Z.of_nat (length (radio_perifs mb)))%Z →
     let radio_b := Z.to_nat (to_int (get_radio_index mb_i (db_name b))) in
     let write_b :=
       if decide (tx_rx = "tx") then tx_fe_set_mux mb_i radio_b conn_b
       else ddc_set_mux mb_i radio_b conn_b (fe_swapped_of conn_b) in
     (∀ st'', set_mux_throws write_b st'' = Some e) →
     (update_subdev_spec tx_rx mb_i [a; b] st).1 = throws e ∧
     _tree st' = _tree st ∧
     calls st' = calls st ++ calls_a ++ [write_b] ∧
     first_stays).
Proof.
  intros Hnames Hdir Hval Hmb Hconn Hidx Hperif. cbn zeta. intros Hnone.
  change (if decide (tx_rx = "tx")
          then [tx_fe_set_mux mb_i
                  (Z.to_nat (to_int (get_radio_index mb_i (db_name a)))) conn]
          else [ddc_set_mux mb_i
                  (Z.to_nat (to_int (get_radio_index mb_i (db_name a))))
                  conn (fe_swapped_of conn);
                rx_fe_set_mux mb_i
                  (Z.to_nat (to_int (get_radio_index mb_i (db_name a))))
                  (fe_swapped_of conn)])
    with (mux_calls tx_rx mb_i (radio_idx_of mb_i a) conn) in *.
  destruct (setup_mux_entry_programs tx_rx mb_i ["mboards"; pretty mb_i] [a; b] 0
              [0%Z; 0%Z] st a mb perif conn)
    as (st1 & mb1 & perif1 & Hrun & Htree & Hcalls & Hmb1 & Hlen1 & Hperif1 & Hmux);
    [done..|].
  assert (∀ o st2,
            setup_mux_entry tx_rx mb_i ["mboards"; pretty mb_i] [a; b] 1
              (<[0%nat := to_size_t (radio_idx_of mb_i a)]> [0%Z; 0%Z]) st1
            = (throws o, st2) →
            update_subdev_spec tx_rx mb_i [a; b] st = (throws o, st2)) as Hsecond.
  { intros o st2 Hrun2. rewrite update_subdev_spec_precheck.
    rewrite (proj2 (precheck_pair_None tx_rx mb_i a b st));
      [|split; [done|split; [by eapply lookup_lt_Some|done]]].
    simpl setup_mux. unfold mbind, M_bind. rewrite Hrun. by rewrite Hrun2. }
  split.
  - intros Hmissing.
    rewrite (Hsecond {| ex_class := lookup_error; what := "Path not found in tree" |}
               st1);
      [|by apply (setup_mux_entry_missing_connection _ _ _ _ _ _ _ b mb1);
          [| |rewrite Htree]].
    simpl. split; [done|]. split; [done|]. split; [done|]. by exists mb1, perif1.
  - intros conn_b e Hconn_b Hidx_b Hthrows.
    destruct (lookup_lt_is_Some_2 (radio_perifs mb1)
                (Z.to_nat (radio_idx_of mb_i b))) as [perif_b Hperif_b].
    { rewrite Hlen1. unfold radio_idx_of. lia. }
    rewrite (Hsecond e (log_call (first_mux_call tx_rx mb_i (radio_idx_of mb_i b) conn_b)
                          st1)).
    2:{ apply (setup_mux_entry_write_fails _ _ _ _ _ _ _ b mb1 perif_b);
          [done|done|by rewrite Htree|apply Hidx_b|done|].
        unfold first_mux_call, radio_idx_of. apply Hthrows. }
    simpl. split; [done|]. split; [done|]. split.
    + rewrite Hcalls, <-app_assoc. unfold first_mux_call, radio_idx_of. done.
    + by exists mb1, perif1.
Qed.

(** ** [get_rx_hints] and the stored configuration *)

(** X8: [get_rx_hints] never overrides a stored value.  Every key of the
    stored receive configuration reads the same in the returned map, the
    stored entries come first and in their order, and the only key that can
    read differently is "recv_buff_size". *)
Theorem get_rx_hints_keeps_stored_values mb_index mb st :
  _mb st !! mb_index = Some mb →
  ∃ rx_hints,
    get_rx_hints mb_index st = (returns rx_hints, st) ∧
    recv_args mb `prefix_of` rx_hints ∧
    (∀ k v, dict_get (recv_args mb) k = Some v → dict_get rx_hints k = Some v) ∧
    (∀ k, k ≠ "recv_buff_size" → dict_get rx_hints k = dict_get (recv_args mb) k).
Proof.
  intros Hmb. eexists. split; [by apply get_rx_hints_run|].
  destruct (dict_has_key _ _); [done|].
  destruct (decide _); [done|].
  destruct (_ || _); [|destruct (_ || _); [|done]].
  all: split; [by eexists|]; split; [intros k v Hk|intros k Hk];
    rewrite dict_get_app; [by rewrite Hk|]; simpl;
    rewrite decide_False by done; by destruct (dict_get _ _).
Qed.

(** ** [post_streamer_hooks]: other exceptions and idle registries *)

(** X9: the handler of [post_streamer_hooks] catches [uhd::io_error] only.
    When [synchronize_dacs] throws an exception of another class for the
    group of a live TX endpoint that the loop reaches, that exception leaves
    the call as it is, with its class and message; the endpoints after it
    get no call. *)
Theorem post_streamer_hooks_passes_other_errors st ws1 h s ws2 st1 ex :
  dict_vals (_tx_streamers st) = ws1 ++ Some h :: ws2 →
  for_each ws1 sync_streamer st = (returns tt, st1) →
  tx_objects st !! h = Some (send_object s) →
  forallb (radio_exists st) (group_of s) = true →
  synchronize_dacs_throws (group_of s) st1 = Some ex →
  ex_class ex ≠ io_error →
  post_streamer_hooks true st =
    (throws ex,
     log_calls
       (map synchronize_dacs
            (omap (λ streamer_w, group_of <$> live_send st streamer_w) ws1)
        ++ [synchronize_dacs (group_of s)])
       st).
Proof.
  intros Hvals Hpre Hlive Hexists Hsync Hio.
  change (post_streamer_hooks true st)
    with (for_each (dict_vals (_tx_streamers st)) sync_streamer st).
  rewrite Hvals, for_each_app, Hpre.
  destruct (sync_loop_run ws1 st) as (k & Hst & Hret & _).
  rewrite Hpre in Hst, Hret. simpl in Hst, Hret.
  rewrite (Hret eq_refl), firstn_all in Hst. subst st1.
  simpl. unfold mbind, M_bind. rewrite sync_streamer_run.
  unfold live_send at 1. simpl. rewrite Hlive.
  change (forallb (radio_exists (log_calls _ st)) (group_of s))
    with (forallb (radio_exists st) (group_of s)).
  rewrite Hexists, Hsync, log_calls_app.
  unfold sync_failure. by rewrite decide_False.
Qed.

(** X10: expired streamers and streamers of another kind are skipped.  When
    no entry of the TX registry leads to a live packet streamer,
    [post_streamer_hooks] returns and leaves the object as it was: no
    [synchronize_dacs] call is made. *)
Theorem post_streamer_hooks_idle st :
  (∀ streamer_w, streamer_w ∈ dict_vals (_tx_streamers st) →
                 live_send st streamer_w = None) →
  post_streamer_hooks true st = (returns tt, st).
Proof.
  change (post_streamer_hooks true st)
    with (for_each (dict_vals (_tx_streamers st)) sync_streamer st).
  induction (dict_vals (_tx_streamers st)) as [|w ws IH]; intros Hdead; [done|].
  simpl. unfold mbind, M_bind. rewrite sync_streamer_run.
  rewrite Hdead by left. apply IH. intros w' Hw'. apply Hdead. by right.
Qed.

(** ** Registry keys of the radios *)

(** X11: the registry key built from a DSP number names that number:
    different DSP numbers give different keys, so the sample rate updates of
    two radios never look up the same registry entry. *)
Theorem radio_block_id_distinct dspno1 dspno2 :
  dspno1 ≠ dspno2 → radio_block_id dspno1 ≠ radio_block_id dspno2.
Proof.
  only_mentioned.
  unfold radio_block_id. intros Hne Heq. apply Hne. clear Hne.
  simplify_eq/=. by apply (inj pretty).
Qed.

End x300_io_impl.

(** * Properties of the module loading *)

Section load_modules_properties.
Context `{host}.

Lemma dir_entry_ind (P : dir_entry → Prop) :
  (∀ p, P (missing p)) →
  (∀ p lines, P (regular_file p lines)) →
  (∀ p, P (other_file p)) →
  (∀ p entries, Forall P entries → P (directory p entries)) →
  ∀ path, P path.
Proof.
  intros Hmissing Hregular Hother Hdirectory. fix IH 1.
  intros [p|p lines|p|p entries];
    [apply Hmissing|apply Hregular|apply Hother|apply Hdirectory].
  revert entries. fix IHentries 1.
  intros [|e entries]; constructor; [apply IH|apply IHentries].
Qed.

(** ** The monad and the loop *)

Lemma for_all_cons {A} (body : A → loading unit) x l st :
  for_all body (x :: l) st =
  match body x st with
  | (completes _, st') => for_all body l st'
  | (raises e, st') => (raises e, st')
  end.
Proof. done. Qed.

Lemma for_all_app {A} (body : A → loading unit) l1 l2 st :
  for_all body (l1 ++ l2) st =
  match for_all body l1 st with
  | (completes _, st') => for_all body l2 st'
  | (raises e, st') => (raises e, st')
  end.
Proof.
  revert st. induction l1 as [|x l1 IH]; intros st; [done|].
  rewrite <-app_comm_cons, !for_all_cons.
  destruct (body x st) as [[[]|e] st1]; [apply IH|done].
Qed.

(** A loop whose body is a loop runs over the concatenation. *)
Lemma for_all_flat_map {A B} (body : B → loading unit) (f : A → list B) l st :
  for_all (λ x, for_all body (f x)) l st = for_all body (flat_map f l) st.
Proof.
  revert st. induction l as [|x l IH]; intros st; [done|].
  simpl flat_map. rewrite for_all_cons, for_all_app.
  destruct (for_all body (f x) st) as [[[]|e] st1]; [apply IH|done].
Qed.

Lemma for_all_ext {A} (body1 body2 : A → loading unit) l st :
  (∀ x st, x ∈ l → body1 x st = body2 x st) →
  for_all body1 l st = for_all body2 l st.
Proof.
  revert st. induction l as [|x l IH]; intros st Hext; [done|].
  rewrite !for_all_cons, Hext by left.
  destruct (body2 x st) as [[[]|e] st1]; [|done].
  apply IH. intros y st' Hy. apply Hext. by right.
Qed.

Lemma with_cerr_nil st : with_cerr [] st = st.
Proof. destruct st. unfold with_cerr; simpl. by rewrite app_nil_r. Qed.

Lemma with_cerr_app l1 l2 st : with_cerr l2 (with_cerr l1 st) = with_cerr (l1 ++ l2) st.
Proof. unfold with_cerr; simpl. by rewrite app_assoc. Qed.

(** ** [load_module] *)

Lemma load_module_run file_name st :
  load_module file_name st =
  match load_macro with
  | HAVE_LOAD_MODULES_DUMMY => (raises (load_failure file_name), st)
  | _ =>
      if native_load (modules st) file_name then
        (completes tt,
         {| native_calls := native_calls st ++ [file_name];
            modules := modules st ++ [file_name]; cerr := cerr st |})
      else
        (raises (load_failure file_name),
         {| native_calls := native_calls st ++ [file_name];
            modules := modules st; cerr := cerr st |})
  end.
Proof.
  unfold load_module, load_failure, native_call.
  destruct load_macro; [| |done];
    unfold mbind, loading_bind; by destruct (native_load _ _).
Qed.

(** ** [load_module_path] *)

Lemma attempted_nil st : attempted [] st st.
Proof.
  split; [unfold native_args; destruct load_macro; by rewrite app_nil_r|].
  exists [], []. rewrite !app_nil_r. by repeat split.
Qed.

Lemma attempted_app files1 files2 st st1 st2 :
  attempted files1 st st1 → attempted files2 st1 st2 →
  attempted (files1 ++ files2) st st2.
Proof.
  intros (Hc1 & ms1 & es1 & Hm1 & He1 & Hs1 & Hl1 & Hf1)
         (Hc2 & ms2 & es2 & Hm2 & He2 & Hs2 & Hl2 & Hf2).
  split.
  { rewrite Hc2, Hc1, <-app_assoc. unfold native_args. by destruct load_macro. }
  exists (ms1 ++ ms2), (es1 ++ es2).
  rewrite Hm2, Hm1, He2, He1, <-!app_assoc, !length_app.
  repeat split; [by apply sublist_app|lia|by apply Forall_app].
Qed.

(** The non-directory branch: one attempt, never an exception. *)
Lemma try_load_run p st :
  ∃ st',
    try_catch (load_module p) (λ err, cerr_line ("Error: " +:+ exception_what err)) st
    = (completes tt, st') ∧
    attempted [p] st st'.
Proof.
  unfold try_catch, attempted, native_args. rewrite load_module_run.
  destruct load_macro eqn:Hmacro;
    [destruct (native_load (modules st) p)..|]; eexists; (split; [done|]); simpl.
  1, 3: split; [done|]; exists [p], []; rewrite app_nil_r; by repeat constructor.
  1, 2: split; [done|]; eexists [], [_]; rewrite app_nil_r;
    repeat split; [apply sublist_nil_l|by repeat constructor; eexists].
  split; [by rewrite app_nil_r|]. eexists [], [_]. rewrite app_nil_r.
  repeat split; [apply sublist_nil_l|by repeat constructor; eexists].
Qed.

Lemma load_module_path_run path st :
  ∃ st', load_module_path path st = (completes tt, st') ∧
         attempted (files_of path) st st'.
Proof.
  revert st. induction path as [p|p lines|p|p entries IH] using dir_entry_ind;
    intros st.
  - exists st. split; [done|apply attempted_nil].
  - apply try_load_run.
  - apply try_load_run.
  - change (load_module_path (directory p entries))
      with (for_all load_module_path entries).
    simpl files_of. clear p. revert st.
    induction IH as [|e entries He _ IHentries]; intros st.
    + exists st. split; [done|apply attempted_nil].
    + destruct (He st) as (st1 & Hrun1 & Hatt1).
      destruct (IHentries st1) as (st2 & Hrun2 & Hatt2).
      exists st2. rewrite for_all_cons, Hrun1. split; [done|].
      simpl flat_map. by eapply attempted_app.
Qed.

(** X12: [load_module_path] does not throw, whatever the loader does.  It
    tries every entry below the path that exists and is no directory once,
    in the order of the traversal: the native loader is called with each
    (never in a build without a loader), the ones that load are added to the
    loaded modules in that order, and each of the others leaves one line
    starting with "Error: " on [std::cerr]. *)
Theorem load_module_path_does_not_throw path st :
  ∃ st',
    load_module_path path st = (completes tt, st') ∧
    native_calls st' = native_calls st ++ native_args (files_of path) ∧
    ∃ loaded errors,
      modules st' = modules st ++ loaded ∧
      cerr st' = cerr st ++ errors ∧
      sublist loaded (files_of path) ∧
      (length loaded + length errors = length (files_of path))%nat ∧
      Forall (λ line, ∃ text, line = "Error: " +:+ text) errors.
Proof. apply load_module_path_run. Qed.

Lemma load_module_path_dummy_run path st :
  load_macro = HAVE_LOAD_MODULES_DUMMY →
  load_module_path path st
  = (completes tt,
     with_cerr (map (λ f, "Error: " +:+ exception_what (load_failure f))
                    (files_of path)) st).
Proof.
  intros Hdummy. revert st.
  assert (∀ p st,
    try_catch (load_module p) (λ err, cerr_line ("Error: " +:+ exception_what err)) st
    = (completes tt, with_cerr ["Error: " +:+ exception_what (load_failure p)] st))
    as Htry.
  { intros p st. unfold try_catch. rewrite load_module_run. by rewrite Hdummy. }
  induction path as [p|p lines|p|p entries IH] using dir_entry_ind; intros st.
  - simpl. by rewrite with_cerr_nil.
  - apply Htry.
  - apply Htry.
  - change (load_module_path (directory p entries))
      with (for_all load_module_path entries).
    simpl files_of. clear p. revert st.
    induction IH as [|e entries He _ IHentries]; intros st.
    + simpl. by rewrite with_cerr_nil.
    + rewrite for_all_cons, He, IHentries, with_cerr_app.
      simpl flat_map. by rewrite map_app.
Qed.

(** X13: in a build without a loader ([HAVE_LOAD_MODULES_DUMMY])
    [load_module_path] loads nothing and calls no loader: it returns, and
    all it does is to write, for every file below the path in the order of
    the traversal, "Error: " and the text of the not-implemented exception
    for that file to [std::cerr]. *)
Theorem load_module_path_without_loader path st :
  load_macro = HAVE_LOAD_MODULES_DUMMY →
  load_module_path path st
  = (completes tt,
     {| native_calls := native_calls st;
        modules := modules st;
        cerr := cerr st ++
          map (λ file_name,
                 "Error: " +:+
                 exception_what
                   {| load_ex_class := not_implemented_error;
                      load_ex_message :=
                        "Module loading not supported: Cannot load "
                        +:+ quoted file_name |})
              (files_of path) |}).
Proof.
  intros Hdummy. rewrite load_module_path_dummy_run by done.
  unfold with_cerr, load_failure. by rewrite Hdummy.
Qed.

(** ** [load_module_d_path] *)

Lemma load_listed_modules_run lines st :
  load_listed_modules lines st
  = for_all load_module (filter (λ line, line_skipped line = false) lines) st.
Proof.
  unfold load_listed_modules. revert st.
  induction lines as [|line lines IH]; intros st; [done|].
  rewrite for_all_cons, filter_cons.
  destruct (line_skipped line) eqn:Hskip.
  - rewrite decide_False by done. apply IH.
  - rewrite decide_True by done. rewrite for_all_cons.
    destruct (load_module line st) as [[[]|e] st1]; [apply IH|done].
Qed.

(** The two nested loops load the listed names one after the other. *)
Lemma load_module_d_path_listed path st :
  fs_is_directory path = true →
  load_module_d_path path st = for_all load_module (listed path) st.
Proof.
  destruct path as [p|p lines|p|p entries]; [done..|]. intros _.
  unfold load_module_d_path, listed.
  rewrite <-for_all_flat_map. apply for_all_ext.
  intros [p'|p' lines|p'|p' entries'] st' _; simpl; [done| |done..].
  apply load_listed_modules_run.
Qed.

Lemma load_each_run names st :
  ∃ r st',
    for_all load_module names st = (r, st') ∧
    cerr st' = cerr st ∧
    ((r = completes tt ∧
      modules st' = modules st ++ names ∧
      native_calls st' = native_calls st ++ names ∧
      (names ≠ [] → load_macro ≠ HAVE_LOAD_MODULES_DUMMY) ∧
      ∀ before file_name after, names = before ++ file_name :: after →
        native_load (modules st ++ before) file_name = true) ∨
     (∃ before file_name after,
        names = before ++ file_name :: after ∧
        r = raises (load_failure file_name) ∧
        modules st' = modules st ++ before ∧
        native_calls st' = native_calls st ++ native_args (before ++ [file_name]) ∧
        (load_macro ≠ HAVE_LOAD_MODULES_DUMMY →
         native_load (modules st ++ before) file_name = false))).
Proof.
  revert st. induction names as [|f names IH]; intros st.
  { exists (completes tt), st. split; [done|]. split; [done|]. left.
    rewrite !app_nil_r. repeat split; [done|].
    intros before g after Hsplit. by destruct before. }
  rewrite for_all_cons, load_module_run.
  destruct (decide (load_macro = HAVE_LOAD_MODULES_DUMMY)) as [Hdummy|Hloader].
  { rewrite Hdummy. eexists _, _. split; [done|]. split; [done|]. right.
    exists [], f, names. unfold native_args. rewrite Hdummy, !app_nil_r.
    by repeat split. }
  destruct (native_load (modules st) f) eqn:Hload.
  - destruct (IH {| native_calls := native_calls st ++ [f];
                    modules := modules st ++ [f]; cerr := cerr st |})
      as (r & st' & Hrun & Hcerr & Hcases).
    simpl in Hcerr, Hcases.
    exists r, st'. split; [by destruct load_macro|]. split; [done|].
    destruct Hcases as [(-> & Hm & Hc & _ & Hall)
                       |(before & g & after & -> & -> & Hm & Hc & Hfail)].
    + left. rewrite Hm, Hc, <-!app_assoc. repeat split; [done|].
      intros [|f' before] g after Hsplit; simplify_eq/=.
      * by rewrite app_nil_r.
      * specialize (Hall before g after eq_refl).
        by rewrite <-app_assoc in Hall.
    + right. exists (f :: before), g, after.
      rewrite Hm, Hc, <-!app_assoc. repeat split.
      * unfold native_args. by destruct load_macro.
      * intros Hl. specialize (Hfail Hl). by rewrite <-app_assoc in Hfail.
  - eexists _, _. split; [by destruct load_macro|]. split; [done|]. right.
    exists [], f, names. simpl. rewrite !app_nil_r.
    repeat split; [|done]. unfold native_args. by destruct load_macro.
Qed.

(** X14: [load_module_d_path] on a directory loads the module names the
    directory lists (the lines, neither empty nor starting with '#', of the
    regular files directly in it) one after the other, stops at the first
    that fails and lets the exception of [load_module] out: nothing is
    caught and nothing is written to [std::cerr].  The names before the
    failing one stay loaded, the names after it are never tried.  In a
    build with a loader the call returns exactly when every listed name
    loads on top of the ones before it; in a build without one it returns
    only when the directory lists nothing. *)
Theorem load_module_d_path_stops_at_first_failure path st :
  fs_is_directory path = true →
  ∃ r st',
    load_module_d_path path st = (r, st') ∧
    cerr st' = cerr st ∧
    ((r = completes tt ∧
      modules st' = modules st ++ listed path ∧
      native_calls st' = native_calls st ++ listed path ∧
      (listed path ≠ [] → load_macro ≠ HAVE_LOAD_MODULES_DUMMY) ∧
      ∀ before file_name after, listed path = before ++ file_name :: after →
        native_load (modules st ++ before) file_name = true) ∨
     (∃ before file_name after,
        listed path = before ++ file_name :: after ∧
        r = raises (load_failure file_name) ∧
        modules st' = modules st ++ before ∧
        native_calls st' = native_calls st ++ native_args (before ++ [file_name]) ∧
        (load_macro ≠ HAVE_LOAD_MODULES_DUMMY →
         native_load (modules st ++ before) file_name = false))).
Proof.
  intros Hdir. rewrite load_module_d_path_listed by done. apply load_each_run.
Qed.

(** ** The static block *)

Lemma load_module_d_path_outcome path st :
  fs_is_directory path = true →
  ∃ r st1,
    load_module_d_path path st = (r, st1) ∧
    ((r = completes tt ∧ (listed path = [] → st1 = st)) ∨
     (∃ file_name, file_name ∈ listed path ∧ r = raises (load_failure file_name))).
Proof.
  intros Hdir. rewrite load_module_d_path_listed by done.
  destruct (load_each_run (listed path) st) as (r & st1 & Hrun & _ & Hcases).
  exists r, st1. split; [done|].
  destruct Hcases as [(-> & _)|(before & f & after & Hsplit & -> & _)].
  - left. split; [done|]. intros Hnil. rewrite Hnil in Hrun.
    change ((completes tt, st) = (completes tt, st1)) in Hrun. by simplify_eq.
  - right. exists f. split; [|done]. rewrite Hsplit. set_solver.
Qed.

Lemma load_module_paths_run paths st :
  ∃ st', for_all load_module_path paths st = (completes tt, st').
Proof.
  revert st. induction paths as [|path paths IH]; intros st; [by exists st|].
  destruct (load_module_path_run path st) as (st1 & Hrun & _).
  rewrite for_all_cons, Hrun. apply IH.
Qed.

Lemma load_module_d_paths_run paths st :
  ∃ r st',
    for_all (λ path, if fs_is_directory path then load_module_d_path path
                     else mret tt) paths st = (r, st') ∧
    (∀ e, r = raises e →
          ∃ path file_name,
            path ∈ paths ∧ fs_is_directory path = true ∧
            file_name ∈ listed path ∧ e = load_failure file_name) ∧
    ((∀ path, path ∈ paths → listed path = []) → r = completes tt ∧ st' = st).
Proof.
  revert st. induction paths as [|path paths IH]; intros st.
  { exists (completes tt), st. by repeat split. }
  rewrite for_all_cons.
  destruct (fs_is_directory path) eqn:Hdir.
  - destruct (load_module_d_path_outcome path st Hdir)
      as (r & st1 & Hrun & Hcases).
    rewrite Hrun.
    destruct Hcases as [(-> & Hnone)|(f & Hin & ->)].
    + destruct (IH st1) as (r & st' & Hloop & Hraise & Hidle).
      exists r, st'. split; [done|]. split.
      * intros e He. destruct (Hraise e He) as (d & g & ? & ? & ? & ?).
        exists d, g. repeat split; [by right|done..].
      * intros Hempty. destruct Hidle as [-> ->].
        { intros d Hd. apply Hempty. by right. }
        split; [done|]. apply Hnone, Hempty. by left.
    + eexists _, _. split; [done|]. split.
      * intros e [= <-]. exists path, f. repeat split; [by left|done..].
      * intros Hempty. rewrite Hempty in Hin by left. by apply elem_of_nil in Hin.
  - destruct (IH st) as (r & st' & Hloop & Hraise & Hidle).
    exists r, st'. split; [done|]. split.
    + intros e He. destruct (Hraise e He) as (d & g & ? & ? & ? & ?).
      exists d, g. repeat split; [by right|done..].
    + intros Hempty. apply Hidle. intros d Hd. apply Hempty. by right.
Qed.

(** X15: the static block [load_modules] catches nothing itself.  A file
    below a module path that does not load never makes it throw; an
    exception that leaves it is the one [load_module] throws for a name
    listed in a directory among the module.d paths.  Module.d paths that are
    no directories are skipped, so when no module.d directory lists a name
    the block returns. *)
Theorem load_modules_lets_listed_failures_out st :
  ∃ r st',
    load_modules st = (r, st') ∧
    (∀ e, r = raises e →
          ∃ path file_name,
            path ∈ get_module_d_paths ∧ fs_is_directory path = true ∧
            file_name ∈ listed path ∧ e = load_failure file_name) ∧
    ((∀ path, path ∈ get_module_d_paths → listed path = []) → r = completes tt).
Proof.
  unfold load_modules.
  destruct (load_module_paths_run get_module_paths st) as (st1 & Hpaths).
  destruct (load_module_d_paths_run get_module_d_paths st1)
    as (r & st' & Hrun & Hraise & Hidle).
  exists r, st'. unfold mbind, loading_bind. rewrite Hpaths.
  split; [done|]. split; [done|]. intros Hempty. by destruct (Hidle Hempty).
Qed.

End load_modules_properties.

(** ** The functions on the example objects *)

Example radio_block_id_0 : radio_block_id 0 = "Radio_0".
Proof. vm_compute. reflexivity. Qed.

Example radio_block_id_12 : radio_block_id 12 = "Radio_12".
Proof. vm_compute. reflexivity. Qed.

Example to_int_in_range : to_int 1 = 1%Z ∧ to_int (-1) = (-1)%Z.
Proof. split; reflexivity. Qed.

Example to_size_t_negative : to_size_t (-1) = 18446744073709551615%Z.
Proof. reflexivity. Qed.

Example fe_swapped_of_values :
  fe_swapped_of "IQ" = false ∧ fe_swapped_of "I" = false ∧
  fe_swapped_of "QI" = true ∧ fe_swapped_of "Q" = true.
Proof. repeat split. Qed.

Example update_subdev_spec_single_A :
  (update_subdev_spec ex_get_radio_index ex_validate_subdev_spec ex_set_mux_ok "rx" 0
     [{| db_name := "A"; sd_name := "0" |}] ex_st).1 = returns tt ∧
  calls (update_subdev_spec ex_get_radio_index ex_validate_subdev_spec ex_set_mux_ok "rx" 0
           [{| db_name := "A"; sd_name := "0" |}] ex_st).2
  = [ddc_set_mux 0 0 "IQ" false; rx_fe_set_mux 0 0 false;
     tree_set ["mboards"; "0"; "rx_chan_dsp_mapping"] [0%Z]].
Proof. split; vm_compute; reflexivity. Qed.

Example update_subdev_spec_single_C_rejected :
  (update_subdev_spec ex_get_radio_index ex_validate_subdev_spec ex_set_mux_ok "rx" 0
     [{| db_name := "C"; sd_name := "0" |}] ex_st).1
  = throws {| ex_class := assertion_error;
              what := "spec[0].db_name == A || spec[0].db_name == B" |}.
Proof. vm_compute. reflexivity. Qed.

Example update_subdev_spec_three_rejected :
  (update_subdev_spec ex_get_radio_index ex_validate_subdev_spec ex_set_mux_ok "rx" 0
     (ex_spec_A_B ++ [{| db_name := "A"; sd_name := "0" |}]) ex_st).1
  = throws {| ex_class := assertion_error; what := "spec.size() <= 2" |}.
Proof. vm_compute. reflexivity. Qed.

Example update_subdev_spec_missing_connection :
  (update_subdev_spec ex_get_radio_index ex_validate_subdev_spec ex_set_mux_ok "rx" 0
     [{| db_name := "A"; sd_name := "1" |}] ex_st).1
  = throws {| ex_class := lookup_error; what := "Path not found in tree" |} ∧
  calls (update_subdev_spec ex_get_radio_index ex_validate_subdev_spec ex_set_mux_ok "rx" 0
           [{| db_name := "A"; sd_name := "1" |}] ex_st).2 = [].
Proof. split; vm_compute; reflexivity. Qed.

Example update_subdev_spec_rx_mux_state :
  radio_perifs <$> _mb (update_subdev_spec ex_get_radio_index ex_validate_subdev_spec ex_set_mux_ok
                          "rx" 0 ex_spec_A_B ex_st).2 !! 0%nat
  = Some [with_rx_fe_mux false (with_ddc_mux "IQ" false (ex_perif 1.5 0.5));
          with_rx_fe_mux true (with_ddc_mux "QI" true (ex_perif 1.25 0.25))].
Proof. vm_compute. reflexivity. Qed.

Example update_tick_rate_on_example :
  rx_tick_rate <$> (match rx_objects (update_tick_rate ex_block_id_device_no 0 5e6 ex_st).2
                            !! 3%nat with
                    | Some (recv_object s) => Some s
                    | _ => None
                    end) = Some 120e6%float ∧
  tx_samp_rate <$> (match tx_objects (update_tick_rate ex_block_id_device_no 0 5e6 ex_st).2
                            !! 3%nat with
                    | Some (send_object s) => Some s
                    | _ => None
                    end) = Some 5e6%float.
Proof. split; vm_compute; reflexivity. Qed.

Example post_streamer_hooks_rx : post_streamer_hooks ex_dacs_in_sync false ex_st
                                 = (returns tt, ex_st).
Proof. reflexivity. Qed.

(** ** The statements on the example objects *)

Lemma ex_rx_keys_are_block_ids :
  Forall (λ k, is_Some (ex_block_id_device_no k)) (dict_keys (_rx_streamers ex_st)).
Proof. repeat (apply Forall_cons; split; [eexists; reflexivity|]). constructor. Defined.

Lemma ex_tx_keys_are_block_ids :
  Forall (λ k, is_Some (ex_block_id_device_no k)) (dict_keys (_tx_streamers ex_st)).
Proof. repeat (apply Forall_cons; split; [eexists; reflexivity|]). constructor. Defined.

Lemma update_tick_rate_refreshes_rx_and_sets_tx_witness :
  (update_tick_rate ex_block_id_device_no 0%nat 5e6%float ex_st).1 = returns tt ∧
  rx_objects (update_tick_rate ex_block_id_device_no 0%nat 5e6%float ex_st).2 !! 1%nat
  = Some (recv_object
            {| rx_tick_rate := 200e6; rx_samp_rate := 1e6; rx_scale_factor := 1;
               rx_get_terminator :=
                 {| get_tick_rate := 200e6; get_output_samp_rate := 1e6 |} |}) ∧
  tx_objects (update_tick_rate ex_block_id_device_no 0%nat 5e6%float ex_st).2 !! 2%nat
  = Some (send_object
            {| tx_tick_rate := 5e6; tx_samp_rate := 5e6; tx_scale_factor := 1;
               tx_get_terminator := tx_get_terminator (ex_tx [(0, 1)]%nat) |}).
Proof.
  destruct (update_tick_rate_refreshes_rx_and_sets_tx ex_block_id_device_no 0%nat 5e6%float ex_st
              ex_rx_keys_are_block_ids ex_tx_keys_are_block_ids) as (Hret & Hrx & Htx).
  split; [exact Hret|]. split.
  - exact (Hrx "0/Radio_0" 1%nat (ex_rx 200e6 1e6) eq_refl eq_refl eq_refl).
  - exact (Htx "0/Radio_1" 2%nat (ex_tx [(0, 1)]%nat) eq_refl eq_refl eq_refl).
Defined.

Lemma update_tick_rate_skips_unresolved_and_other_mboards_witness :
  (update_tick_rate ex_block_id_device_no 0%nat 5e6%float ex_st).1 = returns tt ∧
  rx_objects (update_tick_rate ex_block_id_device_no 0%nat 5e6%float ex_st).2 !! 7%nat = None ∧
  rx_objects (update_tick_rate ex_block_id_device_no 0%nat 5e6%float ex_st).2 !! 2%nat
  = Some (recv_object (ex_rx 184.32e6 2e6)) ∧
  tx_objects (update_tick_rate ex_block_id_device_no 0%nat 5e6%float ex_st).2 !! 9%nat = None.
Proof.
  destruct (update_tick_rate_skips_unresolved_and_other_mboards
              ex_block_id_device_no 0%nat 5e6%float ex_st
              ex_rx_keys_are_block_ids ex_tx_keys_are_block_ids)
    as (Hret & Hrx_dead & Htx_dead & Hrx_other & _).
  split; [exact Hret|]. split; [|split].
  - rewrite (Hrx_dead 7%nat); [reflexivity|]. intros s. discriminate.
  - rewrite (Hrx_other 2%nat); [reflexivity|].
    intros block_id Hreg. simpl in Hreg.
    repeat (case_decide; [subst block_id; try discriminate|]); simplify_eq.
  - rewrite (Htx_dead 9%nat); [reflexivity|]. intros s. discriminate.
Defined.

Lemma update_samp_rate_sets_rate_then_scaling_witness :
  update_rx_samp_rate ex_mb0 1 2e6 ex_st = (returns tt, ex_st) ∧
  update_rx_samp_rate ex_mb0 0 2e6 ex_st
  = (returns tt,
     set_rx_objects
       <[3%nat := recv_object
                    {| rx_tick_rate := 0; rx_samp_rate := 2e6; rx_scale_factor := 1.5;
                       rx_get_terminator := rx_get_terminator (ex_rx 120e6 4e6) |}]>
       ex_st) ∧
  update_tx_samp_rate ex_mb0 0 2e6 ex_st
  = (returns tt,
     set_tx_objects
       <[3%nat := send_object
                    {| tx_tick_rate := 0; tx_samp_rate := 2e6; tx_scale_factor := 0.5;
                       tx_get_terminator :=
                         tx_get_terminator (ex_tx [(0, 0); (0, 1); (1, 0)]%nat) |}]>
       ex_st).
Proof.
  split; [|split].
  - destruct (update_samp_rate_sets_rate_then_scaling ex_mb0 1 2e6 ex_st) as (Habsent & _).
    apply Habsent. vm_compute. reflexivity.
  - destruct (update_samp_rate_sets_rate_then_scaling ex_mb0 0 2e6 ex_st)
      as (_ & _ & Hlive & _).
    apply (Hlive 3%nat (ex_rx 120e6 4e6)); vm_compute; reflexivity.
  - destruct (update_samp_rate_sets_rate_then_scaling ex_mb0 0 2e6 ex_st)
      as (_ & _ & _ & _ & _ & Hlive).
    apply (Hlive 3%nat (ex_tx [(0, 0); (0, 1); (1, 0)]%nat)); vm_compute; reflexivity.
Defined.

Lemma samp_rate_endpoint_named_by_dspno_only_witness :
  radio_perifs ex_mb0 !! 0%nat = Some (ex_perif 1.5 0.5) ∧
  radio_perifs ex_mb1 !! 0%nat = Some (ex_perif 2 4) ∧
  update_rx_samp_rate ex_mb0 0 2e6 ex_st
  = (returns tt,
     set_rx_objects
       (alter (on_recv (λ s, with_rx_scale_factor 1.5 (with_rx_samp_rate 2e6 s))) 3%nat)
       ex_st) ∧
  update_rx_samp_rate ex_mb1 0 2e6 ex_st
  = (returns tt,
     set_rx_objects
       (alter (on_recv (λ s, with_rx_scale_factor 2 (with_rx_samp_rate 2e6 s))) 3%nat)
       ex_st).
Proof.
  split; [reflexivity|]. split; [reflexivity|].
  destruct (samp_rate_endpoint_named_by_dspno_only
              ex_mb0 ex_mb1 (ex_perif 1.5 0.5) (ex_perif 2 4) 0 2e6 ex_st
              eq_refl eq_refl) as (Hrx1 & Hrx2 & _).
  split; [exact Hrx1|exact Hrx2].
Defined.

Lemma update_subdev_spec_pair_names_witness :
  (update_subdev_spec ex_get_radio_index ex_validate_subdev_spec ex_set_mux_ok
     "rx" 0 ex_spec_A_B ex_st).1
  = returns tt.
Proof.
  destruct (update_subdev_spec_pair_names ex_get_radio_index ex_validate_subdev_spec
              ex_set_mux_ok "rx" 0 {| db_name := "A"; sd_name := "0" |}
              {| db_name := "B"; sd_name := "0" |} ex_st) as (_ & _ & Hiff).
  refine (proj2 (Hiff _ _ _ _ _ _ _) _).
  - right. reflexivity.
  - simpl. lia.
  - reflexivity.
  - intros p Hp. apply elem_of_cons in Hp as [->|Hp];
      [|apply list_elem_of_singleton in Hp as ->].
    + exists "IQ". vm_compute. reflexivity.
    + exists "QI". vm_compute. reflexivity.
  - intros p mb Hp Hmb. simpl in Hmb. injection Hmb as <-.
    apply elem_of_cons in Hp as [->|Hp];
      [|apply list_elem_of_singleton in Hp as ->]; vm_compute; split; congruence.
  - exists []. vm_compute. reflexivity.
  - reflexivity.
  - left. split; reflexivity.
Defined.

Example update_subdev_spec_rx_calls :
  calls (update_subdev_spec ex_get_radio_index ex_validate_subdev_spec ex_set_mux_ok
           "rx" 0 ex_spec_A_B ex_st).2
  = [ddc_set_mux 0 0 "IQ" false; rx_fe_set_mux 0 0 false;
     ddc_set_mux 0 1 "QI" true; rx_fe_set_mux 0 1 true;
     tree_set ["mboards"; "0"; "rx_chan_dsp_mapping"] [0%Z; 1%Z]].
Proof. vm_compute. reflexivity. Qed.

Example update_subdev_spec_tx_calls :
  calls (update_subdev_spec ex_get_radio_index ex_validate_subdev_spec ex_set_mux_ok
           "tx" 0 ex_spec_A_B ex_st).2
  = [tx_fe_set_mux 0 0 "IQ"; tx_fe_set_mux 0 1 "QI";
     tree_set ["mboards"; "0"; "tx_chan_dsp_mapping"] [0%Z; 1%Z]].
Proof. vm_compute. reflexivity. Qed.

Example update_subdev_spec_A_A_rejected :
  update_subdev_spec ex_get_radio_index ex_validate_subdev_spec ex_set_mux_ok "rx" 0
    [{| db_name := "A"; sd_name := "0" |}; {| db_name := "A"; sd_name := "0" |}] ex_st
  = (throws {| ex_class := assertion_error; what := "(A && B) || (B && A)" |}, ex_st).
Proof. rewrite update_subdev_spec_precheck. reflexivity. Qed.

Lemma update_subdev_spec_programs_muxes_witness :
  fe_swapped_of "QI" = true ∧ fe_swapped_of "Q" = true ∧
  (∃ tail,
     calls (update_subdev_spec ex_get_radio_index ex_validate_subdev_spec ex_set_mux_ok
              "rx" 0 ex_spec_A_B ex_st).2
     = [ddc_set_mux 0 0 "IQ" false; rx_fe_set_mux 0 0 false;
        ddc_set_mux 0 1 "QI" true; rx_fe_set_mux 0 1 true] ++ tail) ∧
  (∃ tail,
     calls (update_subdev_spec ex_get_radio_index ex_validate_subdev_spec ex_set_mux_ok
              "tx" 0 ex_spec_A_B ex_st).2
     = [tx_fe_set_mux 0 0 "IQ"; tx_fe_set_mux 0 1 "QI"] ++ tail).
Proof.
  assert (∀ p, p ∈ ex_spec_A_B →
            (0 ≤ to_int (ex_get_radio_index 0 (db_name p))
               < Z.of_nat (length (radio_perifs ex_mb0)))%Z) as Hslots.
  { intros p Hp. apply elem_of_cons in Hp as [->|Hp];
      [|apply list_elem_of_singleton in Hp as ->]; vm_compute; split; congruence. }
  destruct (update_subdev_spec_programs_muxes ex_get_radio_index
              ex_validate_subdev_spec ex_set_mux_ok "rx" 0 ex_spec_A_B ex_st)
    as (Hswapped & _ & _ & _ & Hrx).
  destruct (update_subdev_spec_programs_muxes ex_get_radio_index
              ex_validate_subdev_spec ex_set_mux_ok "tx" 0 ex_spec_A_B ex_st)
    as (_ & _ & _ & _ & Htx).
  split; [apply Hswapped; left; reflexivity|].
  split; [apply Hswapped; right; reflexivity|].
  split.
  - destruct (Hrx ["IQ"; "QI"] ex_mb0) as (tail & Hcalls & _).
    + vm_compute. reflexivity.
    + reflexivity.
    + repeat constructor; vm_compute; reflexivity.
    + apply Hslots.
    + reflexivity.
    + exists tail. exact Hcalls.
  - destruct (Htx ["IQ"; "QI"] ex_mb0) as (tail & Hcalls & _).
    + vm_compute. reflexivity.
    + reflexivity.
    + repeat constructor; vm_compute; reflexivity.
    + apply Hslots.
    + reflexivity.
    + exists tail. exact Hcalls.
Defined.

Lemma update_subdev_spec_persists_mapping_witness :
  _tree (update_subdev_spec ex_get_radio_index ex_validate_subdev_spec ex_set_mux_ok
           "rx" 0 ex_spec_A_B ex_st).2
    !! ["mboards"; "0"; "rx_chan_dsp_mapping"]
  = Some (prop_size_vector [0%Z; 1%Z]).
Proof.
  destruct (update_subdev_spec_persists_mapping ex_get_radio_index
              ex_validate_subdev_spec ex_set_mux_ok "rx" 0 ex_spec_A_B ex_st) as (Hreturns & _).
  destruct Hreturns as (_ & Hlookup & _); [vm_compute; reflexivity|].
  exact Hlookup.
Defined.

Lemma get_hints_by_platform_witness :
  get_tx_hints 0 ex_st = (returns [("send_frame_size", "8000")], ex_st) ∧
  get_rx_hints false false true false 33554432 1048576 0 ex_st
  = (returns [("recv_frame_size", "8000"); ("recv_buff_size", "33554432")], ex_st) ∧
  get_rx_hints true false false false 33554432 1048576 0 ex_st
  = (returns [("recv_frame_size", "8000"); ("recv_buff_size", "1048576")], ex_st) ∧
  get_rx_hints false false true false 33554432 1048576 1 ex_st
  = (returns [("recv_buff_size", "4096")], ex_st).
Proof.
  destruct (get_hints_by_platform false false true false 33554432 1048576
              0 ex_mb0 ex_st eq_refl eq_refl) as (Htx & rx_hints & Hrx & _ & Hdefault).
  destruct (get_hints_by_platform true false false false 33554432 1048576
              0 ex_mb0 ex_st eq_refl eq_refl) as (_ & rx_hints_mac & Hmac & _ & Hdefault_mac).
  destruct (get_hints_by_platform false false true false 33554432 1048576
              1 ex_mb1 ex_st eq_refl eq_refl) as (_ & rx_hints' & Hrx' & Hstored & _).
  split; [exact Htx|]. split; [|split].
  - rewrite Hrx. f_equal. f_equal.
    destruct Hdefault as [-> _]; [reflexivity|discriminate|].
    vm_compute. reflexivity.
  - rewrite Hmac. f_equal. f_equal.
    destruct Hdefault_mac as [-> _]; [reflexivity|discriminate|].
    vm_compute. reflexivity.
  - rewrite Hrx'. f_equal. f_equal. apply Hstored. left. reflexivity.
Defined.

Lemma post_streamer_hooks_one_sync_per_endpoint_witness :
  (post_streamer_hooks ex_dacs_in_sync true ex_st).1 = returns tt ∧
  calls (post_streamer_hooks ex_dacs_in_sync true ex_st).2
  = [synchronize_dacs [(0, 0)]%nat;
     synchronize_dacs [(0, 1)]%nat;
     synchronize_dacs [(0, 0); (0, 1); (1, 0)]%nat].
Proof.
  destruct (post_streamer_hooks_one_sync_per_endpoint ex_dacs_in_sync ex_st)
    as (_ & _ & Hreturns).
  apply Hreturns.
  - intros g Hg.
    change (sync_groups ex_st)
      with [[(0, 0)]; [(0, 1)]; [(0, 0); (0, 1); (1, 0)]]%nat in Hg.
    repeat (apply elem_of_cons in Hg as [->|Hg]; [reflexivity|]).
    by apply elem_of_nil in Hg.
  - reflexivity.
Defined.

Lemma post_streamer_hooks_stops_at_sync_failure_witness :
  post_streamer_hooks ex_dac_timeout true ex_st
  = (throws {| ex_class := io_error; what := "Failed to sync DACs! DAC timeout " |},
     log_calls [synchronize_dacs [(0, 0)]%nat] ex_st).
Proof.
  apply (post_streamer_hooks_stops_at_sync_failure ex_dac_timeout ex_st
           [] 1%nat (ex_tx [(0, 0)]%nat) [Some 2; Some 9; Some 3]%nat ex_st
           {| ex_class := io_error; what := "DAC timeout" |});
    reflexivity.
Defined.

Lemma post_streamer_hooks_sync_failure_counterexample :
  (post_streamer_hooks ex_dac_timeout true ex_st).1
  = throws {| ex_class := io_error; what := "Failed to sync DACs! DAC timeout " |} ∧
  calls (post_streamer_hooks ex_dac_timeout true ex_st).2
  = [synchronize_dacs [(0, 0)]%nat] ∧
  dict_get (_tx_streamers ex_st) "0/Radio_1" = Some (Some 2%nat) ∧
  tx_objects ex_st !! 2%nat = Some (send_object (ex_tx [(0, 1)]%nat)) ∧
  synchronize_dacs [(0, 1)]%nat ∉ calls (post_streamer_hooks ex_dac_timeout true ex_st).2.
Proof.
  split; [vm_compute; reflexivity|]. split; [vm_compute; reflexivity|].
  split; [reflexivity|]. split; [reflexivity|].
  change (calls (post_streamer_hooks ex_dac_timeout true ex_st).2)
    with [synchronize_dacs [(0, 0)]%nat].
  intros Hin. apply list_elem_of_singleton in Hin. discriminate Hin.
Qed.

(** ** The further properties on the example objects *)

Lemma update_tick_rate_last_call_wins_witness :
  update_tick_rate ex_block_id_device_no 0%nat 7e6%float
    (update_tick_rate ex_block_id_device_no 0%nat 5e6%float ex_st).2
  = update_tick_rate ex_block_id_device_no 0%nat 7e6%float ex_st ∧
  rx_objects (update_tick_rate ex_block_id_device_no 0%nat 5e6%float ex_st).2
  = rx_objects (update_tick_rate ex_block_id_device_no 0%nat 7e6%float ex_st).2.
Proof.
  exact (update_tick_rate_last_call_wins ex_block_id_device_no 0%nat 5e6%float 7e6%float
           ex_st ex_rx_keys_are_block_ids ex_tx_keys_are_block_ids).
Defined.

Lemma update_rx_tx_samp_rate_commute_witness :
  update_tx_samp_rate ex_mb1 0%nat 3e6%float
    (update_rx_samp_rate ex_mb0 0%nat 2e6%float ex_st).2
  = (returns tt,
     (update_rx_samp_rate ex_mb0 0%nat 2e6%float
        (update_tx_samp_rate ex_mb1 0%nat 3e6%float ex_st).2).2) ∧
  update_rx_samp_rate ex_mb0 0%nat 2e6%float
    (update_tx_samp_rate ex_mb1 0%nat 3e6%float ex_st).2
  = (returns tt,
     (update_tx_samp_rate ex_mb1 0%nat 3e6%float
        (update_rx_samp_rate ex_mb0 0%nat 2e6%float ex_st).2).2).
Proof.
  exact (update_rx_tx_samp_rate_commute ex_mb0 ex_mb1
           (ex_perif 1.5 0.5) (ex_perif 2 4) 0%nat 0%nat 2e6%float 3e6%float ex_st
           eq_refl eq_refl).
Defined.

Example update_subdev_spec_frame_on_example :
  xport_path <$> _mb (update_subdev_spec ex_get_radio_index ex_validate_subdev_spec ex_set_mux_ok
                        "tx" 0 ex_spec_A_B ex_st).2 !! 0%nat = Some "eth" ∧
  _mb (update_subdev_spec ex_get_radio_index ex_validate_subdev_spec ex_set_mux_ok
         "tx" 0 ex_spec_A_B ex_st).2 !! 1%nat = Some ex_mb1 ∧
  radio_perifs <$> _mb (update_subdev_spec ex_get_radio_index ex_validate_subdev_spec ex_set_mux_ok
                          "tx" 0 ex_spec_A_B ex_st).2 !! 0%nat
  = Some [with_tx_fe_mux "IQ" (ex_perif 1.5 0.5);
          with_tx_fe_mux "QI" (ex_perif 1.25 0.25)].
Proof. repeat split; vm_compute; reflexivity. Qed.

Lemma update_subdev_spec_rejects_arguments_witness :
  (∃ e, update_subdev_spec ex_get_radio_index ex_validate_subdev_spec ex_set_mux_ok
          "trx" 0 ex_spec_A_B ex_st = (throws e, ex_st)
        ∧ ex_class e = assertion_error) ∧
  (∃ e, update_subdev_spec ex_get_radio_index ex_validate_subdev_spec ex_set_mux_ok
          "rx" 2 ex_spec_A_B ex_st = (throws e, ex_st)
        ∧ ex_class e = assertion_error).
Proof.
  split.
  - destruct (update_subdev_spec_rejects_arguments ex_get_radio_index
                ex_validate_subdev_spec ex_set_mux_ok "trx" 0 ex_spec_A_B ex_st) as (Hdir & _).
    apply Hdir; discriminate.
  - destruct (update_subdev_spec_rejects_arguments ex_get_radio_index
                ex_validate_subdev_spec ex_set_mux_ok "rx" 2 ex_spec_A_B ex_st) as (_ & Hmb & _).
    apply Hmb. simpl. lia.
Defined.

Lemma update_subdev_spec_empty_witness :
  update_subdev_spec ex_get_radio_index ex_validate_subdev_spec ex_set_mux_ok "rx" 0 [] ex_st
  = (returns tt,
     log_call (tree_set ["mboards"; "0"; "rx_chan_dsp_mapping"] [])
       (set_tree <[["mboards"; "0"; "rx_chan_dsp_mapping"] := prop_size_vector []]>
          ex_st)).
Proof.
  apply (update_subdev_spec_empty ex_get_radio_index ex_validate_subdev_spec ex_set_mux_ok
           "rx" 0 ex_st []).
  - right. reflexivity.
  - simpl. lia.
  - reflexivity.
  - vm_compute. reflexivity.
Defined.

Lemma update_subdev_spec_single_name_witness :
  (update_subdev_spec ex_get_radio_index ex_validate_subdev_spec ex_set_mux_ok "tx" 0
     [{| db_name := "B"; sd_name := "0" |}] ex_st).1 = returns tt ∧
  ∃ e, update_subdev_spec ex_get_radio_index ex_validate_subdev_spec ex_set_mux_ok "tx" 0
         [{| db_name := "C"; sd_name := "0" |}] ex_st = (throws e, ex_st)
       ∧ (ex_class e = assertion_error
          ∨ ex_validate_subdev_spec (_tree ex_st) [{| db_name := "C"; sd_name := "0" |}]
              "tx" (pretty 0%nat) = Some e).
Proof.
  split.
  - destruct (update_subdev_spec_single_name ex_get_radio_index ex_validate_subdev_spec
                ex_set_mux_ok "tx" 0 {| db_name := "B"; sd_name := "0" |} ex_st)
      as (_ & _ & Hsucceeds).
    apply Hsucceeds.
    + right. reflexivity.
    + left. reflexivity.
    + simpl. lia.
    + reflexivity.
    + exists "QI". vm_compute. reflexivity.
    + intros mb Hmb. simpl in Hmb. injection Hmb as <-. vm_compute. split; congruence.
    + exists []. vm_compute. reflexivity.
    + reflexivity.
  - destruct (update_subdev_spec_single_name ex_get_radio_index ex_validate_subdev_spec
                ex_set_mux_ok "tx" 0 {| db_name := "C"; sd_name := "0" |} ex_st)
      as (_ & Hother & _).
    apply Hother; discriminate.
Defined.

Lemma update_subdev_spec_no_rollback_witness :
  ((update_subdev_spec ex_get_radio_index ex_validate_subdev_spec ex_set_mux_fault "rx" 0
      [{| db_name := "A"; sd_name := "0" |}; {| db_name := "B"; sd_name := "1" |}]
      ex_st).1
   = throws {| ex_class := lookup_error; what := "Path not found in tree" |} ∧
   calls (update_subdev_spec ex_get_radio_index ex_validate_subdev_spec ex_set_mux_fault
            "rx" 0
            [{| db_name := "A"; sd_name := "0" |}; {| db_name := "B"; sd_name := "1" |}]
            ex_st).2
   = [ddc_set_mux 0 0 "IQ" false; rx_fe_set_mux 0 0 false]) ∧
  ((update_subdev_spec ex_get_radio_index ex_validate_subdev_spec ex_set_mux_fault "rx" 0
      ex_spec_A_B ex_st).1
   = throws {| ex_class := io_error; what := "register write failed" |} ∧
   calls (update_subdev_spec ex_get_radio_index ex_validate_subdev_spec ex_set_mux_fault
            "rx" 0 ex_spec_A_B ex_st).2
   = [ddc_set_mux 0 0 "IQ" false; rx_fe_set_mux 0 0 false; ddc_set_mux 0 1 "QI" true] ∧
   _tree (update_subdev_spec ex_get_radio_index ex_validate_subdev_spec ex_set_mux_fault
            "rx" 0 ex_spec_A_B ex_st).2 = _tree ex_st).
Proof.
  assert (∀ c st', c ∈ [ddc_set_mux 0 0 "IQ" false; rx_fe_set_mux 0 0 false] →
                   ex_set_mux_fault c st' = None) as Hfirst.
  { intros c st' Hc. apply elem_of_cons in Hc as [->|Hc];
      [|apply list_elem_of_singleton in Hc as ->]; reflexivity. }
  split.
  - destruct (update_subdev_spec_no_rollback ex_get_radio_index ex_validate_subdev_spec
                ex_set_mux_fault "rx" 0 {| db_name := "A"; sd_name := "0" |}
                {| db_name := "B"; sd_name := "1" |} ex_st ex_mb0 (ex_perif 1.5 0.5) "IQ")
      as ((Hthrows & _ & Hcalls & _) & _).
    + left. split; reflexivity.
    + right. reflexivity.
    + reflexivity.
    + reflexivity.
    + vm_compute. reflexivity.
    + vm_compute. congruence.
    + reflexivity.
    + exact Hfirst.
    + vm_compute. reflexivity.
    + split; [exact Hthrows|exact Hcalls].
  - destruct (update_subdev_spec_no_rollback ex_get_radio_index ex_validate_subdev_spec
                ex_set_mux_fault "rx" 0 {| db_name := "A"; sd_name := "0" |}
                {| db_name := "B"; sd_name := "0" |} ex_st ex_mb0 (ex_perif 1.5 0.5) "IQ")
      as (_ & Hwrite).
    + left. split; reflexivity.
    + right. reflexivity.
    + reflexivity.
    + reflexivity.
    + vm_compute. reflexivity.
    + vm_compute. congruence.
    + reflexivity.
    + exact Hfirst.
    + destruct (Hwrite "QI" {| ex_class := io_error; what := "register write failed" |})
        as (Hthrows & Htree & Hcalls & _).
      * vm_compute. reflexivity.
      * vm_compute. split; congruence.
      * intros st''. reflexivity.
      * split; [exact Hthrows|]. split; [exact Hcalls|exact Htree].
Defined.

Lemma get_rx_hints_keeps_stored_values_witness :
  ∃ rx_hints,
    get_rx_hints false false true false 33554432 1048576 0 ex_st
    = (returns rx_hints, ex_st) ∧
    recv_args ex_mb0 `prefix_of` rx_hints ∧
    (∀ k v, dict_get (recv_args ex_mb0) k = Some v → dict_get rx_hints k = Some v) ∧
    (∀ k, k ≠ "recv_buff_size" → dict_get rx_hints k = dict_get (recv_args ex_mb0) k).
Proof.
  exact (get_rx_hints_keeps_stored_values false false true false 33554432 1048576
           0 ex_mb0 ex_st eq_refl).
Defined.

Example get_rx_hints_on_example :
  (get_rx_hints false false true false 33554432 1048576 0 ex_st).1
  = returns [("recv_frame_size", "8000"); ("recv_buff_size", "33554432")].
Proof. vm_compute. reflexivity. Qed.

Lemma post_streamer_hooks_passes_other_errors_witness :
  post_streamer_hooks ex_dac_fault true ex_st
  = (throws {| ex_class := runtime_error; what := "DAC fault" |},
     log_calls [synchronize_dacs [(0, 0)]%nat; synchronize_dacs [(0, 1)]%nat] ex_st).
Proof.
  apply (post_streamer_hooks_passes_other_errors ex_dac_fault ex_st
           [Some 1%nat] 2%nat (ex_tx [(0, 1)]%nat) [Some 9; Some 3]%nat
           (log_calls [synchronize_dacs [(0, 0)]%nat] ex_st)
           {| ex_class := runtime_error; what := "DAC fault" |});
    try reflexivity.
  discriminate.
Defined.

Lemma post_streamer_hooks_idle_witness :
  post_streamer_hooks ex_dac_fault true ex_st_tx_dropped = (returns tt, ex_st_tx_dropped).
Proof.
  apply (post_streamer_hooks_idle ex_dac_fault ex_st_tx_dropped).
  intros streamer_w Hw.
  change (dict_vals (_tx_streamers ex_st_tx_dropped))
    with [Some 1; Some 2; Some 9; Some 3]%nat in Hw.
  repeat (apply elem_of_cons in Hw as [->|Hw]; [reflexivity|]).
  by apply elem_of_nil in Hw.
Defined.

Lemma radio_block_id_distinct_witness : radio_block_id 0 ≠ radio_block_id 1.
Proof. apply (radio_block_id_distinct 0 1). lia. Defined.

(** ** Module loading on the example tree *)

Example files_of_on_example :
  files_of ex_modules_dir
  = ["/usr/lib/uhd/modules/libfoo.so"; "/usr/lib/uhd/modules/extra/README";
     "/usr/lib/uhd/modules/extra/socket"; "/usr/lib/uhd/modules/libbar.so"].
Proof. reflexivity. Qed.

Example listed_on_example :
  listed ex_modules_d = ["/opt/foo/libfoo.so"; " # not a comment"; "/opt/bar/libbar.so"].
Proof. reflexivity. Qed.

Example load_module_path_on_example :
  (load_module_path (H := ex_host) ex_modules_dir ex_process).1 = completes tt ∧
  native_calls (load_module_path (H := ex_host) ex_modules_dir ex_process).2
  = files_of ex_modules_dir ∧
  modules (load_module_path (H := ex_host) ex_modules_dir ex_process).2
  = ["/usr/lib/uhd/modules/libfoo.so"] ∧
  cerr (load_module_path (H := ex_host) ex_modules_dir ex_process).2
  = ["Error: OSError: dlopen failed to load "
       +:+ quoted "/usr/lib/uhd/modules/extra/README";
     "Error: OSError: dlopen failed to load "
       +:+ quoted "/usr/lib/uhd/modules/extra/socket";
     "Error: OSError: dlopen failed to load "
       +:+ quoted "/usr/lib/uhd/modules/libbar.so"].
Proof. repeat split; vm_compute; reflexivity. Qed.

Lemma load_module_path_without_loader_witness :
  load_module_path (H := ex_dummy_host) ex_modules_dir ex_process
  = (completes tt,
     {| native_calls := [];
        modules := [];
        cerr :=
          map (λ file_name,
                 "Error: NotImplementedError: Module loading not supported: Cannot load "
                 +:+ quoted file_name)
              (files_of ex_modules_dir) |}).
Proof.
  exact (load_module_path_without_loader (H := ex_dummy_host) ex_modules_dir ex_process
           eq_refl).
Defined.

Lemma load_module_d_path_stops_at_first_failure_witness :
  ∃ r st',
    load_module_d_path (H := ex_host) ex_modules_d ex_process = (r, st') ∧
    cerr st' = cerr ex_process ∧
    ((r = completes tt ∧
      modules st' = modules ex_process ++ listed ex_modules_d ∧
      native_calls st' = native_calls ex_process ++ listed ex_modules_d ∧
      (listed ex_modules_d ≠ [] → load_macro (host := ex_host) ≠ HAVE_LOAD_MODULES_DUMMY) ∧
      ∀ before file_name after, listed ex_modules_d = before ++ file_name :: after →
        native_load (host := ex_host) (modules ex_process ++ before) file_name = true) ∨
     (∃ before file_name after,
        listed ex_modules_d = before ++ file_name :: after ∧
        r = raises (load_failure (H := ex_host) file_name) ∧
        modules st' = modules ex_process ++ before ∧
        native_calls st'
        = native_calls ex_process ++ native_args (H := ex_host) (before ++ [file_name]) ∧
        (load_macro (host := ex_host) ≠ HAVE_LOAD_MODULES_DUMMY →
         native_load (host := ex_host) (modules ex_process ++ before) file_name = false))).
Proof.
  exact (load_module_d_path_stops_at_first_failure (H := ex_host) ex_modules_d ex_process
           eq_refl).
Defined.

Example load_module_d_path_on_example :
  (load_module_d_path (H := ex_host) ex_modules_d ex_process).1
  = raises {| load_ex_class := os_error;
              load_ex_message := "dlopen failed to load " +:+ quoted " # not a comment" |} ∧
  (load_module_d_path (H := ex_host) ex_modules_d ex_process).2
  = {| native_calls := ["/opt/foo/libfoo.so"; " # not a comment"];
       modules := ["/opt/foo/libfoo.so"];
       cerr := [] |}.
Proof. split; vm_compute; reflexivity. Qed.

Example load_modules_on_example :
  (load_modules (H := ex_host) ex_process).1
  = raises {| load_ex_class := os_error;
              load_ex_message := "dlopen failed to load " +:+ quoted " # not a comment" |} ∧
  (load_modules (H := ex_dummy_host) ex_process).1
  = raises {| load_ex_class := not_implemented_error;
              load_ex_message :=
                "Module loading not supported: Cannot load "
                +:+ quoted "/opt/foo/libfoo.so" |}.
Proof. split; vm_compute; reflexivity. Qed.
